(** * yolo2page: the geometric assignment engine of [converter.py]

    A shallow embedding of [YoloPageConverter] (src/converter.py): label
    parsing, denormalisation, the geometric scores, the best-parent search,
    the four passes of [convert_page] and the batch loop of
    [convert_folder], followed by the properties of the specification that
    were checked against it and by further properties of the code.

    Conventions of the embedding.
    - Python [str] is [string]; the text is taken to be ASCII.
    - Python [float] values produced by the geometry library (areas, overlap
      areas) are rationals [Q] and the two float operations the converter
      itself performs on them ([line_area * 0.1] and
      [intersection.area / child.area]) are exact; [float('inf')] is the extra
      point of [farea].
    - The Python builtins [int], [float], the geometry library (shapely) and
      the two sources of nondeterminism ([datetime.now], [uuid.uuid4]) are not
      code of the repository: they are the fields of the classes
      [PyBuiltins], [Shapely] and [PyEnv].
    - An [xml.etree] document is an arena of elements; an element object is
      its index (a handle), so that appending a child through any reference to
      an element is seen through all of them.  The [region_info] dicts, which
      [convert_page] shares between several lists and mutates, live in a heap
      of their own and the lists hold references.
    - [self.mapping] is a dict from class-id strings to dicts of strings, as
      the mapping files of the repository are. The truth value of an element
      object is that of [len(element)]: it has children.
    - An exception is the [Raise] case of [result]; the records written to the
      logger (warning and info level) are collected by the monad [M]. The
      [logger.debug] calls carry no data used elsewhere and are left out.
    - [convert_folder] sees the file system as two folders: the label files
      of the labels folder in the order [glob] lists them, each with its stem
      and its lines, and the image files of the images folder by name, with
      their sizes. Every image file is one that PIL opens, and serialising
      and writing a document do not fail; a file written to the output
      folder is recorded with the document it holds. *)

From Stdlib Require Import ZArith QArith Lqa String Ascii DecimalString.
From Stdlib Require Import ZifyNat DecimalNat DecimalFacts DecimalZ.
From stdpp Require Import base list gmap strings.

(** ** Python values, exceptions and logging *)

Inductive pyexn : Type :=
  | ValueError | OverflowError | FileNotFoundError | GeometryError.

Inductive result (A : Type) : Type :=
  | Ok (a : A)
  | Raise (e : pyexn).
Arguments Ok {A} a.
Arguments Raise {A} e.

Global Instance result_ret : MRet result := λ A a, Ok a.
Global Instance result_bind : MBind result := λ A B f m,
  match m with Ok a => f a | Raise e => Raise e end.

(** The records [convert_page] hands to [self.logger]. *)
Inductive log_record : Type :=
  | Warn_no_mapping (class_id : option Z)
      (* warning: "No mapping found for class ID {class_id}, skipping" *)
  | Info_parent_regions (n : nat)
      (* info: "Processing {n} parent TextRegions" *)
  | Info_child_regions (n : nat)
      (* info: "Processing {n} child TextRegions" *)
  | Info_orphan_children (n : nat)
      (* info: "{n} child TextRegions added to page level" *)
  | Info_text_lines (n : nat)
      (* info: "Processing {n} TextLines" *)
  | Info_assignment (existing orphans : nat).
      (* info: "TextLine assignment: {existing} to existing regions,
         {orphans} in new regions" *)

(** A computation that logs and may raise. The log written before an
    exception is kept. *)
Record M (A : Type) : Type := mkM { m_log : list log_record; m_res : result A }.
Arguments mkM {A} m_log m_res.
Arguments m_log {A} m.
Arguments m_res {A} m.

Global Instance M_ret : MRet M := λ A a, mkM [] (Ok a).
Global Instance M_bind : MBind M := λ A B f m,
  match m_res m with
  | Ok a => mkM (m_log m ++ m_log (f a)) (m_res (f a))
  | Raise e => mkM (m_log m) (Raise e)
  end.
Definition mlift {A} (r : result A) : M A := mkM [] r.
Definition mlog (r : log_record) : M unit := mkM [r] (Ok ()).

(** [for x in l: s = f s x] in each of the two monads. *)
Fixpoint for_each {S A : Type} (f : S → A → result S) (l : list A) (s : S)
    : result S :=
  match l with
  | [] => Ok s
  | x :: l' => s' ← f s x; for_each f l' s'
  end.

Fixpoint for_each_M {S A : Type} (f : S → A → M S) (l : list A) (s : S)
    : M S :=
  match l with
  | [] => mret s
  | x :: l' => s' ← f s x; for_each_M f l' s'
  end.

(** ** Strings *)

(** [str.isspace] on ASCII: TAB, LF, VT, FF, CR, the separators FS, GS, RS, US
    and the space. *)
Definition is_space (c : ascii) : bool :=
  let n := nat_of_ascii c in
  ((9 <=? n) && (n <=? 13)) || ((28 <=? n) && (n <=? 32)).

Fixpoint lstrip (s : string) : string :=
  match s with
  | String c s' => if is_space c then lstrip s' else s
  | EmptyString => EmptyString
  end.

Definition rstrip (s : string) : string := String.rev (lstrip (String.rev s)).

(** [s.strip()] *)
Definition strip (s : string) : string := rstrip (lstrip s).

(** [s.split()]: the maximal runs of non-space characters. [cur] is the run
    being read, in reverse. *)
Fixpoint split_go (s : string) (cur : string) : list string :=
  match s with
  | EmptyString =>
      match cur with EmptyString => [] | _ => [String.rev cur] end
  | String c s' =>
      if is_space c then
        match cur with
        | EmptyString => split_go s' EmptyString
        | _ => String.rev cur :: split_go s' EmptyString
        end
      else split_go s' (String c cur)
  end.
Definition split (s : string) : list string := split_go s EmptyString.

(** [str(n)] for an [int]. *)
Definition str_of_Z (z : Z) : string := NilZero.string_of_int (Z.to_int z).
Definition str_of_nat (n : nat) : string := NilZero.string_of_uint (Nat.to_uint n).

(** [str(class_id)], where [class_id] may be [None]. *)
Definition str_of_class_id (c : option Z) : string :=
  match c with Some z => str_of_Z z | None => "None" end.

(** [f"{n:04d}"] for [n >= 0]: decimal, padded with zeros to four places. *)
Definition fmt_04d (n : nat) : string :=
  let s := str_of_nat n in
  string_of_list_ascii (replicate (4 - String.length s) "0"%char) +:+ s.

(** [sep.join(l)] *)
Fixpoint join (sep : string) (l : list string) : string :=
  match l with
  | [] => EmptyString
  | [x] => x
  | x :: l' => x +:+ sep +:+ join sep l'
  end.

(** [s.lower()] on ASCII. *)
Definition lower_char (c : ascii) : ascii :=
  let n := nat_of_ascii c in
  if (65 <=? n) && (n <=? 90) then ascii_of_nat (n + 32) else c.
Fixpoint lower (s : string) : string :=
  match s with
  | EmptyString => EmptyString
  | String c s' => String (lower_char c) (lower s')
  end.

(** [s.replace(old, "")] for a non-empty [old]: the occurrences of [old] are
    removed from left to right. *)
Fixpoint remove_all (old s : string) (fuel : nat) : string :=
  match fuel with
  | O => s
  | S fuel' =>
      match s with
      | EmptyString => EmptyString
      | String c s' =>
          if String.prefix old s
          then remove_all old (String.substring (String.length old)
                                 (String.length s - String.length old) s) fuel'
          else String c (remove_all old s' fuel')
      end
  end.

(** ** The collaborators that are not code of the repository *)

(** The builtins [int(str)], [float(str)], [float * int] and [int(float)].
    [int] and [float] raise [ValueError] on a token they do not accept;
    [int(float)] raises on [nan] and the infinities. *)
Class PyBuiltins : Type := {
  pyfloat : Type;
  py_int : string → result Z;
  py_float : string → result pyfloat;
  float_mul_int : pyfloat → Z → pyfloat;
  int_of_float : pyfloat → result Z;
}.

(** shapely: [Polygon(points)], [.is_valid], [.intersection(other)], [.area].
    Constructing a polygon and intersecting may raise. *)
Class Shapely : Type := {
  geom : Type;
  Polygon : list (Z * Z) → result geom;
  is_valid : geom → bool;
  intersection : geom → geom → result geom;
  area : geom → Q;
}.

(** [datetime.now().isoformat()] at its [k]-th call, and
    [uuid.uuid4().hex[:8]] for the call made when the document has [k]
    elements. *)
Class PyEnv : Type := {
  now_isoformat : nat → string;
  uuid4_hex8 : nat → string;
}.

(** ** Numbers *)

Definition Qltb (a b : Q) : bool := negb (Qle_bool b a).

(** A polygon area or [float('inf')]. *)
Inductive farea : Type :=
  | Finite (q : Q)
  | Infinity.

Definition farea_ltb (a b : farea) : bool :=
  match a, b with
  | Finite x, Finite y => Qltb x y
  | Finite _, Infinity => true
  | Infinity, _ => false
  end.

(** ** ElementTree *)

Record element : Type := mkElement {
  tag : string;
  attrib : gmap string string;
  text : option string;
  children : list nat;
}.

Global Instance element_inhabited : Inhabited element :=
  populate (mkElement EmptyString ∅ None []).

(** The document: element [h] is [t !! h]. *)
Abbreviation etree := (list element).

Definition new_element (tg : string) : element := mkElement tg ∅ None [].

Definition add_child (c : nat) (e : element) : element :=
  mkElement (tag e) (attrib e) (text e) (children e ++ [c]).
Definition put_attrib (k v : string) (e : element) : element :=
  mkElement (tag e) (<[k := v]> (attrib e)) (text e) (children e).
Definition put_text (s : string) (e : element) : element :=
  mkElement (tag e) (attrib e) (Some s) (children e).

(** [ET.SubElement(parent, tg)]: the new element and the document after
    it was appended to the children of [parent]. *)
Definition SubElement (t : etree) (parent : nat) (tg : string) : etree * nat :=
  (alter (add_child (length t)) parent t ++ [new_element tg], length t).

(** [e.set(k, v)] and [e.text = s] *)
Definition set_attrib (t : etree) (e : nat) (k v : string) : etree :=
  alter (put_attrib k v) e t.
Definition set_text (t : etree) (e : nat) (s : string) : etree :=
  alter (put_text s) e t.

(** The truth value of an element object: it has children. *)
Definition element_truthy (t : etree) (e : nat) : bool :=
  match children (t !!! e) with [] => false | _ => true end.

(** Truth value of an [Optional[Element]] and of an [Optional[str]]. *)
Definition opt_element_truthy (t : etree) (o : option nat) : bool :=
  match o with Some e => element_truthy t e | None => false end.
Definition opt_str_truthy (o : option string) : bool :=
  match o with Some (String _ _) => true | _ => false end.

(** ** The converter *)

Record line_info : Type := mkLineInfo {
  li_points : list (Z * Z);
  li_id : string;
  li_config : gmap string string;
}.

Record region_info : Type := mkRegionInfo {
  ri_points : list (Z * Z);
  ri_id : string;
  ri_type : option string;
  ri_config : gmap string string;
  ri_element : option nat;
}.

Global Instance region_info_inhabited : Inhabited region_info :=
  populate (mkRegionInfo [] EmptyString None ∅ None).

(** [region_info['element'] = e] *)
Definition set_ri_element (e : nat) (i : region_info) : region_info :=
  mkRegionInfo (ri_points i) (ri_id i) (ri_type i) (ri_config i) (Some e).

(** The local variables of [convert_page] that the passes update: the
    document, the heap of [region_info] dicts, and the lists (of references
    into the heap, for the regions). *)
Record pass_state : Type := mkState {
  tree : etree;
  heap : list region_info;
  parent_text_regions : list nat;
  child_text_regions : list nat;
  text_lines : list line_info;
  all_text_regions : list nat;
}.

Definition PAGE_NS : string :=
  "http://schema.primaresearch.org/PAGE/gts/pagecontent/2019-07-15".

Definition T_region : Q := 5 # 10.
Definition min_overlap_threshold : Q := 1 # 10.

Definition opaque_region_types : list string :=
  ["TableRegion"; "ImageRegion"; "GraphicRegion"; "SeparatorRegion";
   "NoiseRegion"]%string.

(** The mapping used when no mapping file is given. *)
Definition create_default_mapping : gmap string (gmap string string) :=
  {[ "0"%string :=
       {[ "element"%string := "TextLine"%string;
          "parent"%string := "TextRegion"%string;
          "parent_type"%string := "paragraph"%string ]} ]}.

(** [range(start, stop, step)] for [step > 0]. *)
Definition range (start stop step : nat) : list nat :=
  (λ k, start + k * step) <$> seq 0 ((stop - start + (step - 1)) / step).

Section Converter.
Context {builtins : PyBuiltins} {shapely : Shapely} {env : PyEnv}.

(** The configuration of the instance: [self.mapping], keyed by the class
    id as a string, each entry a dict of strings. *)
Variable mapping : gmap string (gmap string string).

Definition _parse_yolo_label (label_line : string)
    : result (option Z * list (pyfloat * pyfloat)) :=
  let parts := split (strip label_line) in
  if length parts <? 7 then Ok (None, [])
  else
    class_id ← py_int (parts !!! 0);
    points ← for_each (λ points i,
                if i + 1 <? length parts then
                  x ← py_float (parts !!! i);
                  y ← py_float (parts !!! (i + 1));
                  mret (points ++ [(x, y)])
                else mret points)
              (range 1 (length parts) 2) [];
    mret (Some class_id, points).

Definition _denormalize_points (points : list (pyfloat * pyfloat))
    (img_width img_height : Z) : result (list (Z * Z)) :=
  for_each (λ denormalized '(x, y),
      abs_x ← int_of_float (float_mul_int x img_width);
      abs_y ← int_of_float (float_mul_int y img_height);
      mret (denormalized ++ [(abs_x, abs_y)]))
    points [].

Definition _points_to_string (points : list (Z * Z)) : string :=
  join " " ((λ '(x, y), str_of_Z x +:+ "," +:+ str_of_Z y) <$> points).

(** The [try] block of the two scores: both polygons are built, checked and
    intersected; any exception is the [Raise] case. *)
Definition valid_intersection (p1 p2 : list (Z * Z))
    : result (option (geom * geom)) :=
  poly1 ← Polygon p1;
  poly2 ← Polygon p2;
  if negb (is_valid poly1) || negb (is_valid poly2) then mret None
  else
    i ← intersection poly1 poly2;
    mret (Some (poly1, i)).

Definition _calculate_polygon_overlap (poly1_points poly2_points : list (Z * Z))
    : Q :=
  match valid_intersection poly1_points poly2_points with
  | Ok None => 0
  | Ok (Some (_, i)) => area i
  | Raise _ => 0
  end.

Definition _calculate_containment_score (child_points parent_points : list (Z * Z))
    : Q :=
  match valid_intersection child_points parent_points with
  | Ok None => 0
  | Ok (Some (child_poly, i)) =>
      if Qltb 0 (area child_poly) then area i / area child_poly else 0
  | Raise _ => 0
  end.

(** The loop of [_find_best_parent]: the state is
    [(best_parent, best_score)]. *)
Definition best_parent_loop (child_points : list (Z * Z))
    (potential_parents : list region_info) (init : option nat * Q)
    : option nat * Q :=
  fold_left (λ '(best_parent, best_score) parent_info,
      let parent_element := ri_element parent_info in
      let parent_points := ri_points parent_info in
      let score := _calculate_containment_score child_points parent_points in
      if Qltb best_score score then (parent_element, score)
      else (best_parent, best_score))
    potential_parents init.

Definition _find_best_parent (t : etree) (child_points : list (Z * Z))
    (potential_parents : list region_info) (threshold : Q) : option nat :=
  let '(best_parent, best_score) :=
    best_parent_loop child_points potential_parents (None, threshold) in
  if opt_element_truthy t best_parent && Qltb threshold best_score
  then best_parent else None.

Definition _create_page_element (img_name : string) (img_width img_height : Z)
    : etree * nat * nat :=
  let t := [new_element "PcGts"] in
  let root := 0 in
  let t := set_attrib t root "xmlns" PAGE_NS in
  let t := set_attrib t root "xmlns:xsi"
             "http://www.w3.org/2001/XMLSchema-instance" in
  let t := set_attrib t root "xsi:schemaLocation"
             (PAGE_NS +:+ " http://schema.primaresearch.org/PAGE/gts/pagecontent/2019-07-15/pagecontent.xsd") in
  let '(t, metadata) := SubElement t root "Metadata" in
  let '(t, creator) := SubElement t metadata "Creator" in
  let t := set_text t creator "YoloPageConverter" in
  let '(t, created) := SubElement t metadata "Created" in
  let t := set_text t created (now_isoformat 0) in
  let '(t, last_change) := SubElement t metadata "LastChange" in
  let t := set_text t last_change (now_isoformat 1) in
  let '(t, page) := SubElement t root "Page" in
  let t := set_attrib t page "imageFilename" img_name in
  let t := set_attrib t page "imageWidth" (str_of_Z img_width) in
  let t := set_attrib t page "imageHeight" (str_of_Z img_height) in
  (t, root, page).

Definition _add_region (t : etree) (parent : nat) (element_type : string)
    (points : list (Z * Z)) (region_id : option string)
    (region_type : option string) : etree * nat :=
  let region_id :=
    match region_id with
    | Some i => i
    | None =>
        let prefix :=
          lower (remove_all "Region" element_type (String.length element_type)) in
        prefix +:+ "_" +:+ uuid4_hex8 (length t)
    end in
  let '(t, region) := SubElement t parent element_type in
  let t := set_attrib t region "id" region_id in
  let t :=
    if opt_str_truthy region_type && String.eqb element_type "TextRegion"
    then set_attrib t region "type" (default EmptyString region_type)
    else t in
  let '(t, coords) := SubElement t region "Coords" in
  let t := set_attrib t coords "points" (_points_to_string points) in
  (t, region).

Definition _add_text_line (t : etree) (parent : nat) (points : list (Z * Z))
    (line_id : option string) : etree * nat :=
  let line_id :=
    match line_id with
    | Some i => i
    | None => "line_" +:+ uuid4_hex8 (length t)
    end in
  let '(t, text_line) := SubElement t parent "TextLine" in
  let t := set_attrib t text_line "id" line_id in
  let '(t, coords) := SubElement t text_line "Coords" in
  let t := set_attrib t coords "points" (_points_to_string points) in
  (t, text_line).

(** *** [convert_page] *)

Definition with_tree (t : etree) (st : pass_state) : pass_state :=
  mkState t (heap st) (parent_text_regions st) (child_text_regions st)
    (text_lines st) (all_text_regions st).

(** [enumerate(lines)], counting from [i]. *)
Fixpoint enumerate_from {A : Type} (i : nat) (l : list A) : list (nat * A) :=
  match l with
  | [] => []
  | x :: l' => (i, x) :: enumerate_from (S i) l'
  end.

(** First pass, the body of the loop: parse and categorise one line. *)
Definition first_pass_step (page : nat) (img_width img_height : Z)
    (st : pass_state) (il : nat * string) : M pass_state :=
  let '(idx, line) := il in
  match strip line with
  | EmptyString => mret st
  | _ =>
    '(class_id, norm_points) ← mlift (_parse_yolo_label line);
    match norm_points with
    | [] => mret st
    | _ =>
      abs_points ← mlift (_denormalize_points norm_points img_width img_height);
      let class_id_str := str_of_class_id class_id in
      let element_config := default ∅ (mapping !! class_id_str) in
      if decide (element_config = ∅) then
        mlog (Warn_no_mapping class_id);; mret st
      else
        let element_type := default "TextLine"%string (element_config !! "element") in
        if String.eqb element_type "TextLine" then
          mret (mkState (tree st) (heap st) (parent_text_regions st)
                  (child_text_regions st)
                  (text_lines st ++
                     [mkLineInfo abs_points ("l" +:+ fmt_04d idx) element_config])
                  (all_text_regions st))
        else if String.eqb element_type "TextRegion" then
          let region_info :=
            mkRegionInfo abs_points ("r" +:+ fmt_04d idx)
              (element_config !! "type") element_config None in
          let ref := length (heap st) in
          let parent_setting := default EmptyString (element_config !! "parent") in
          if String.eqb parent_setting "TextRegion" then
            mret (mkState (tree st) (heap st ++ [region_info])
                    (parent_text_regions st) (child_text_regions st ++ [ref])
                    (text_lines st) (all_text_regions st))
          else
            mret (mkState (tree st) (heap st ++ [region_info])
                    (parent_text_regions st ++ [ref]) (child_text_regions st)
                    (text_lines st) (all_text_regions st))
        else if bool_decide (element_type ∈ opaque_region_types) then
          mret (with_tree
                  (_add_region (tree st) page element_type abs_points
                     (Some ("r" +:+ fmt_04d idx)) None).1 st)
        else mret st
    end
  end.

(** Second pass, the body of the loop: one top-level TextRegion. *)
Definition second_pass_step (page : nat) (st : pass_state) (r : nat)
    : pass_state :=
  let region_info := heap st !!! r in
  let '(t, region_element) :=
    _add_region (tree st) page "TextRegion" (ri_points region_info)
      (Some (ri_id region_info)) (ri_type region_info) in
  mkState t (alter (set_ri_element region_element) r (heap st))
    (parent_text_regions st) (child_text_regions st) (text_lines st)
    (all_text_regions st ++ [r]).

Definition second_pass (page : nat) (st : pass_state) : M pass_state :=
  mlog (Info_parent_regions (length (parent_text_regions st)));;
  mret (fold_left (second_pass_step page) (parent_text_regions st) st).

(** Third pass, the body of the loop: one child TextRegion. The second
    component is [orphan_child_regions]. *)
Definition third_pass_step (page : nat) (acc : pass_state * list string)
    (c : nat) : pass_state * list string :=
  let '(st, orphan_child_regions) := acc in
  let child_info := heap st !!! c in
  let best_parent :=
    _find_best_parent (tree st) (ri_points child_info)
      ((heap st !!!.) <$> parent_text_regions st) T_region in
  match best_parent with
  | Some best_parent =>
      let '(t, child_element) :=
        _add_region (tree st) best_parent "TextRegion" (ri_points child_info)
          (Some (ri_id child_info)) (ri_type child_info) in
      (mkState t (alter (set_ri_element child_element) c (heap st))
         (parent_text_regions st) (child_text_regions st) (text_lines st)
         (all_text_regions st ++ [c]),
       orphan_child_regions)
  | None =>
      let '(t, child_element) :=
        _add_region (tree st) page "TextRegion" (ri_points child_info)
          (Some (ri_id child_info)) (ri_type child_info) in
      (mkState t (alter (set_ri_element child_element) c (heap st))
         (parent_text_regions st) (child_text_regions st) (text_lines st)
         (all_text_regions st ++ [c]),
       orphan_child_regions ++ [ri_id child_info])
  end.

Definition third_pass (page : nat) (st : pass_state) : M pass_state :=
  mlog (Info_child_regions (length (child_text_regions st)));;
  let '(st, orphan_child_regions) :=
    fold_left (third_pass_step page) (child_text_regions st) (st, []) in
  match orphan_child_regions with
  | [] => mret st
  | _ => mlog (Info_orphan_children (length orphan_child_regions));; mret st
  end.

(** [line_area] and [region_area] of the fourth pass. *)
Definition line_area_of (line_points : list (Z * Z)) : Q :=
  match Polygon line_points with
  | Ok line_poly => if is_valid line_poly then area line_poly else 0
  | Raise _ => 0
  end.

Definition region_area_of (region_points : list (Z * Z)) : farea :=
  match Polygon region_points with
  | Ok region_poly =>
      if is_valid region_poly then Finite (area region_poly) else Infinity
  | Raise _ => Infinity
  end.

(** Fourth pass, the inner loop over [all_text_regions]: the state is
    [(best_region, best_region_area)]. *)
Definition best_region_loop (line_points : list (Z * Z)) (line_area : Q)
    (regions : list region_info) (init : option nat * farea)
    : option nat * farea :=
  fold_left (λ '(best_region, best_region_area) region_info,
      match ri_element region_info with
      | None => (best_region, best_region_area)
      | Some _ =>
          let overlap :=
            _calculate_polygon_overlap line_points (ri_points region_info) in
          if Qltb 0 line_area
             && Qltb (line_area * min_overlap_threshold) overlap
          then
            let region_area := region_area_of (ri_points region_info) in
            if farea_ltb region_area best_region_area
            then (ri_element region_info, region_area)
            else (best_region, best_region_area)
          else (best_region, best_region_area)
      end)
    regions init.

Definition find_best_region (line_points : list (Z * Z))
    (regions : list region_info) : option nat :=
  (best_region_loop line_points (line_area_of line_points) regions
     (None, Infinity)).1.

(** Fourth pass, the body of the outer loop: one TextLine. The second
    component is [orphan_line_counter]. *)
Definition fourth_pass_step (page : nat) (acc : pass_state * nat)
    (line_info : line_info) : pass_state * nat :=
  let '(st, orphan_line_counter) := acc in
  let line_points := li_points line_info in
  let line_id := li_id line_info in
  let best_region :=
    find_best_region line_points ((heap st !!!.) <$> all_text_regions st) in
  match best_region with
  | Some best_region =>
      (with_tree
         (_add_text_line (tree st) best_region line_points (Some line_id)).1 st,
       orphan_line_counter)
  | None =>
      let parent_type :=
        default "paragraph"%string (li_config line_info !! "parent_type") in
      let '(t, new_region) :=
        _add_region (tree st) page "TextRegion" line_points
          (Some ("r_orphan" +:+ fmt_04d orphan_line_counter))
          (Some parent_type) in
      (with_tree (_add_text_line t new_region line_points (Some line_id)).1 st,
       S orphan_line_counter)
  end.

Definition fourth_pass (page : nat) (st : pass_state) : M pass_state :=
  mlog (Info_text_lines (length (text_lines st)));;
  let '(st, orphan_line_counter) :=
    fold_left (fourth_pass_step page) (text_lines st) (st, 0) in
  match text_lines st with
  | [] => mret st
  | _ =>
      mlog (Info_assignment (length (text_lines st) - orphan_line_counter)
              orphan_line_counter);;
      mret st
  end.

(** [convert_page]: the label file ([None] when it does not exist, else its
    lines) and the image ([None] when it does not exist, else its name,
    width and height); the result is the document, whose root is element
    [0]. Serialising it is not part of the model. *)
Definition convert_page (label_file : option (list string))
    (image_file : option (string * Z * Z)) : M etree :=
  match label_file, image_file with
  | None, _ => mlift (Raise FileNotFoundError)
  | Some _, None => mlift (Raise FileNotFoundError)
  | Some lines, Some (img_name, img_width, img_height) =>
      let '(t, root, page) :=
        _create_page_element img_name img_width img_height in
      st ← for_each_M (first_pass_step page img_width img_height)
             (enumerate_from 0 lines) (mkState t [] [] [] [] []);
      st ← second_pass page st;
      st ← third_pass page st;
      st ← fourth_pass page st;
      mret (tree st)
  end.

End Converter.

Arguments first_pass_step : simpl never.
Arguments second_pass_step : simpl never.
Arguments third_pass_step : simpl never.
Arguments fourth_pass_step : simpl never.
Arguments _create_page_element : simpl never.
Arguments _add_region : simpl never.
Arguments _add_text_line : simpl never.
Arguments _find_best_parent : simpl never.
Arguments find_best_region : simpl never.

(** ** [convert_folder] *)

(** The records [convert_folder] hands to the logger, with those of the
    [convert_page] calls it makes. *)
Inductive batch_record : Type :=
  | Page_record (r : log_record)
  | Info_created (output_path : string)
      (* info: "Created PAGE-XML: {output_path}" *)
  | Warn_no_txt_files
      (* warning: "No txt files found in {labels_folder}" *)
  | Info_found (n : nat)
      (* info: "Found {n} txt files to convert" *)
  | Warn_no_image (name : string)
      (* warning: "No image found for label: {name}" *)
  | Error_failed (name : string) (e : pyexn)
      (* error: "Failed to convert {name}: {e}" *)
  | Info_complete (converted failed : nat).
      (* info: "Conversion complete: {converted} successful, {failed} failed" *)

(** The counters of the batch loop, the files written to the output folder
    (name and document, in the order they were written) and the log. *)
Record batch : Type := mkBatch {
  converted : nat;
  failed : nat;
  written : list (string * etree);
  batch_log : list batch_record;
}.

(** The extensions tried for the image of a label file, in this order. *)
Definition image_extensions : list string :=
  [".jpg"; ".jpeg"; ".png"; ".tif"; ".tiff"; ".bmp"; ".webp"]%string.

(** The search for the image of a label file: the first extension for which
    the images folder has a file named [stem + ext]. *)
Fixpoint find_image (images : gmap string (Z * Z)) (stem : string)
    (exts : list string) : option string :=
  match exts with
  | [] => None
  | ext :: exts' =>
      if decide (is_Some (images !! (stem +:+ ext))) then Some (stem +:+ ext)
      else find_image images stem exts'
  end.

Section Batch.
Context {builtins : PyBuiltins} {shapely : Shapely} {env : PyEnv}.
Variable mapping : gmap string (gmap string string).

(** The body of the loop over the label files: [txt_file] is the stem of
    the file name and the lines of the file. *)
Definition convert_folder_step (images : gmap string (Z * Z)) (b : batch)
    (txt_file : string * list string) : batch :=
  let '(stem, lines) := txt_file in
  match find_image images stem image_extensions with
  | None =>
      mkBatch (converted b) (S (failed b)) (written b)
        (batch_log b ++ [Warn_no_image (stem +:+ ".txt")])
  | Some img_name =>
      let output_path := stem +:+ ".xml" in
      let m :=
        convert_page mapping (Some lines)
          ((λ '(w, h), (img_name, w, h)) <$> images !! img_name) in
      match m_res m with
      | Ok t =>
          mkBatch (S (converted b)) (failed b)
            (written b ++ [(output_path, t)])
            (batch_log b ++ (Page_record <$> m_log m)
             ++ [Info_created output_path])
      | Raise e =>
          mkBatch (converted b) (S (failed b)) (written b)
            (batch_log b ++ (Page_record <$> m_log m)
             ++ [Error_failed (stem +:+ ".txt") e])
      end
  end.

(** [convert_folder]: the labels folder ([None] when it does not exist, else
    its [*.txt] files in the order [glob] lists them) and the images folder
    ([None] when it does not exist, else its image files by name, with
    their sizes). *)
Definition convert_folder (labels_folder : option (list (string * list string)))
    (images_folder : option (gmap string (Z * Z))) : result batch :=
  match labels_folder, images_folder with
  | None, _ => Raise FileNotFoundError
  | Some _, None => Raise FileNotFoundError
  | Some txt_files, Some images =>
      match txt_files with
      | [] => Ok (mkBatch 0 0 [] [Warn_no_txt_files])
      | _ =>
          let b :=
            fold_left (convert_folder_step images) txt_files
              (mkBatch 0 0 [] [Info_found (length txt_files)]) in
          Ok (mkBatch (converted b) (failed b) (written b)
                (batch_log b ++ [Info_complete (converted b) (failed b)]))
      end
  end.

End Batch.

(** ** Reference instances of the collaborators

    Small executable stand-ins on which the converter can be run: decimal
    literals for the builtins, axis-parallel rectangles for the geometry
    library. On the inputs they accept they compute what Python and shapely
    compute; they are used for the concrete runs below only. *)

Module Reference.

Definition digit_of (c : ascii) : option Z :=
  let n := nat_of_ascii c in
  if (48 <=? n) && (n <=? 57) then Some (Z.of_nat (n - 48)) else None.

(** The value of a run of digits read after [acc], and their number. *)
Fixpoint digits (s : string) (acc : Z) (n : nat) : option (Z * nat) :=
  match s with
  | EmptyString => Some (acc, n)
  | String c s' =>
      match digit_of c with
      | Some d => digits s' (10 * acc + d)%Z (S n)
      | None => None
      end
  end.

Definition unsigned_int (s : string) : option Z :=
  match digits s 0%Z 0 with
  | Some (v, S _) => Some v
  | _ => None
  end.

(** [int(s)] on [[+-]digits]. *)
Definition int_literal (s : string) : result Z :=
  let '(neg, body) :=
    match s with
    | String "-"%char s' => (true, s')
    | String "+"%char s' => (false, s')
    | _ => (false, s)
    end in
  match unsigned_int body with
  | Some v => Ok (if neg then (- v)%Z else v)
  | None => Raise ValueError
  end.

(** The text before and after the first ["."]. *)
Fixpoint cut_at_dot (s : string) : string * option string :=
  match s with
  | EmptyString => (EmptyString, None)
  | String "."%char s' => (EmptyString, Some s')
  | String c s' => let '(a, b) := cut_at_dot s' in (String c a, b)
  end.

(** [float(s)] on [[+-]digits[.digits]], with at least one digit. *)
Definition float_literal (s : string) : result Q :=
  let '(neg, body) :=
    match s with
    | String "-"%char s' => (true, s')
    | String "+"%char s' => (false, s')
    | _ => (false, s)
    end in
  let '(ip, fp) := cut_at_dot body in
  match digits ip 0%Z 0, digits (default EmptyString fp) 0%Z 0 with
  | Some (i, ni), Some (f, nf) =>
      match ni + nf with
      | O => Raise ValueError
      | _ =>
          let q := ((i * 10 ^ Z.of_nat nf + f)%Z # Pos.of_nat (10 ^ nf)) in
          Ok (if neg then Qopp q else q)
      end
  | _, _ => Raise ValueError
  end.

(** [int(x)]: truncation towards zero. *)
Definition trunc (q : Q) : result Z := Ok (Z.quot (Qnum q) (Z.pos (Qden q))).

Definition builtins : PyBuiltins := {|
  pyfloat := Q;
  py_int := int_literal;
  py_float := float_literal;
  float_mul_int := λ x n, Qmult x (inject_Z n);
  int_of_float := trunc;
|}.

(** Rectangles with sides parallel to the axes; any other ring of three or
    more points is reported invalid. *)
Inductive rgeom : Type :=
  | Rect (x0 y0 x1 y1 : Z)
  | EmptyGeom
  | NotValid.

Definition rect_polygon (pts : list (Z * Z)) : result rgeom :=
  match pts with
  | [] | [_] | [_; _] => Raise ValueError
  | [(a, b); (c, d); (e, f); (g, h)] =>
      if ((a <? c) && (b <? f) && (d =? b) && (e =? c) && (g =? a) && (h =? f))%Z
      then Ok (Rect a b c f) else Ok NotValid
  | _ => Ok NotValid
  end.

Definition rect_valid (g : rgeom) : bool :=
  match g with NotValid => false | _ => true end.

Definition rect_intersection (g1 g2 : rgeom) : result rgeom :=
  match g1, g2 with
  | Rect a b c d, Rect a' b' c' d' =>
      let x0 := Z.max a a' in let y0 := Z.max b b' in
      let x1 := Z.min c c' in let y1 := Z.min d d' in
      if ((x0 <? x1) && (y0 <? y1))%Z then Ok (Rect x0 y0 x1 y1)
      else Ok EmptyGeom
  | NotValid, _ | _, NotValid => Raise GeometryError
  | _, _ => Ok EmptyGeom
  end.

Definition rect_area (g : rgeom) : Q :=
  match g with
  | Rect a b c d => inject_Z (Z.max 0 (c - a) * Z.max 0 (d - b))
  | _ => 0
  end.

Definition rectangles : Shapely := {|
  geom := rgeom;
  Polygon := rect_polygon;
  is_valid := rect_valid;
  intersection := rect_intersection;
  area := rect_area;
|}.

Definition env : PyEnv := {|
  now_isoformat := λ _, "2024-01-01T00:00:00"%string;
  uuid4_hex8 := λ _, "00000000"%string;
|}.

End Reference.

(** ** Vocabulary of the specification *)

Section Vocabulary.
Context {builtins : PyBuiltins} {shapely : Shapely} {env : PyEnv}.

(** A point list is a valid polygon when shapely builds it and reports it
    valid. *)
Definition valid_polygon (pts : list (Z * Z)) : bool :=
  match Polygon pts with Ok g => is_valid g | Raise _ => false end.

(** Its area (0 when it cannot be built). *)
Definition polygon_area (pts : list (Z * Z)) : Q :=
  match Polygon pts with Ok g => area g | Raise _ => 0 end.

(** The pattern of the two selection loops: keep the first element whose
    key is strictly better than the best key seen so far. *)
Definition first_best {A V K : Type} (better : K → K → bool)
    (key : A → K) (val : A → V) (l : list A) (init : V * K) : V * K :=
  fold_left (λ '(b, k) x, if better (key x) k then (val x, key x) else (b, k))
    l init.

(** Fourth pass: a materialised region is a qualifying candidate for a leaf
    when its overlap with the leaf exceeds [min_overlap_threshold] times the
    area of the leaf. *)
Definition qualifies (line_points : list (Z * Z)) (ri : region_info) : bool :=
  bool_decide (is_Some (ri_element ri))
  && Qltb (polygon_area line_points * min_overlap_threshold)
       (_calculate_polygon_overlap line_points (ri_points ri)).

(** The elements [_add_region] and [_add_text_line] create, once their
    attributes and their Coords child (element [S n]) are set; [n] is the
    handle of the new element. *)
Definition region_attrib (element_type region_id : string)
    (region_type : option string) : gmap string string :=
  if opt_str_truthy region_type && String.eqb element_type "TextRegion"
  then <["type"%string := default EmptyString region_type]>
         {[ "id"%string := region_id ]}
  else {[ "id"%string := region_id ]}.

Definition region_element (element_type region_id : string)
    (region_type : option string) (n : nat) : element :=
  mkElement element_type (region_attrib element_type region_id region_type)
    None [S n].

Definition line_element (line_id : string) (n : nat) : element :=
  mkElement "TextLine" {[ "id"%string := line_id ]} None [S n].

Definition coords_element (points : list (Z * Z)) : element :=
  mkElement "Coords" {[ "points"%string := _points_to_string points ]} None [].

(** The candidates of the fourth pass in state [st]. *)
Definition candidates (st : pass_state) : list region_info :=
  (heap st !!!.) <$> all_text_regions st.

(** The document after the orphan branch of the fourth pass ran for
    [line_info] on document [t]: a TextRegion appended to the children of
    [page], holding its Coords and the TextLine of the leaf. *)
Definition with_orphan_region (page : nat) (t : etree) (counter : nat)
    (li : line_info) : etree :=
  let n := length t in
  alter (add_child n) page t ++
  [ mkElement "TextRegion"
      (region_attrib "TextRegion" ("r_orphan" +:+ fmt_04d counter)
         (Some (default "paragraph"%string (li_config li !! "parent_type"))))
      None [S n; S (S n)];
    coords_element (li_points li);
    line_element (li_id li) (S (S n));
    coords_element (li_points li) ].

(** The document after the leaf was given to the existing element [r]. *)
Definition with_line_in (r : nat) (t : etree) (li : line_info) : etree :=
  let n := length t in
  alter (add_child n) r t ++
  [ line_element (li_id li) n; coords_element (li_points li) ].

(** The test the inner loop of the fourth pass applies to a region. *)
Definition loop_accepts (line_points : list (Z * Z)) (ri : region_info) : bool :=
  bool_decide (is_Some (ri_element ri))
  && (Qltb 0 (line_area_of line_points)
      && Qltb (line_area_of line_points * min_overlap_threshold)
           (_calculate_polygon_overlap line_points (ri_points ri))).

(** Every element handle held by the regions is below [n]. *)
Definition handles_below (n : nat) (regions : list region_info) : Prop :=
  ∀ ri e, ri ∈ regions → ri_element ri = Some e → e < n.

(** The state after the region with reference [c] was created as a child of
    element [parent]: its element and Coords are appended to the document,
    the element is recorded in its [region_info], and the region joins
    [all_text_regions]. *)
Definition attach_region (parent c : nat) (st : pass_state) : pass_state :=
  let ri := heap st !!! c in
  let n := length (tree st) in
  mkState
    (alter (add_child n) parent (tree st) ++
       [region_element "TextRegion" (ri_id ri) (ri_type ri) n;
        coords_element (ri_points ri)])
    (alter (set_ri_element n) c (heap st))
    (parent_text_regions st) (child_text_regions st) (text_lines st)
    (all_text_regions st ++ [c]).

(** The potential parents of the third pass in state [st]. *)
Definition potential_parents (st : pass_state) : list region_info :=
  (heap st !!!.) <$> parent_text_regions st.

(** Every region has an element, and that element has children. *)
Definition materialised (t : etree) (regions : list region_info) : Prop :=
  ∀ ri, ri ∈ regions → ∃ e, ri_element ri = Some e ∧ element_truthy t e = true.

Definition with_lines (ls : list line_info) (st : pass_state) : pass_state :=
  mkState (tree st) (heap st) (parent_text_regions st) (child_text_regions st)
    ls (all_text_regions st).

(** First pass, what the loop body does with a parsed and denormalised
    record: the part of [first_pass_step] after [_denormalize_points], with
    [_add_region] in closed form. *)
Definition store_record (mapping : gmap string (gmap string string))
    (page : nat) (st : pass_state) (idx : nat) (class_id : option Z)
    (abs_points : list (Z * Z)) : M pass_state :=
  let element_config := default ∅ (mapping !! str_of_class_id class_id) in
  if decide (element_config = ∅) then mkM [Warn_no_mapping class_id] (Ok st)
  else
    let element_type := default "TextLine"%string (element_config !! "element") in
    if String.eqb element_type "TextLine" then
      mret (with_lines
              (text_lines st ++
                 [mkLineInfo abs_points ("l" +:+ fmt_04d idx) element_config]) st)
    else if String.eqb element_type "TextRegion" then
      let region_info :=
        mkRegionInfo abs_points ("r" +:+ fmt_04d idx)
          (element_config !! "type") element_config None in
      if String.eqb (default EmptyString (element_config !! "parent")) "TextRegion"
      then
        mret (mkState (tree st) (heap st ++ [region_info])
                (parent_text_regions st)
                (child_text_regions st ++ [length (heap st)])
                (text_lines st) (all_text_regions st))
      else
        mret (mkState (tree st) (heap st ++ [region_info])
                (parent_text_regions st ++ [length (heap st)])
                (child_text_regions st)
                (text_lines st) (all_text_regions st))
    else if bool_decide (element_type ∈ opaque_region_types) then
      mret (with_tree
              (alter (add_child (length (tree st))) page (tree st) ++
                 [region_element element_type ("r" +:+ fmt_04d idx) None
                    (length (tree st));
                  coords_element abs_points]) st)
    else mret st.

(** Two leaves that the fourth pass cannot tell apart. *)
Definition same_leaf (a b : line_info) : Prop :=
  li_points a = li_points b ∧ li_id a = li_id b ∧
  li_config a !! "parent_type"%string = li_config b !! "parent_type"%string.

(** Two states that differ at most in the configurations kept with the
    leaves, and there not in [parent_type]. *)
Definition same_leaves (s s' : pass_state) : Prop :=
  s' = with_lines (text_lines s') s ∧
  Forall2 same_leaf (text_lines s) (text_lines s').

(** Two computations with the same log that raise the same exception or
    return related values. *)
Definition M_rel {A B} (R : A → B → Prop) (m1 : M A) (m2 : M B) : Prop :=
  m_log m1 = m_log m2 ∧
  match m_res m1, m_res m2 with
  | Ok a, Ok b => R a b
  | Raise e1, Raise e2 => e1 = e2
  | _, _ => False
  end.

(** Forgetting the timestamps: the text of the Created and LastChange
    elements. *)
Definition erase_timestamp (e : element) : element :=
  if String.eqb (tag e) "Created" || String.eqb (tag e) "LastChange"
  then mkElement (tag e) (attrib e) None (children e)
  else e.

Definition without_timestamps (st : pass_state) : pass_state :=
  with_tree (erase_timestamp <$> tree st) st.

Definition result_map {A B} (f : A → B) (r : result A) : result B :=
  match r with Ok a => Ok (f a) | Raise e => Raise e end.

Definition M_map {A B} (f : A → B) (m : M A) : M B :=
  mkM (m_log m) (result_map f (m_res m)).

Definition erase_timestamps (t : etree) : etree := erase_timestamp <$> t.

(** The passes of [convert_page] after the first. *)
Definition later_passes (page : nat) (st : pass_state) : M etree :=
  st ← second_pass page st;
  st ← third_pass page st;
  st ← fourth_pass page st;
  mret (tree st).

(** The shape shared by every element creation of the passes: the element
    [mk n] (with handle [n], the length of the document) is appended to the
    children of [p], followed by its Coords. *)
Definition append_pair (p : nat) (mk : nat → element) (points : list (Z * Z))
    (t : etree) : etree :=
  alter (add_child (length t)) p t ++ [mk (length t); coords_element points].

(** The handles that occur as a child, in document order. *)
Definition all_children (t : etree) : list nat := t ≫= children.

(** The arena is a tree rooted at element 0: every other element occurs
    exactly once in a list of children, that of an earlier element, and
    nothing else occurs there. *)
Definition is_tree (t : etree) : Prop :=
  0 < length t ∧
  all_children t ≡ₚ seq 1 (length t - 1) ∧
  ∀ p e c, t !! p = Some e → c ∈ children e → p < c.

(** Ids of the regions manufactured for leaves without a container. *)
Definition is_orphan_id (s : string) : bool := String.prefix "r_orphan" s.

(** The elements that stand for a record of the label file: TextLines, the
    regions of the five opaque types, and the TextRegions that were not
    manufactured. *)
Definition record_node (e : element) : bool :=
  String.eqb (tag e) "TextLine"
  || bool_decide (tag e ∈ opaque_region_types)
  || (String.eqb (tag e) "TextRegion"
      && negb (is_orphan_id (default EmptyString (attrib e !! "id"%string)))).

Definition count_record_nodes (t : etree) : nat :=
  length (List.filter record_node t).

(** The element types the first pass stores. *)
Definition recognised (element_config : gmap string string) : bool :=
  let element_type := default "TextLine"%string (element_config !! "element") in
  String.eqb element_type "TextLine" || String.eqb element_type "TextRegion"
  || bool_decide (element_type ∈ opaque_region_types).

(** What the first pass does with a line: [None] when it leaves no record
    (blank, too short, or raising), else the configuration found for its
    class id (empty when there is none). *)
Definition line_config (mapping : gmap string (gmap string string))
    (w h : Z) (line : string) : option (gmap string string) :=
  match strip line with
  | EmptyString => None
  | _ =>
    match _parse_yolo_label line with
    | Ok (class_id, pt :: points) =>
        match _denormalize_points (pt :: points) w h with
        | Ok _ => Some (default ∅ (mapping !! str_of_class_id class_id))
        | Raise _ => None
        end
    | _ => None
    end
  end.

(** The line is a record whose class id has an entry in the mapping. *)
Definition mapped (mapping : gmap string (gmap string string))
    (w h : Z) (line : string) : bool :=
  match strip line with
  | EmptyString => false
  | _ =>
    match _parse_yolo_label line with
    | Ok (class_id, pt :: points) =>
        match _denormalize_points (pt :: points) w h with
        | Ok _ => bool_decide (is_Some (mapping !! str_of_class_id class_id))
        | Raise _ => false
        end
    | _ => false
    end
  end.

(** The line is a record the first pass stores: its configuration is not
    empty and names a recognised element type. *)
Definition classified (mapping : gmap string (gmap string string))
    (w h : Z) (line : string) : bool :=
  match line_config mapping w h line with
  | Some cfg => bool_decide (cfg ≠ ∅) && recognised cfg
  | None => false
  end.

(** The regions kept in the heap carry record ids and handles of the
    document. *)
Definition heap_ok (st : pass_state) : Prop :=
  ∀ r info, heap st !! r = Some info →
    is_orphan_id (ri_id info) = false ∧
    ∀ e, ri_element info = Some e → e < length (tree st).

Definition wf_state (page : nat) (st : pass_state) : Prop :=
  is_tree (tree st) ∧ page < length (tree st) ∧ heap_ok st.

(** The records held by a state: those already in the document and those
    still waiting in the three lists of the first pass. *)
Definition stored (st : pass_state) : nat :=
  count_record_nodes (tree st) + length (parent_text_regions st)
  + length (child_text_regions st) + length (text_lines st).

(** Three sentences of the specification in the form they were written,
    for comparison with the converter. *)

(** "Every record whose class id is in the mapping table has its element in
    the emitted document." *)
Definition every_mapped_record_emitted : Prop :=
  ∀ mapping lines img_name w h t,
    m_res (convert_page mapping (Some lines) (Some (img_name, w, h))) = Ok t →
    count_record_nodes t = length (List.filter (mapped mapping w h) lines).

(** "The region manufactured for an unplaced leaf is typed by the leaf's
    parent_type, paragraph when unset." *)
Definition orphan_region_typed_by_parent_type : Prop :=
  ∀ page st c li,
    (∀ ri, ri ∈ candidates st → qualifies (li_points li) ri = false) →
    ∃ e, tree (fourth_pass_step page (st, c) li).1 !! length (tree st) = Some e ∧
         tag e = "TextRegion"%string ∧
         attrib e !! "type"%string =
           Some (default "paragraph"%string (li_config li !! "parent_type")).

(** "No content of a label line aborts the conversion of the document." *)
Definition no_line_aborts_conversion : Prop :=
  ∀ mapping lines img_name w h,
    ∃ t, m_res (convert_page mapping (Some lines) (Some (img_name, w, h))) = Ok t.

(** The region with reference [r] has its element, a handle of the
    document with children. *)
Definition region_ready (st : pass_state) (r : nat) : Prop :=
  ∃ e, ri_element (heap st !!! r) = Some e ∧ e < length (tree st) ∧
       element_truthy (tree st) e = true.

(** The references of the top-level regions point into the heap. *)
Definition parent_refs_valid (st : pass_state) : Prop :=
  ∀ r, r ∈ parent_text_regions st → r < length (heap st).

End Vocabulary.

(** ** Vocabulary of the further properties *)

Section FurtherVocabulary.
Context {builtins : PyBuiltins} {shapely : Shapely} {env : PyEnv}.

(** The coordinate pairs of a label line, as [_parse_yolo_label] reads
    them: [count] pairs from pair [k] on, pair [j] being the tokens [2j+1]
    and [2j+2]. *)
Fixpoint read_pairs (parts : list string) (k count : nat)
    : result (list (pyfloat * pyfloat)) :=
  match count with
  | 0 => Ok []
  | S count' =>
      x ← py_float (parts !!! (2 * k + 1));
      y ← py_float (parts !!! (2 * k + 2));
      rest ← read_pairs parts (S k) count';
      mret ((x, y) :: rest)
  end.

(** One round of the loop of [_denormalize_points]. *)
Definition scale_point (w h : Z) (p : pyfloat * pyfloat) : result (Z * Z) :=
  abs_x ← int_of_float (float_mul_int p.1 w);
  abs_y ← int_of_float (float_mul_int p.2 h);
  mret (abs_x, abs_y).


(** The fourth pass finds no region for the leaf among the candidates of
    [st]. *)
Definition unplaced (st : pass_state) (li : line_info) : bool :=
  match find_best_region (li_points li) (candidates st) with
  | None => true
  | Some _ => false
  end.

(** The references of the nestable regions point into the heap. *)
Definition child_refs_valid (st : pass_state) : Prop :=
  ∀ r, r ∈ child_text_regions st → r < length (heap st).

(** No class of the mapping is a TextRegion class. *)
Definition no_text_region_class (mapping : gmap string (gmap string string))
    : Prop :=
  ∀ k cfg, mapping !! k = Some cfg →
    cfg !! "element"%string ≠ Some "TextRegion"%string.

(** What the batch writes for one label file, taken alone. *)
Definition page_output (mapping : gmap string (gmap string string))
    (images : gmap string (Z * Z))
    (txt_file : string * list string) : option (string * etree) :=
  img_name ← find_image images txt_file.1 image_extensions;
  match m_res (convert_page mapping (Some txt_file.2)
                 ((λ '(w, h), (img_name, w, h)) <$> images !! img_name)) with
  | Ok t => Some (txt_file.1 +:+ ".xml", t)
  | Raise _ => None
  end.

(** The [id] attributes of the document, in the order the elements were
    created. *)
Definition element_ids (t : etree) : list string :=
  omap (λ e, attrib e !! "id"%string) t.

(** The ids of the regions with references [refs]. *)
Definition region_ids (hp : list region_info) (refs : list nat) : list string :=
  (λ r, ri_id (hp !!! r)) <$> refs.

(** The ids held by a state: those in the document and those of the records
    waiting in the three lists of the first pass. *)
Definition state_ids (st : pass_state) : list string :=
  element_ids (tree st) ++ region_ids (heap st) (parent_text_regions st)
  ++ region_ids (heap st) (child_text_regions st) ++ (li_id <$> text_lines st).

(** Reading back a decimal numeral, leading zeros allowed. *)
Definition decode_nat (s : string) : option nat :=
  Nat.of_uint <$> NilEmpty.uint_of_string s.

(** An id given to the record of a line before line [n]. *)
Definition record_id_below (n : nat) (s : string) : Prop :=
  ∃ c i, i < n ∧ s = String c (fmt_04d i).

(** The id of the [k]-th region manufactured by the fourth pass. *)
Definition orphan_id (k : nat) : string := "r_orphan" +:+ fmt_04d k.

(** The character does not occur in the string. *)
Fixpoint char_free (c : ascii) (s : string) : Prop :=
  match s with
  | EmptyString => True
  | String a s' => a ≠ c ∧ char_free c s'
  end.

(** One item of the points string. *)
Definition point_item (p : Z * Z) : string :=
  str_of_Z p.1 +:+ "," +:+ str_of_Z p.2.

(** [h] is among the children of element [p]. *)
Definition child_of (t : etree) (p h : nat) : Prop := h ∈ children (t !!! p).

(** Every TextRegion is a child of Page or a child of a TextRegion that is
    a child of Page. *)
Definition nesting_ok (page : nat) (t : etree) : Prop :=
  ∀ h, tag (t !!! h) = "TextRegion"%string →
    child_of t page h ∨
    ∃ p, child_of t page p ∧ tag (t !!! p) = "TextRegion"%string ∧ child_of t p h.

(** Every TextLine is a child of a TextRegion. *)
Definition lines_in_regions (t : etree) : Prop :=
  ∀ h, tag (t !!! h) = "TextLine"%string →
    ∃ p, child_of t p h ∧ tag (t !!! p) = "TextRegion"%string.

(** The elements recorded in the heap are TextRegions. *)
Definition regions_tagged (st : pass_state) : Prop :=
  ∀ r e, ri_element (heap st !!! r) = Some e →
    tag (tree st !!! e) = "TextRegion"%string.

(** The elements of the top-level regions are children of Page. *)
Definition tops_ok (page : nat) (st : pass_state) : Prop :=
  ∀ r e, r ∈ parent_text_regions st → ri_element (heap st !!! r) = Some e →
    child_of (tree st) page e.

(** No region is both in the list of the top-level and in the list of
    the nestable regions. *)
Definition refs_disjoint (st : pass_state) : Prop :=
  ∀ r, r ∈ child_text_regions st → r ∉ parent_text_regions st.

(** The invariant of the passes on the shape of the document. *)
Definition hierarchy_ok (page : nat) (st : pass_state) : Prop :=
  page < length (tree st) ∧ nesting_ok page (tree st) ∧
  lines_in_regions (tree st) ∧ regions_tagged st ∧ tops_ok page st.

(** The document has an element of tag [tg] and id [id] whose first child,
    the element created right after it, is the Coords of the polygon
    [points]. *)
Definition emits (t : etree) (tg id : string) (points : list (Z * Z)) : Prop :=
  ∃ h, tag (t !!! h) = tg ∧ attrib (t !!! h) !! "id"%string = Some id ∧
       head (children (t !!! h)) = Some (S h) ∧
       tag (t !!! S h) = "Coords"%string ∧
       attrib (t !!! S h) !! "points"%string = Some (_points_to_string points).

(** Element [h] of [t'] is element [h] of [t] with, possibly, more
    children at the end. *)
Definition kept (t t' : etree) (h : nat) : Prop :=
  tag (t' !!! h) = tag (t !!! h) ∧ attrib (t' !!! h) = attrib (t !!! h) ∧
  text (t' !!! h) = text (t !!! h) ∧
  ∃ more, children (t' !!! h) = children (t !!! h) ++ more.

(** [t'] is [t] with more elements and more children. *)
Definition grown (t t' : etree) : Prop :=
  length t ≤ length t' ∧ ∀ h, h < length t → kept t t' h.

(** A record waits in one of the three lists of the first pass. *)
Definition waiting (st : pass_state) (tg id : string) (points : list (Z * Z))
    : Prop :=
  (tg = "TextRegion"%string ∧
   ∃ r, r ∈ parent_text_regions st ++ child_text_regions st ∧
        ri_id (heap st !!! r) = id ∧ ri_points (heap st !!! r) = points) ∨
  (tg = "TextLine"%string ∧
   ∃ li, li ∈ text_lines st ∧ li_id li = id ∧ li_points li = points).

(** A record is in the document or waits in a list of the first pass. *)
Definition holds (st : pass_state) (tg id : string) (points : list (Z * Z))
    : Prop :=
  emits (tree st) tg id points ∨ waiting st tg id points.

(** The id the first pass gives to the record of line [idx]. *)
Definition record_id (element_type : string) (idx : nat) : string :=
  (if String.eqb element_type "TextLine" then "l" else "r") +:+ fmt_04d idx.

End FurtherVocabulary.

(** ** Sample inputs *)

Module Samples.

(** A page of 100 x 100 pixels and some polygons on it. *)
Definition square (x0 y0 x1 y1 : Z) : list (Z * Z) :=
  [(x0, y0); (x1, y0); (x1, y1); (x0, y1)].

(** A self-crossing ring: not a valid polygon. *)
Definition bow_tie : list (Z * Z) := [(0, 0); (2, 2); (2, 0); (0, 2)]%Z.

(** A mapping with a leaf class, a top-level and a nestable TextRegion
    class, a table class, a class of an element type the converter does not
    know, a class without the `element` key and a leaf class whose
    [parent_type] is the empty string. *)
Definition sample_mapping : gmap string (gmap string string) :=
  list_to_map
    [ ("0", {[ "element" := "TextLine"; "parent" := "TextRegion";
               "parent_type" := "paragraph" ]});
      ("1", {[ "element" := "TextRegion"; "type" := "paragraph" ]});
      ("2", {[ "element" := "TextRegion"; "parent" := "TextRegion" ]});
      ("3", {[ "element" := "TableRegion" ]});
      ("4", {[ "element" := "MathsRegion" ]});
      ("5", {[ "parent_type" := "heading" ]});
      ("6", {[ "element" := "TextLine"; "parent_type" := "" ]}) ]%string.

(** A state as the fourth pass finds it: Page is element 0 and holds one
    TextRegion (elements 1 and 2) over the square (0,0)-(50,50). *)
Definition one_region_state : pass_state :=
  let pts := square 0 0 50 50 in
  mkState
    [ add_child 1 (new_element "Page");
      region_element "TextRegion" "r0000" None 1;
      coords_element pts ]
    [ mkRegionInfo pts "r0000" None {[ "element" := "TextRegion" ]}%string (Some 1) ]
    [0] [] [] [0].

(** The same document in the third pass, with a nestable region waiting:
    half of the square (0,0)-(100,50) lies in the region. *)
Definition half_inside_state : pass_state :=
  let pts := square 0 0 50 50 in
  mkState
    [ add_child 1 (new_element "Page");
      region_element "TextRegion" "r0000" None 1;
      coords_element pts ]
    [ mkRegionInfo pts "r0000" None {[ "element" := "TextRegion" ]}%string (Some 1);
      mkRegionInfo (square 0 0 100 50) "r0001" None
        {[ "element" := "TextRegion"; "parent" := "TextRegion" ]}%string None ]
    [0] [1] [] [0].

(** Two nested regions and a leaf inside the inner one. *)
Definition outer_region : region_info :=
  mkRegionInfo (square 0 0 80 80) "r0000" None
    {[ "element" := "TextRegion" ]}%string (Some 6).
Definition inner_region : region_info :=
  mkRegionInfo (square 10 10 40 40) "r0001" None
    {[ "element" := "TextRegion" ]}%string (Some 8).
Definition inner_leaf : list (Z * Z) := square 20 20 30 30.

(** A leaf away from every region, and one that is no polygon. *)
Definition far_leaf : line_info :=
  mkLineInfo (square 60 60 70 70) "l0001"
    {[ "element" := "TextLine"; "parent_type" := "heading" ]}%string.
Definition untyped_leaf : line_info :=
  mkLineInfo (square 60 60 70 70) "l0001"
    {[ "element" := "TextLine"; "parent_type" := "" ]}%string.
Definition crossed_leaf : line_info :=
  mkLineInfo bow_tie "l0002" {[ "element" := "TextLine" ]}%string.

(** Label lines: a top-level region, a leaf in it, a leaf of a class without
    entry, of the class of unknown element type, of the class without
    `element`; a line that is too short and one whose class is no number. *)
Definition region_line : string := "1 0 0 0.5 0 0.5 0.5 0 0.5".
Definition leaf_line : string := "0 0.1 0.1 0.3 0.1 0.3 0.2 0.1 0.2".
Definition unmapped_line : string := "9 0.1 0.1 0.3 0.1 0.3 0.2 0.1 0.2".
Definition maths_line : string := "4 0.6 0.6 0.7 0.6 0.7 0.7 0.6 0.7".
Definition default_line : string := "5 0.6 0.6 0.7 0.6 0.7 0.7 0.6 0.7".
Definition short_line : string := "0 0.1 0.1 0.3 0.1".
Definition bad_class_line : string := "x 0.1 0.1 0.3 0.1 0.3 0.2".

Definition sample_image : option (string * Z * Z) :=
  Some ("page.png"%string, 100%Z, 100%Z).

End Samples.

Module MoreSamples.

(** A nestable region inside the region of [Samples.region_line], a table,
    and a label line with an unpaired last token next to the same line
    without it. *)
Definition nested_line : string := "2 0.1 0.1 0.4 0.1 0.4 0.4 0.1 0.4".
Definition table_line : string := "3 0.6 0.6 0.9 0.6 0.9 0.9 0.6 0.9".
Definition dangling_line : string := "0 0.1 0.1 0.3 0.1 0.3 0.2 x".
Definition paired_line : string := "0 0.1 0.1 0.3 0.1 0.3 0.2".


(** A page with one record of each stored kind. *)
Definition sample_page : list string :=
  [Samples.region_line; nested_line; EmptyString; Samples.leaf_line;
   table_line; Samples.unmapped_line].

(** Lines that leave no record. *)
Definition idle_page : list string :=
  [Samples.short_line; EmptyString; Samples.unmapped_line; Samples.maths_line].

(** A labels folder of three files and an images folder that has two
    images for the first and none for the last. *)
Definition sample_labels : list (string * list string) :=
  [("a", sample_page); ("b", [Samples.bad_class_line]);
   ("c", [Samples.leaf_line])]%string.
Definition sample_images : gmap string (Z * Z) :=
  list_to_map [("a.png", (100, 100)); ("a.jpg", (200, 100));
               ("b.png", (100, 100))]%string%Z.

End MoreSamples.

(** ** Basic facts *)

Lemma Qltb_lt (a b : Q) : Qltb a b = true ↔ (a < b)%Q.
Proof.
  unfold Qltb. rewrite negb_true_iff, <- not_true_iff_false, Qle_bool_iff.
  split; [apply Qnot_le_lt | apply Qlt_not_le].
Qed.

Lemma Qltb_ge (a b : Q) : Qltb a b = false ↔ (b <= a)%Q.
Proof.
  unfold Qltb. rewrite negb_false_iff. apply Qle_bool_iff.
Qed.

Lemma Qltb_irrefl (a : Q) : Qltb a a = false.
Proof. apply Qltb_ge, Qle_refl. Qed.

Section Scores.
Context {shapely : Shapely}.

Lemma valid_intersection_invalid p1 p2 :
  valid_polygon p1 = false ∨ valid_polygon p2 = false →
  valid_intersection p1 p2 = Ok None ∨ ∃ e, valid_intersection p1 p2 = Raise e.
Proof.
  unfold valid_polygon, valid_intersection.
  destruct (Polygon p1) as [g1|e1]; simpl; [|eauto].
  destruct (Polygon p2) as [g2|e2]; simpl; [|eauto].
  intros [-> | ->]; simpl; rewrite ?orb_true_r; auto.
Qed.

Lemma valid_intersection_Some p1 p2 g i :
  valid_intersection p1 p2 = Ok (Some (g, i)) →
  ∃ g2, Polygon p1 = Ok g ∧ Polygon p2 = Ok g2 ∧ is_valid g = true ∧
        is_valid g2 = true ∧ intersection g g2 = Ok i.
Proof.
  unfold valid_intersection.
  destruct (Polygon p1) as [g1|e1]; simpl; [|discriminate].
  destruct (Polygon p2) as [g2|e2]; simpl; [|discriminate].
  destruct (is_valid g1) eqn:V1, (is_valid g2) eqn:V2; simpl; try discriminate.
  destruct (intersection g1 g2) as [i'|e] eqn:I; simpl; [|discriminate].
  intros [= <- <-]. eauto 10.
Qed.

Lemma overlap_invalid p1 p2 :
  valid_polygon p1 = false ∨ valid_polygon p2 = false →
  _calculate_polygon_overlap p1 p2 = 0%Q.
Proof.
  intros Hv. unfold _calculate_polygon_overlap.
  destruct (valid_intersection_invalid _ _ Hv) as [-> | [e ->]]; reflexivity.
Qed.

Lemma containment_invalid p1 p2 :
  valid_polygon p1 = false ∨ valid_polygon p2 = false →
  _calculate_containment_score p1 p2 = 0%Q.
Proof.
  intros Hv. unfold _calculate_containment_score.
  destruct (valid_intersection_invalid _ _ Hv) as [-> | [e ->]]; reflexivity.
Qed.

(** A positive overlap needs two valid polygons. *)
Lemma overlap_pos_valid p1 p2 :
  (0 < _calculate_polygon_overlap p1 p2)%Q →
  valid_polygon p1 = true ∧ valid_polygon p2 = true.
Proof.
  intros Hpos.
  destruct (valid_polygon p1) eqn:V1, (valid_polygon p2) eqn:V2; auto;
    rewrite overlap_invalid in Hpos by auto; inversion Hpos.
Qed.

End Scores.

(** ** The geometric scores *)

Section ScoreBounds.
Context {shapely : Shapely}.

(** What the scores need from the geometry library: areas are not negative
    and an intersection is not larger than the polygon it was cut from. *)
Hypothesis area_nonneg : ∀ g, (0 <= area g)%Q.
Hypothesis intersection_area_le :
  ∀ a b i, intersection a b = Ok i → (area i <= area a)%Q.

Lemma containment_range child parent :
  (0 <= _calculate_containment_score child parent <= 1)%Q.
Proof.
  unfold _calculate_containment_score.
  destruct (valid_intersection child parent) as [[[g i]|]|e] eqn:E;
    try (split; [apply Qle_refl | discriminate]).
  destruct (Qltb 0 (area g)) eqn:P; [|split; [apply Qle_refl | discriminate]].
  apply Qltb_lt in P.
  apply valid_intersection_Some in E as (g2 & _ & _ & _ & _ & I).
  split.
  - apply Qle_shift_div_l; [exact P|]. rewrite Qmult_0_l. apply area_nonneg.
  - apply Qle_shift_div_r; [exact P|]. rewrite Qmult_1_l.
    eapply intersection_area_le, I.
Qed.

(** C6. The two scores are total functions of two point lists: whatever
    the geometry library does (a polygon that cannot be built, an invalid
    polygon, an intersection that raises) they return a number, and that
    number is 0.0 when either polygon is invalid, when the intersection
    raises, or when the child polygon has zero area; the containment score
    lies in [0, 1]. *)
Theorem scores_total_and_bounded (child parent : list (Z * Z)) :
  (valid_polygon child = false ∨ valid_polygon parent = false →
     _calculate_polygon_overlap child parent = 0%Q ∧
     _calculate_containment_score child parent = 0%Q) ∧
  (∀ g1 g2 e, Polygon child = Ok g1 → Polygon parent = Ok g2 →
     intersection g1 g2 = Raise e →
     _calculate_polygon_overlap child parent = 0%Q ∧
     _calculate_containment_score child parent = 0%Q) ∧
  ((polygon_area child == 0)%Q →
     (_calculate_polygon_overlap child parent == 0)%Q ∧
     _calculate_containment_score child parent = 0%Q) ∧
  (0 <= _calculate_containment_score child parent <= 1)%Q.
Proof.
  split; [|split; [|split]].
  - intros Hv. split; [apply overlap_invalid | apply containment_invalid]; exact Hv.
  - intros g1 g2 e P1 P2 I.
    unfold _calculate_polygon_overlap, _calculate_containment_score,
      valid_intersection.
    rewrite P1, P2. simpl.
    destruct (negb (is_valid g1) || negb (is_valid g2)); simpl; [done|].
    rewrite I. done.
  - intros Hz.
    unfold _calculate_polygon_overlap, _calculate_containment_score.
    destruct (valid_intersection child parent) as [[[g i]|]|e] eqn:E;
      try (split; reflexivity).
    apply valid_intersection_Some in E as (g2 & P1 & _ & _ & _ & I).
    unfold polygon_area in Hz. rewrite P1 in Hz.
    split.
    + apply Qle_antisym; [|apply area_nonneg].
      rewrite <- Hz. eapply intersection_area_le, I.
    + assert (Qltb 0 (area g) = false) as ->; [|reflexivity].
      apply Qltb_ge. rewrite Hz. apply Qle_refl.
  - apply containment_range.
Qed.

End ScoreBounds.

(** ** Selection loops *)

Section FirstBest.
Context {A V K : Type} (better : K → K → bool) (key : A → K) (val : A → V).

Hypothesis better_irrefl : ∀ a, better a a = false.
Hypothesis better_trans :
  ∀ a b c, better a b = true → better b c = true → better a c = true.
Hypothesis better_cotrans :
  ∀ a b c, better a c = true → better a b = true ∨ better b c = true.

Lemma first_best_cons x l b k :
  first_best better key val (x :: l) (b, k) =
  first_best better key val l
    (if better (key x) k then (val x, key x) else (b, k)).
Proof. reflexivity. Qed.

(** The loop either leaves its state alone, no key being better than the
    initial one, or ends on the first element with the best key. *)
Lemma first_best_spec l b k :
  (first_best better key val l (b, k) = (b, k) ∧
   ∀ x, x ∈ l → better (key x) k = false) ∨
  (∃ i x, l !! i = Some x ∧
     first_best better key val l (b, k) = (val x, key x) ∧
     better (key x) k = true ∧
     (∀ j y, l !! j = Some y → better (key y) (key x) = false) ∧
     (∀ j y, j < i → l !! j = Some y → better (key x) (key y) = true)).
Proof.
  revert b k. induction l as [|x l IH]; intros b k.
  - left. split; [reflexivity|]. intros x Hx. inversion Hx.
  - rewrite first_best_cons. destruct (better (key x) k) eqn:Hx.
    + right. destruct (IH (val x) (key x)) as [[E Hall] | (i & x' & Hi & E & Hb & Hmin & Hfirst)].
      * exists 0, x. split; [reflexivity|]. split; [exact E|]. split; [exact Hx|].
        split.
        -- intros [|j] y Hy; simpl in Hy.
           ++ injection Hy as Hxy; subst x. apply better_irrefl.
           ++ apply Hall. eapply list_elem_of_lookup_2, Hy.
        -- intros j y Hj. lia.
      * exists (S i), x'. split; [exact Hi|]. split; [exact E|].
        split; [eapply better_trans; eassumption|].
        split.
        -- intros [|j] y Hy; simpl in Hy.
           ++ injection Hy as Hxy; subst x.
              destruct (better (key y) (key x')) eqn:C; [|reflexivity].
              rewrite <- (better_irrefl (key y)). symmetry.
              eapply better_trans; eassumption.
           ++ eapply Hmin, Hy.
        -- intros [|j] y Hj Hy; simpl in Hy.
           ++ injection Hy as Hxy; subst x. exact Hb.
           ++ eapply (Hfirst j); [lia | exact Hy].
    + destruct (IH b k) as [[E Hall] | (i & x' & Hi & E & Hb & Hmin & Hfirst)].
      * left. split; [exact E|]. intros y Hy.
        apply elem_of_cons in Hy as [-> | Hy]; [exact Hx | apply Hall, Hy].
      * right. exists (S i), x'. split; [exact Hi|]. split; [exact E|].
        split; [exact Hb|]. split.
        -- intros [|j] y Hy; simpl in Hy.
           ++ injection Hy as Hxy; subst x.
              destruct (better (key y) (key x')) eqn:C; [|reflexivity].
              rewrite <- Hx. symmetry. eapply better_trans; eassumption.
           ++ eapply Hmin, Hy.
        -- intros [|j] y Hj Hy; simpl in Hy.
           ++ injection Hy as Hxy; subst x.
              destruct (better_cotrans _ (key y) _ Hb) as [C | C]; [exact C|].
              congruence.
           ++ eapply (Hfirst j); [lia | exact Hy].
Qed.

End FirstBest.

Lemma farea_ltb_irrefl a : farea_ltb a a = false.
Proof. destruct a; simpl; [apply Qltb_irrefl | reflexivity]. Qed.

Lemma farea_ltb_trans a b c :
  farea_ltb a b = true → farea_ltb b c = true → farea_ltb a c = true.
Proof.
  destruct a, b, c; simpl; try done.
  rewrite !Qltb_lt. apply Qlt_trans.
Qed.

Lemma farea_ltb_cotrans a b c :
  farea_ltb a c = true → farea_ltb a b = true ∨ farea_ltb b c = true.
Proof.
  destruct a as [x|], b as [y|], c as [z|]; simpl; try done; auto.
  rewrite !Qltb_lt. intros Hxz.
  destruct (Qlt_le_dec x y) as [?|Hyx]; [auto|].
  right. eapply Qle_lt_trans; eassumption.
Qed.

Lemma Qgtb_trans (a b c : Q) :
  Qltb b a = true → Qltb c b = true → Qltb c a = true.
Proof. rewrite !Qltb_lt. intros ? ?. eapply Qlt_trans; eassumption. Qed.

Lemma Qgtb_cotrans (a b c : Q) :
  Qltb c a = true → Qltb b a = true ∨ Qltb c b = true.
Proof.
  rewrite !Qltb_lt. intros Hca.
  destruct (Qlt_le_dec b a) as [?|Hab]; [auto|].
  right. eapply Qlt_le_trans; eassumption.
Qed.

(** ** ElementTree operations in closed form *)

Lemma alter_at_end {A} (f : A → A) (l : list A) (x : A) :
  alter f (length l) (l ++ [x]) = l ++ [f x].
Proof.
  replace (length l) with (length l + 0) by lia.
  rewrite alter_app_r. reflexivity.
Qed.

Lemma alter_before_end {A} (f : A → A) (l : list A) (x y : A) :
  alter f (length l) (l ++ [x; y]) = l ++ [f x; y].
Proof.
  replace (length l) with (length l + 0) by lia.
  rewrite alter_app_r. reflexivity.
Qed.

Lemma alter_at_end2 {A} (f : A → A) (l : list A) (x y : A) :
  alter f (S (length l)) (l ++ [x; y]) = l ++ [x; f y].
Proof.
  replace (S (length l)) with (length l + 1) by lia.
  rewrite alter_app_r. reflexivity.
Qed.

Section Elements.
Context {env : PyEnv}.

Lemma add_region_closed t parent element_type points region_id region_type :
  _add_region t parent element_type points (Some region_id) region_type =
  (alter (add_child (length t)) parent t ++
     [region_element element_type region_id region_type (length t);
      coords_element points],
   length t).
Proof.
  unfold _add_region, SubElement, set_attrib, region_element, region_attrib.
  set (t1 := alter (add_child (length t)) parent t).
  assert (length t1 = length t) as L by apply length_alter.
  rewrite <- L. rewrite alter_at_end.
  destruct (opt_str_truthy region_type && String.eqb element_type "TextRegion").
  - rewrite alter_at_end. rewrite alter_at_end.
    rewrite length_app, Nat.add_1_r.
    rewrite <- app_assoc. simpl.
    rewrite alter_at_end2. reflexivity.
  - rewrite alter_at_end.
    rewrite length_app, Nat.add_1_r.
    rewrite <- app_assoc. simpl.
    rewrite alter_at_end2. reflexivity.
Qed.

Lemma add_text_line_closed t parent points line_id :
  _add_text_line t parent points (Some line_id) =
  (alter (add_child (length t)) parent t ++
     [line_element line_id (length t); coords_element points],
   length t).
Proof.
  unfold _add_text_line, SubElement, set_attrib, line_element.
  set (t1 := alter (add_child (length t)) parent t).
  assert (length t1 = length t) as L by apply length_alter.
  rewrite <- L. rewrite !alter_at_end.
  rewrite length_app, Nat.add_1_r.
  rewrite <- app_assoc. simpl.
  rewrite alter_at_end2. reflexivity.
Qed.

End Elements.

(** ** Fourth pass: the container of a leaf *)

Section LeafPlacement.
Context {shapely : Shapely} {env : PyEnv}.

Lemma best_region_loop_filter line_points regions init :
  best_region_loop line_points (line_area_of line_points) regions init =
  first_best farea_ltb (λ ri, region_area_of (ri_points ri)) ri_element
    (List.filter (loop_accepts line_points) regions) init.
Proof.
  revert init. induction regions as [|ri regions IH]; intros [b k]; [reflexivity|].
  unfold best_region_loop in *. simpl fold_left. simpl List.filter.
  destruct (loop_accepts line_points ri) eqn:A.
  - unfold loop_accepts in A. apply andb_true_iff in A as [A1 A2].
    apply bool_decide_eq_true in A1 as [e E].
    rewrite first_best_cons. rewrite E, A2. rewrite <- E. apply IH.
  - rewrite <- IH. f_equal. unfold loop_accepts in A.
    destruct (ri_element ri) eqn:E; [|reflexivity].
    rewrite bool_decide_true in A by eauto. simpl in A. rewrite A. reflexivity.
Qed.

(** Without a positive leaf area the loop never selects. *)
Lemma find_best_region_no_area line_points regions :
  Qltb 0 (line_area_of line_points) = false →
  find_best_region line_points regions = None.
Proof.
  intros Hz. unfold find_best_region. rewrite best_region_loop_filter.
  replace (List.filter (loop_accepts line_points) regions) with (@nil region_info);
    [reflexivity|].
  symmetry. induction regions as [|ri regions IH]; [reflexivity|].
  simpl. unfold loop_accepts at 1. rewrite Hz, andb_false_r. exact IH.
Qed.

Lemma valid_polygon_areas pts :
  valid_polygon pts = true →
  line_area_of pts = polygon_area pts ∧
  region_area_of pts = Finite (polygon_area pts).
Proof.
  unfold valid_polygon, line_area_of, region_area_of, polygon_area.
  destruct (Polygon pts) as [g|e]; [|discriminate]. intros ->. done.
Qed.

Lemma loop_accepts_qualifies line_points ri :
  valid_polygon line_points = true → (0 < polygon_area line_points)%Q →
  loop_accepts line_points ri = qualifies line_points ri.
Proof.
  intros V P. unfold loop_accepts, qualifies.
  destruct (valid_polygon_areas _ V) as [-> _].
  apply Qltb_lt in P. rewrite P. reflexivity.
Qed.

Lemma qualifies_spec line_points ri :
  (0 < polygon_area line_points)%Q →
  qualifies line_points ri = true →
  is_Some (ri_element ri) ∧
  region_area_of (ri_points ri) = Finite (polygon_area (ri_points ri)).
Proof.
  intros P. unfold qualifies. rewrite andb_true_iff, bool_decide_eq_true, Qltb_lt.
  intros [E O]. split; [exact E|].
  apply valid_polygon_areas.
  apply (overlap_pos_valid line_points).
  eapply Qle_lt_trans; [|exact O].
  apply Qmult_le_0_compat; [apply Qlt_le_weak, P | done].
Qed.

Lemma fourth_pass_step_Some page st c li r :
  find_best_region (li_points li) (candidates st) = Some r →
  fourth_pass_step page (st, c) li = (with_tree (with_line_in r (tree st) li) st, c).
Proof.
  intros F. unfold fourth_pass_step. fold (candidates st). rewrite F.
  rewrite add_text_line_closed. reflexivity.
Qed.

Lemma fourth_pass_step_None page st c li :
  find_best_region (li_points li) (candidates st) = None →
  fourth_pass_step page (st, c) li =
  (with_tree (with_orphan_region page (tree st) c li) st, S c).
Proof.
  intros F. unfold fourth_pass_step. fold (candidates st). rewrite F.
  rewrite add_region_closed, add_text_line_closed.
  unfold with_orphan_region, region_element.
  rewrite length_app, !length_alter. simpl length.
  replace (length (tree st) + 2) with (S (S (length (tree st)))) by lia.
  match goal with
  | |- context [alter ?f (length (tree st)) (?l ++ [?x; ?y])] =>
      pose proof (alter_before_end f l x y) as E;
      rewrite length_alter in E; rewrite E
  end.
  rewrite <- app_assoc. reflexivity.
Qed.

(** The selection among the qualifying candidates. *)
Lemma find_best_region_spec line_points regions :
  valid_polygon line_points = true → (0 < polygon_area line_points)%Q →
  let q := List.filter (qualifies line_points) regions in
  (q = [] ∧ find_best_region line_points regions = None) ∨
  (∃ i ri, q !! i = Some ri ∧
     find_best_region line_points regions = ri_element ri ∧
     is_Some (ri_element ri) ∧
     (∀ j rj, q !! j = Some rj →
        (polygon_area (ri_points ri) <= polygon_area (ri_points rj))%Q) ∧
     (∀ j rj, j < i → q !! j = Some rj →
        (polygon_area (ri_points ri) < polygon_area (ri_points rj))%Q)).
Proof.
  intros V P q.
  assert (Hq : ∀ j rj, q !! j = Some rj →
            is_Some (ri_element rj) ∧
            region_area_of (ri_points rj) = Finite (polygon_area (ri_points rj))).
  { intros j rj Hj. apply (qualifies_spec line_points); [exact P|].
    apply list_elem_of_lookup_2, list_elem_of_In in Hj.
    apply filter_In in Hj. tauto. }
  unfold find_best_region. rewrite best_region_loop_filter.
  rewrite (filter_ext _ (qualifies line_points))
    by (intros ri; apply loop_accepts_qualifies; assumption).
  fold q.
  destruct (first_best_spec farea_ltb (λ ri, region_area_of (ri_points ri))
              ri_element farea_ltb_irrefl farea_ltb_trans farea_ltb_cotrans
              q None Infinity)
    as [[E Hall] | (i & ri & Hi & E & Hb & Hmin & Hfirst)].
  - left. rewrite E. split; [|reflexivity].
    destruct q as [|rj q'] eqn:Q; [reflexivity|]. exfalso.
    destruct (Hq 0 rj eq_refl) as [_ Hfin].
    specialize (Hall rj (list_elem_of_here _ _)). simpl in Hall.
    rewrite Hfin in Hall. discriminate.
  - right. exists i, ri. rewrite E. simpl.
    destruct (Hq i ri Hi) as [Hel Hfin].
    repeat split; try done.
    + intros j rj Hj. specialize (Hmin j rj Hj). simpl in Hmin.
      destruct (Hq j rj Hj) as [_ Hfj]. rewrite Hfin, Hfj in Hmin.
      simpl in Hmin. apply Qltb_ge in Hmin. exact Hmin.
    + intros j rj Hlt Hj. specialize (Hfirst j rj Hlt Hj). simpl in Hfirst.
      destruct (Hq j rj Hj) as [_ Hfj]. rewrite Hfin, Hfj in Hfirst.
      simpl in Hfirst. apply Qltb_lt in Hfirst. exact Hfirst.
Qed.

Lemma find_best_region_elem line_points regions e :
  find_best_region line_points regions = Some e →
  ∃ ri, ri ∈ regions ∧ ri_element ri = Some e.
Proof.
  unfold find_best_region. rewrite best_region_loop_filter.
  destruct (first_best_spec farea_ltb (λ ri, region_area_of (ri_points ri))
              ri_element farea_ltb_irrefl farea_ltb_trans farea_ltb_cotrans
              (List.filter (loop_accepts line_points) regions) None Infinity)
    as [[-> _] | (i & ri & Hi & -> & _)]; [discriminate|].
  simpl. intros E. exists ri. split; [|exact E].
  apply list_elem_of_lookup_2, list_elem_of_In, filter_In in Hi as [Hi _].
  apply list_elem_of_In, Hi.
Qed.

Lemma fourth_pass_step_candidates page acc li :
  candidates (fourth_pass_step page acc li).1 = candidates acc.1.
Proof.
  destruct acc as [st c]. unfold fourth_pass_step.
  destruct (find_best_region _ _); [reflexivity|].
  destruct (_add_region _ _ _ _ _ _). reflexivity.
Qed.

Lemma fourth_pass_candidates page lines acc :
  candidates (fold_left (fourth_pass_step page) lines acc).1 = candidates acc.1.
Proof.
  revert acc. induction lines as [|li lines IH]; intros acc; [reflexivity|].
  simpl. rewrite IH. apply fourth_pass_step_candidates.
Qed.

(** C1. A leaf with a valid polygon of positive area goes to the qualifying
    candidate (overlap above 0.1 times the area of the leaf) of smallest
    polygon area, the first such in enumeration order; its TextLine is
    appended to that element. For two regions A and B with B strictly smaller
    than A, both containing the leaf, the leaf goes to B in either
    enumeration order, and it never goes to A whatever other regions are
    enumerated with B. *)
Theorem most_specific_container (line_points : list (Z * Z)) :
  valid_polygon line_points = true → (0 < polygon_area line_points)%Q →
  (∀ regions,
     let q := List.filter (qualifies line_points) regions in
     (q = [] ∧ find_best_region line_points regions = None) ∨
     (∃ i ri, q !! i = Some ri ∧
        find_best_region line_points regions = ri_element ri ∧
        is_Some (ri_element ri) ∧
        (∀ j rj, q !! j = Some rj →
           (polygon_area (ri_points ri) <= polygon_area (ri_points rj))%Q) ∧
        (∀ j rj, j < i → q !! j = Some rj →
           (polygon_area (ri_points ri) < polygon_area (ri_points rj))%Q))) ∧
  (∀ page st c li r,
     li_points li = line_points →
     find_best_region line_points (candidates st) = Some r →
     fourth_pass_step page (st, c) li =
     (with_tree (with_line_in r (tree st) li) st, c)) ∧
  (∀ A B eA eB,
     ri_element A = Some eA → ri_element B = Some eB →
     (_calculate_polygon_overlap line_points (ri_points A)
        == polygon_area line_points)%Q →
     (_calculate_polygon_overlap line_points (ri_points B)
        == polygon_area line_points)%Q →
     (polygon_area (ri_points B) < polygon_area (ri_points A))%Q →
     find_best_region line_points [A; B] = Some eB ∧
     find_best_region line_points [B; A] = Some eB ∧
     ∀ regions, B ∈ regions →
       ∃ ri, ri ∈ regions ∧ ri ≠ A ∧
             find_best_region line_points regions = ri_element ri ∧
             is_Some (ri_element ri)).
Proof.
  intros V P. split; [|split].
  - intros regions. apply find_best_region_spec; assumption.
  - intros page st c li r <- F. apply fourth_pass_step_Some, F.
  - intros A B eA eB EA EB OA OB HBA.
    assert (QA : qualifies line_points A = true).
    { unfold qualifies. rewrite EA, bool_decide_true by eauto. simpl.
      apply Qltb_lt. unfold min_overlap_threshold. lra. }
    assert (QB : qualifies line_points B = true).
    { unfold qualifies. rewrite EB, bool_decide_true by eauto. simpl.
      apply Qltb_lt. unfold min_overlap_threshold. lra. }
    split; [|split].
    + destruct (find_best_region_spec line_points [A; B] V P)
        as [[Q _] | (i & ri & Hi & -> & _ & Hmin & _)].
      * simpl in Q. rewrite QA in Q. discriminate.
      * simpl in Hi, Hmin. rewrite QA, QB in Hi, Hmin.
        destruct i as [|[|i]]; simpl in Hi; [|congruence|discriminate].
        injection Hi as <-. specialize (Hmin 1 B eq_refl). lra.
    + destruct (find_best_region_spec line_points [B; A] V P)
        as [[Q _] | (i & ri & Hi & -> & _ & Hmin & _)].
      * simpl in Q. rewrite QB in Q. discriminate.
      * simpl in Hi, Hmin. rewrite QA, QB in Hi, Hmin.
        destruct i as [|[|i]]; simpl in Hi; [congruence| |discriminate].
        injection Hi as <-. specialize (Hmin 0 B eq_refl). lra.
    + intros regions HB.
      assert (HBq : B ∈ List.filter (qualifies line_points) regions).
      { apply list_elem_of_In, filter_In. split; [apply list_elem_of_In, HB | exact QB]. }
      destruct (find_best_region_spec line_points regions V P)
        as [[Q _] | (i & ri & Hi & F & Hel & Hmin & _)].
      * rewrite Q in HBq. inversion HBq.
      * exists ri. split; [|split; [|split]]; try assumption.
        -- apply list_elem_of_lookup_2, list_elem_of_In, filter_In in Hi as [Hi _].
           apply list_elem_of_In, Hi.
        -- intros ->. apply list_elem_of_lookup_1 in HBq as [j Hj].
           specialize (Hmin j B Hj). lra.
Qed.

(** C8. A leaf whose polygon is invalid (or cannot be built) or has zero
    area takes the orphan branch whatever the regions are: no region is
    selected and a new top-level region is made for it. *)
Theorem degenerate_leaf_is_orphan page st c li :
  valid_polygon (li_points li) = false ∨ (polygon_area (li_points li) == 0)%Q →
  (∀ regions, find_best_region (li_points li) regions = None) ∧
  fourth_pass_step page (st, c) li =
  (with_tree (with_orphan_region page (tree st) c li) st, S c).
Proof.
  intros D.
  assert (Z0 : Qltb 0 (line_area_of (li_points li)) = false).
  { apply Qltb_ge. unfold valid_polygon, polygon_area, line_area_of in *.
    destruct (Polygon (li_points li)) as [g|e]; [|apply Qle_refl].
    destruct (is_valid g); [|apply Qle_refl].
    destruct D as [D|D]; [discriminate|]. rewrite D. apply Qle_refl. }
  split.
  - intros regions. apply find_best_region_no_area, Z0.
  - apply fourth_pass_step_None, find_best_region_no_area, Z0.
Qed.

Lemma line_area_pos_valid pts :
  Qltb 0 (line_area_of pts) = true →
  valid_polygon pts = true ∧ (0 < polygon_area pts)%Q.
Proof.
  unfold line_area_of, valid_polygon, polygon_area.
  destruct (Polygon pts) as [g|e]; [|rewrite Qltb_irrefl; discriminate].
  destruct (is_valid g); [|rewrite Qltb_irrefl; discriminate].
  rewrite Qltb_lt. done.
Qed.

Lemma find_best_region_none_qualifies line_points regions :
  (∀ ri, ri ∈ regions → qualifies line_points ri = false) →
  find_best_region line_points regions = None.
Proof.
  intros Hnone.
  destruct (Qltb 0 (line_area_of line_points)) eqn:Z0;
    [|apply find_best_region_no_area, Z0].
  apply line_area_pos_valid in Z0 as [V P].
  destruct (find_best_region_spec line_points regions V P)
    as [[_ F] | (i & ri & Hi & _)]; [exact F|].
  apply list_elem_of_lookup_2, list_elem_of_In, filter_In in Hi as [Hi Q].
  rewrite Hnone in Q by apply list_elem_of_In, Hi. discriminate.
Qed.

Lemma region_attrib_type element_type region_id region_type :
  region_attrib element_type region_id region_type !! "type"%string =
  if opt_str_truthy region_type && String.eqb element_type "TextRegion"
  then Some (default EmptyString region_type) else None.
Proof.
  unfold region_attrib.
  destruct (opt_str_truthy region_type && String.eqb element_type "TextRegion").
  - apply lookup_insert_eq.
  - apply lookup_singleton_ne. done.
Qed.

Lemma region_attrib_id element_type region_id region_type :
  region_attrib element_type region_id region_type !! "id"%string = Some region_id.
Proof.
  unfold region_attrib.
  destruct (opt_str_truthy region_type && String.eqb element_type "TextRegion").
  - rewrite lookup_insert_ne by done. apply lookup_singleton_eq.
  - apply lookup_singleton_eq.
Qed.

(** C4 (amended). When no candidate qualifies for a leaf, the fourth pass
    appends one new TextRegion to the children of Page, with id
    [r_orphanNNNN], whose children are its Coords and the TextLine of that
    leaf and nothing else. Its [type] attribute is the [parent_type] of the
    leaf's configuration, "paragraph" when that key is absent, and there is no
    [type] attribute when [parent_type] is the empty string. The candidates
    of the pass do not change, so the new region is never selected for a
    later leaf. *)
Theorem orphan_leaf_gets_own_region page st c li :
  (∀ ri, ri ∈ candidates st → qualifies (li_points li) ri = false) →
  handles_below (length (tree st)) (candidates st) →
  let parent_type := default "paragraph"%string (li_config li !! "parent_type") in
  let n := length (tree st) in
  let acc' := fourth_pass_step page (st, c) li in
  acc' = (with_tree (with_orphan_region page (tree st) c li) st, S c) ∧
  (∃ a, tree acc'.1 !! n = Some (mkElement "TextRegion" a None [S n; S (S n)]) ∧
        a !! "id"%string = Some ("r_orphan" +:+ fmt_04d c) ∧
        a !! "type"%string =
          match parent_type with EmptyString => None | _ => Some parent_type end) ∧
  tree acc'.1 !! S n = Some (coords_element (li_points li)) ∧
  tree acc'.1 !! S (S n) = Some (line_element (li_id li) (S (S n))) ∧
  (page < n → children (tree acc'.1 !!! page) = children (tree st !!! page) ++ [n]) ∧
  (∀ later li',
     find_best_region (li_points li')
       (candidates (fold_left (fourth_pass_step page) later acc').1) ≠ Some n).
Proof.
  intros Hnone Hbelow parent_type n acc'.
  assert (E : acc' = (with_tree (with_orphan_region page (tree st) c li) st, S c)).
  { apply fourth_pass_step_None, find_best_region_none_qualifies, Hnone. }
  assert (L : length (alter (add_child n) page (tree st)) = n) by apply length_alter.
  rewrite E. simpl. unfold with_orphan_region. fold n. fold parent_type.
  split; [reflexivity|]. split; [|split; [|split; [|split]]].
  - eexists. split; [|split].
    + rewrite lookup_app_r by lia. rewrite L, Nat.sub_diag. reflexivity.
    + apply region_attrib_id.
    + rewrite region_attrib_type. simpl. destruct parent_type; reflexivity.
  - rewrite lookup_app_r by lia. rewrite L.
    replace (S n - n) with 1 by lia. reflexivity.
  - rewrite lookup_app_r by lia. rewrite L.
    replace (S (S n) - n) with 2 by lia. reflexivity.
  - intros Hp. rewrite lookup_total_app_l by lia.
    rewrite list_lookup_total_alter. rewrite decide_True by (split; [reflexivity | exact Hp]).
    reflexivity.
  - intros later li' F.
    rewrite fourth_pass_candidates in F. simpl in F.
    apply find_best_region_elem in F as (ri & Hri & He).
    specialize (Hbelow ri n Hri He). lia.
Qed.

End LeafPlacement.

(** ** Third pass: the parent of a nestable region *)

Section RegionNesting.
Context {shapely : Shapely} {env : PyEnv}.

Lemma best_parent_loop_first_best child_points parents init :
  best_parent_loop child_points parents init =
  first_best (λ s k, Qltb k s)
    (λ ri, _calculate_containment_score child_points (ri_points ri))
    ri_element parents init.
Proof. reflexivity. Qed.

Lemma find_best_parent_spec t child_points parents threshold :
  materialised t parents →
  let score := λ ri, _calculate_containment_score child_points (ri_points ri) in
  (_find_best_parent t child_points parents threshold = None ∧
   ∀ ri, ri ∈ parents → (score ri <= threshold)%Q) ∨
  (∃ i ri, parents !! i = Some ri ∧
     _find_best_parent t child_points parents threshold = ri_element ri ∧
     is_Some (ri_element ri) ∧
     (threshold < score ri)%Q ∧
     (∀ j rj, parents !! j = Some rj → (score rj <= score ri)%Q) ∧
     (∀ j rj, j < i → parents !! j = Some rj → (score rj < score ri)%Q)).
Proof.
  intros Hmat score. unfold _find_best_parent.
  rewrite best_parent_loop_first_best. fold score.
  destruct (first_best_spec (λ s k, Qltb k s) score ri_element
              (λ a, Qltb_irrefl a) Qgtb_trans Qgtb_cotrans parents None threshold)
    as [[-> Hall] | (i & ri & Hi & -> & Hb & Hmax & Hfirst)].
  - left. split; [reflexivity|].
    intros ri Hri. apply Qltb_ge, Hall, Hri.
  - right. exists i, ri.
    destruct (Hmat ri (list_elem_of_lookup_2 _ _ _ Hi)) as (e & He & Ht).
    rewrite He. simpl. rewrite Ht, Hb. simpl.
    split; [exact Hi|]. split; [reflexivity|]. split; [eauto|].
    split; [apply Qltb_lt, Hb|]. split.
    + intros j rj Hj. apply Qltb_ge. eapply Hmax, Hj.
    + intros j rj Hlt Hj. apply Qltb_lt. eapply Hfirst; eassumption.
Qed.

Lemma second_pass_step_attach page st r :
  second_pass_step page st r = attach_region page r st.
Proof.
  unfold second_pass_step. rewrite add_region_closed. reflexivity.
Qed.

Lemma third_pass_step_Some page st orphans c p :
  _find_best_parent (tree st) (ri_points (heap st !!! c))
    (potential_parents st) T_region = Some p →
  third_pass_step page (st, orphans) c = (attach_region p c st, orphans).
Proof.
  intros F. unfold third_pass_step. fold (potential_parents st). rewrite F.
  rewrite add_region_closed. reflexivity.
Qed.

Lemma third_pass_step_None page st orphans c :
  _find_best_parent (tree st) (ri_points (heap st !!! c))
    (potential_parents st) T_region = None →
  third_pass_step page (st, orphans) c =
  (attach_region page c st, orphans ++ [ri_id (heap st !!! c)]).
Proof.
  intros F. unfold third_pass_step. fold (potential_parents st). rewrite F.
  rewrite add_region_closed. reflexivity.
Qed.

(** C2. A nestable region is created as a child of the first top-level
    region that reaches the greatest containment ratio, provided that ratio
    is strictly above 0.5; when no ratio is above 0.5 (so also when the best
    one is exactly 0.5) it is created directly under Page and counted as an
    orphan. *)
Theorem nestable_region_parent page st orphans c :
  materialised (tree st) (potential_parents st) →
  let child := heap st !!! c in
  let score := λ ri, _calculate_containment_score (ri_points child) (ri_points ri) in
  ((∀ ri, ri ∈ potential_parents st → (score ri <= 5 # 10)%Q) ∧
   third_pass_step page (st, orphans) c =
   (attach_region page c st, orphans ++ [ri_id child])) ∨
  (∃ i ri p, potential_parents st !! i = Some ri ∧ ri_element ri = Some p ∧
     (5 # 10 < score ri)%Q ∧
     (∀ j rj, potential_parents st !! j = Some rj → (score rj <= score ri)%Q) ∧
     (∀ j rj, j < i → potential_parents st !! j = Some rj →
        (score rj < score ri)%Q) ∧
     third_pass_step page (st, orphans) c = (attach_region p c st, orphans)).
Proof.
  intros Hmat child score.
  destruct (find_best_parent_spec (tree st) (ri_points child)
              (potential_parents st) T_region Hmat)
    as [[F Hall] | (i & ri & Hi & F & [p Hp] & Hb & Hmax & Hfirst)].
  - left. split; [exact Hall|]. apply third_pass_step_None, F.
  - right. exists i, ri, p. repeat split; try assumption.
    apply third_pass_step_Some. rewrite <- Hp. exact F.
Qed.

End RegionNesting.

(** ** The logging monad *)

Lemma M_bind_unfold {A B} (m : M A) (f : A → M B) :
  m ≫= f =
  match m_res m with
  | Ok a => mkM (m_log m ++ m_log (f a)) (m_res (f a))
  | Raise e => mkM (m_log m) (Raise e)
  end.
Proof. reflexivity. Qed.

Lemma M_eta {A} (m : M A) : mkM (m_log m) (m_res m) = m.
Proof. destruct m; reflexivity. Qed.

Lemma M_ret_bind {A B} (a : A) (f : A → M B) : mret a ≫= f = f a.
Proof. rewrite M_bind_unfold. simpl. apply M_eta. Qed.

Lemma M_bind_assoc {A B C} (m : M A) (f : A → M B) (g : B → M C) :
  (m ≫= f) ≫= g = m ≫= (λ a, f a ≫= g).
Proof.
  rewrite !M_bind_unfold. destruct (m_res m) as [a|e]; simpl; [|reflexivity].
  rewrite !M_bind_unfold. destruct (m_res (f a)) as [b|e]; simpl; [|reflexivity].
  rewrite app_assoc. reflexivity.
Qed.

Lemma m_res_bind {A B} (m : M A) (f : A → M B) :
  m_res (m ≫= f) = m_res m ≫= (λ a, m_res (f a)).
Proof. rewrite M_bind_unfold. destruct (m_res m); reflexivity. Qed.

Lemma m_log_bind_Ok {A B} (m : M A) (f : A → M B) a :
  m_res m = Ok a → m_log (m ≫= f) = m_log m ++ m_log (f a).
Proof. intros E. rewrite M_bind_unfold, E. reflexivity. Qed.

Lemma result_Ok_bind {A B} (a : A) (f : A → result B) : Ok a ≫= f = f a.
Proof. reflexivity. Qed.

Lemma for_each_cons {S A} (f : S → A → result S) x l s :
  for_each f (x :: l) s = f s x ≫= for_each f l.
Proof. reflexivity. Qed.

Lemma for_each_M_cons {S A} (f : S → A → M S) x l s :
  for_each_M f (x :: l) s = f s x ≫= for_each_M f l.
Proof. reflexivity. Qed.

Lemma enumerate_from_cons {A} i (x : A) l :
  enumerate_from i (x :: l) = (i, x) :: enumerate_from (S i) l.
Proof. reflexivity. Qed.

Lemma M_bind_ext {A B} (m : M A) (f g : A → M B) :
  (∀ a, f a = g a) → m ≫= f = m ≫= g.
Proof.
  intros E. rewrite !M_bind_unfold. destruct (m_res m); [rewrite E|]; reflexivity.
Qed.

Lemma for_each_M_app {S A} (f : S → A → M S) l1 l2 s :
  for_each_M f (l1 ++ l2) s = for_each_M f l1 s ≫= for_each_M f l2.
Proof.
  revert s. induction l1 as [|x l1 IH]; intros s.
  - exact (eq_sym (M_ret_bind s (for_each_M f l2))).
  - change (f s x ≫= for_each_M f (l1 ++ l2) =
            (f s x ≫= for_each_M f l1) ≫= for_each_M f l2).
    rewrite M_bind_assoc. apply M_bind_ext. intros s'. apply IH.
Qed.

Lemma enumerate_from_app {A} i (l1 l2 : list A) :
  enumerate_from i (l1 ++ l2) =
  enumerate_from i l1 ++ enumerate_from (i + length l1) l2.
Proof.
  revert i. induction l1 as [|x l1 IH]; intros i; simpl.
  - rewrite Nat.add_0_r. reflexivity.
  - rewrite IH. do 3 f_equal. lia.
Qed.

(** Replacing one element of the list by another on which the body of the
    loop does the same, or the same up to the log. *)
Lemma for_each_M_replace {S A} (f : S → nat * A → M S) i l1 a b l2 s :
  (∀ s', f s' (i + length l1, a) = f s' (i + length l1, b)) →
  for_each_M f (enumerate_from i (l1 ++ a :: l2)) s =
  for_each_M f (enumerate_from i (l1 ++ b :: l2)) s.
Proof.
  intros E. rewrite !enumerate_from_app, !for_each_M_app. simpl.
  apply M_bind_ext. intros s'. rewrite E. reflexivity.
Qed.

Lemma m_res_bind_ext {A B} (m : M A) (f g : A → M B) :
  (∀ a, m_res (f a) = m_res (g a)) → m_res (m ≫= f) = m_res (m ≫= g).
Proof.
  intros E. rewrite !m_res_bind. destruct (m_res m); simpl; [apply E | reflexivity].
Qed.

Lemma m_res_bind_congr {A B} (m m' : M A) (f : A → M B) :
  m_res m = m_res m' → m_res (m ≫= f) = m_res (m' ≫= f).
Proof. intros E. rewrite !m_res_bind, E. reflexivity. Qed.

Lemma for_each_M_replace_res {S A} (f : S → nat * A → M S) i l1 a b l2 s :
  (∀ s', m_res (f s' (i + length l1, a)) = m_res (f s' (i + length l1, b))) →
  m_res (for_each_M f (enumerate_from i (l1 ++ a :: l2)) s) =
  m_res (for_each_M f (enumerate_from i (l1 ++ b :: l2)) s).
Proof.
  intros E. rewrite !enumerate_from_app, !for_each_M_app. simpl.
  apply m_res_bind_ext. intros s'. apply m_res_bind_congr, E.
Qed.

(** ** First pass: lines that leave no record *)

Section FirstPass.
Context {builtins : PyBuiltins} {shapely : Shapely} {env : PyEnv}.
Variable mapping : gmap string (gmap string string).

Lemma mlift_Ok_bind {A B} (a : A) (f : A → M B) : mlift (Ok a) ≫= f = f a.
Proof. apply (M_ret_bind a f). Qed.

Lemma mlift_Raise_bind {A B} e (f : A → M B) :
  mlift (Raise e) ≫= f = mlift (Raise e).
Proof. reflexivity. Qed.

Lemma first_pass_step_blank page w h st idx line :
  strip line = EmptyString →
  first_pass_step mapping page w h st (idx, line) = mret st.
Proof. intros E. unfold first_pass_step. rewrite E. reflexivity. Qed.

Lemma parse_short line :
  length (split (strip line)) < 7 → _parse_yolo_label line = Ok (None, []).
Proof.
  intros L. unfold _parse_yolo_label.
  apply Nat.ltb_lt in L. rewrite L. reflexivity.
Qed.

Lemma first_pass_step_short page w h st idx line :
  length (split (strip line)) < 7 →
  first_pass_step mapping page w h st (idx, line) = mret st.
Proof.
  intros L. unfold first_pass_step.
  destruct (strip line) eqn:E; [reflexivity|].
  rewrite parse_short by (rewrite E; exact L).
  rewrite mlift_Ok_bind. reflexivity.
Qed.

Lemma parse_bad_class_id line e :
  7 ≤ length (split (strip line)) →
  py_int (split (strip line) !!! 0) = Raise e →
  _parse_yolo_label line = Raise e.
Proof.
  intros L E. unfold _parse_yolo_label.
  apply Nat.ltb_ge in L. rewrite L, E. reflexivity.
Qed.

Lemma range_from_1_head n : 7 ≤ n → ∃ rest, range 1 n 2 = 1 :: rest.
Proof.
  intros L. unfold range.
  destruct ((n - 1 + (2 - 1)) / 2) as [|k] eqn:K.
  - apply Nat.div_small_iff in K; lia.
  - simpl. eauto.
Qed.

Lemma parse_bad_first_coordinate line z e :
  7 ≤ length (split (strip line)) →
  py_int (split (strip line) !!! 0) = Ok z →
  py_float (split (strip line) !!! 1) = Raise e →
  _parse_yolo_label line = Raise e.
Proof.
  intros L E0 E1. unfold _parse_yolo_label.
  destruct (range_from_1_head _ L) as [rest ->].
  assert (L1 : (1 + 1 <? length (split (strip line))) = true)
    by (apply Nat.ltb_lt; lia).
  apply Nat.ltb_ge in L. rewrite L, E0, result_Ok_bind, for_each_cons.
  cbv beta. rewrite L1, E1. reflexivity.
Qed.

Lemma first_pass_step_raise page w h st idx line e :
  strip line ≠ EmptyString →
  _parse_yolo_label line = Raise e →
  first_pass_step mapping page w h st (idx, line) = mlift (Raise e).
Proof.
  intros N E. unfold first_pass_step.
  destruct (strip line) eqn:S; [done|]. rewrite E. reflexivity.
Qed.

Lemma first_pass_step_unmapped page w h st idx line class_id points abs_points :
  strip line ≠ EmptyString →
  _parse_yolo_label line = Ok (class_id, points) →
  points ≠ [] →
  _denormalize_points points w h = Ok abs_points →
  mapping !! str_of_class_id class_id = None →
  first_pass_step mapping page w h st (idx, line) =
  mkM [Warn_no_mapping class_id] (Ok st).
Proof.
  intros N P NE D U. unfold first_pass_step.
  destruct (strip line) eqn:S; [done|].
  rewrite P, mlift_Ok_bind.
  destruct points as [|pt points]; [done|].
  rewrite D, mlift_Ok_bind. rewrite U. simpl.
  rewrite decide_True by reflexivity. reflexivity.
Qed.

(** The rest of [convert_page] after the first pass. *)
Lemma convert_page_unfold lines img_name w h :
  convert_page mapping (Some lines) (Some (img_name, w, h)) =
  let tp := _create_page_element img_name w h in
  for_each_M (first_pass_step mapping tp.2 w h) (enumerate_from 0 lines)
    (mkState tp.1.1 [] [] [] [] []) ≫= λ st,
  second_pass tp.2 st ≫= λ st,
  third_pass tp.2 st ≫= λ st,
  fourth_pass tp.2 st ≫= λ st, mret (tree st).
Proof.
  unfold convert_page.
  destruct (_create_page_element img_name w h) as [[t root] page]. reflexivity.
Qed.

(** Two lines on which the first pass does the same can be exchanged. *)
Lemma convert_page_replace l1 a b l2 img_name w h :
  (∀ page st, first_pass_step mapping page w h st (length l1, a) =
              first_pass_step mapping page w h st (length l1, b)) →
  convert_page mapping (Some (l1 ++ a :: l2)) (Some (img_name, w, h)) =
  convert_page mapping (Some (l1 ++ b :: l2)) (Some (img_name, w, h)).
Proof.
  intros E. rewrite !convert_page_unfold. cbv zeta.
  rewrite (for_each_M_replace _ 0 l1 a b); [reflexivity|].
  intros s'. apply E.
Qed.

Lemma convert_page_replace_res l1 a b l2 img_name w h :
  (∀ page st, m_res (first_pass_step mapping page w h st (length l1, a)) =
              m_res (first_pass_step mapping page w h st (length l1, b))) →
  m_res (convert_page mapping (Some (l1 ++ a :: l2)) (Some (img_name, w, h))) =
  m_res (convert_page mapping (Some (l1 ++ b :: l2)) (Some (img_name, w, h))).
Proof.
  intros E. rewrite !convert_page_unfold. cbv zeta.
  apply m_res_bind_congr.
  apply (for_each_M_replace_res _ 0 l1 a b). intros s'. apply E.
Qed.

Lemma m_res_bind_Ok_inv {A B} (m : M A) (f : A → M B) b :
  m_res (m ≫= f) = Ok b → ∃ a, m_res m = Ok a.
Proof. rewrite m_res_bind. destruct (m_res m); [eauto | discriminate]. Qed.

Lemma m_log_bind_elem {A B} (m : M A) (f : A → M B) r :
  r ∈ m_log m → r ∈ m_log (m ≫= f).
Proof.
  intros E. rewrite M_bind_unfold. destruct (m_res m); simpl; [|exact E].
  apply elem_of_app. auto.
Qed.

(** When the conversion of the lines [l1] alone succeeds, the first pass
    reaches the line after them. *)
Lemma first_pass_prefix_ok l1 img_name w h t :
  m_res (convert_page mapping (Some l1) (Some (img_name, w, h))) = Ok t →
  ∃ s1, m_res (for_each_M
                 (first_pass_step mapping (_create_page_element img_name w h).2 w h)
                 (enumerate_from 0 l1)
                 (mkState (_create_page_element img_name w h).1.1 [] [] [] [] []))
        = Ok s1.
Proof.
  rewrite convert_page_unfold. cbv zeta. apply m_res_bind_Ok_inv.
Qed.

Lemma convert_page_raise_at l1 x l2 img_name w h t e :
  m_res (convert_page mapping (Some l1) (Some (img_name, w, h))) = Ok t →
  (∀ page st, m_res (first_pass_step mapping page w h st (length l1, x)) = Raise e) →
  m_res (convert_page mapping (Some (l1 ++ x :: l2)) (Some (img_name, w, h))) = Raise e.
Proof.
  intros Hok Hx. apply first_pass_prefix_ok in Hok as [s1 Hs1].
  rewrite convert_page_unfold. cbv zeta.
  rewrite m_res_bind, enumerate_from_app, for_each_M_app, m_res_bind, Hs1.
  rewrite result_Ok_bind, enumerate_from_cons, for_each_M_cons.
  rewrite m_res_bind, Hx. reflexivity.
Qed.

Lemma convert_page_log_at l1 x l2 img_name w h t r :
  m_res (convert_page mapping (Some l1) (Some (img_name, w, h))) = Ok t →
  (∀ page st, r ∈ m_log (first_pass_step mapping page w h st (length l1, x))) →
  r ∈ m_log (convert_page mapping (Some (l1 ++ x :: l2)) (Some (img_name, w, h))).
Proof.
  intros Hok Hx. apply first_pass_prefix_ok in Hok as [s1 Hs1].
  rewrite convert_page_unfold. cbv zeta.
  apply m_log_bind_elem.
  rewrite enumerate_from_app, for_each_M_app.
  rewrite (m_log_bind_Ok _ _ _ Hs1). apply elem_of_app. right.
  rewrite enumerate_from_cons, for_each_M_cons. apply m_log_bind_elem, Hx.
Qed.

Lemma parse_raise_nonempty line e :
  _parse_yolo_label line = Raise e → strip line ≠ EmptyString.
Proof.
  intros P E. unfold _parse_yolo_label in P. rewrite E in P. discriminate.
Qed.

(** C5 (amended). A label line with fewer than 7 whitespace-separated
    tokens (fewer than 3 point pairs) is skipped without error: the document
    comes out as if the line were blank. A line with 7 or more tokens is
    handed to [int] and [float]: when [int] rejects the class token, or
    [float] the first coordinate, [_parse_yolo_label] raises, and whatever
    [_parse_yolo_label] raises leaves [convert_page]. *)
Theorem short_lines_skipped_bad_tokens_raise (line : string) :
  (length (split (strip line)) < 7 →
     _parse_yolo_label line = Ok (None, []) ∧
     (∀ page w h st idx,
        first_pass_step mapping page w h st (idx, line) = mret st) ∧
     (∀ l1 l2 img,
        convert_page mapping (Some (l1 ++ line :: l2)) img =
        convert_page mapping (Some (l1 ++ EmptyString :: l2)) img)) ∧
  (∀ e, 7 ≤ length (split (strip line)) →
     (py_int (split (strip line) !!! 0) = Raise e ∨
      ∃ z, py_int (split (strip line) !!! 0) = Ok z ∧
           py_float (split (strip line) !!! 1) = Raise e) →
     _parse_yolo_label line = Raise e) ∧
  (∀ e, _parse_yolo_label line = Raise e →
     ∀ l1 l2 img_name w h t,
       m_res (convert_page mapping (Some l1) (Some (img_name, w, h))) = Ok t →
       m_res (convert_page mapping (Some (l1 ++ line :: l2))
                (Some (img_name, w, h))) = Raise e).
Proof.
  split; [|split].
  - intros L. split; [apply parse_short, L|]. split.
    + intros. apply first_pass_step_short, L.
    + intros l1 l2 [[[img_name w] h]|]; [|reflexivity].
      apply convert_page_replace. intros page st.
      rewrite first_pass_step_short by exact L.
      rewrite first_pass_step_blank by reflexivity. reflexivity.
  - intros e L [E | (z & E0 & E1)].
    + apply parse_bad_class_id; assumption.
    + eapply parse_bad_first_coordinate; eassumption.
  - intros e P l1 l2 img_name w h t Hok.
    eapply convert_page_raise_at; [exact Hok|].
    intros page st.
    rewrite first_pass_step_raise with (e := e);
      [reflexivity | eapply parse_raise_nonempty, P | exact P].
Qed.

(** C7. A record whose class id has no entry in the mapping is dropped:
    the first pass logs the warning and leaves every list and the document
    as they were, so the conversion ends as it would with a blank line in
    its place (same document, or same exception from another line), and the
    warning is in the log whenever the lines before it convert. *)
Theorem unmapped_record_dropped line class_id points abs_points img_name w h :
  _parse_yolo_label line = Ok (class_id, points) →
  points ≠ [] →
  _denormalize_points points w h = Ok abs_points →
  mapping !! str_of_class_id class_id = None →
  (∀ page st idx,
     first_pass_step mapping page w h st (idx, line) =
     mkM [Warn_no_mapping class_id] (Ok st)) ∧
  (∀ l1 l2,
     m_res (convert_page mapping (Some (l1 ++ line :: l2)) (Some (img_name, w, h))) =
     m_res (convert_page mapping (Some (l1 ++ EmptyString :: l2))
              (Some (img_name, w, h)))) ∧
  (∀ l1 l2 t,
     m_res (convert_page mapping (Some l1) (Some (img_name, w, h))) = Ok t →
     Warn_no_mapping class_id ∈
       m_log (convert_page mapping (Some (l1 ++ line :: l2)) (Some (img_name, w, h)))).
Proof.
  intros P NE D U.
  assert (N : strip line ≠ EmptyString).
  { intros E. unfold _parse_yolo_label in P. rewrite E in P. simpl in P.
    injection P as _ <-. done. }
  assert (St : ∀ page st idx,
             first_pass_step mapping page w h st (idx, line) =
             mkM [Warn_no_mapping class_id] (Ok st)).
  { intros. eapply first_pass_step_unmapped; eassumption. }
  split; [exact St|]. split.
  - intros l1 l2. apply convert_page_replace_res. intros page st.
    rewrite St, first_pass_step_blank by reflexivity. reflexivity.
  - intros l1 l2 t Hok. eapply convert_page_log_at; [exact Hok|].
    intros page st. rewrite St. simpl. apply list_elem_of_here.
Qed.

Lemma first_pass_step_cases page w h st idx line :
  first_pass_step mapping page w h st (idx, line) =
  match strip line with
  | EmptyString => mret st
  | _ =>
    match _parse_yolo_label line with
    | Raise e => mlift (Raise e)
    | Ok (class_id, []) => mret st
    | Ok (class_id, points) =>
      match _denormalize_points points w h with
      | Raise e => mlift (Raise e)
      | Ok abs_points => store_record mapping page st idx class_id abs_points
      end
    end
  end.
Proof.
  unfold first_pass_step.
  destruct (strip line); [reflexivity|].
  destruct (_parse_yolo_label line) as [[class_id points]|e]; [|reflexivity].
  rewrite mlift_Ok_bind.
  destruct points as [|pt points]; [reflexivity|].
  destruct (_denormalize_points (pt :: points) w h) as [abs_points|e];
    [|reflexivity].
  rewrite mlift_Ok_bind. unfold store_record.
  destruct (decide (default ∅ (mapping !! str_of_class_id class_id) = ∅));
    [reflexivity|].
  repeat (match goal with |- context [if ?b then _ else _] => destruct b end;
          try reflexivity).
  rewrite add_region_closed. reflexivity.
Qed.

End FirstPass.

(** ** Related runs *)

Lemma M_rel_ret {A B} (R : A → B → Prop) a b : R a b → M_rel R (mret a) (mret b).
Proof. intros. split; [reflexivity | assumption]. Qed.

Lemma M_rel_bind {A B A' B'} (R : A → B → Prop) (R' : A' → B' → Prop)
    (m1 : M A) (m2 : M B) (f : A → M A') (g : B → M B') :
  M_rel R m1 m2 → (∀ a b, R a b → M_rel R' (f a) (g b)) →
  M_rel R' (m1 ≫= f) (m2 ≫= g).
Proof.
  intros [L E] Hfg. rewrite !M_bind_unfold.
  destruct (m_res m1) as [a|e1], (m_res m2) as [b|e2]; try done.
  destruct (Hfg a b E) as [L' E']. split; simpl; [congruence | exact E'].
Qed.

Lemma M_rel_for_each {S S' A} (R : S → S' → Prop)
    (f : S → A → M S) (g : S' → A → M S') l s s' :
  (∀ s s' x, R s s' → M_rel R (f s x) (g s' x)) → R s s' →
  M_rel R (for_each_M f l s) (for_each_M g l s').
Proof.
  intros Hfg. revert s s'. induction l as [|x l IH]; intros s s' Hs.
  - apply M_rel_ret, Hs.
  - rewrite !for_each_M_cons. eapply M_rel_bind; [apply Hfg, Hs | apply IH].
Qed.

Lemma M_rel_eq {A} (m1 m2 : M A) : M_rel eq m1 m2 → m1 = m2.
Proof.
  destruct m1 as [l1 r1], m2 as [l2 r2]. intros [L E]. simpl in *. subst.
  destruct r1, r2; try done; congruence.
Qed.

Lemma M_rel_mlog {A B} (R : A → B → Prop) r a b :
  R a b → M_rel R (mlog r ≫= λ _, mret a) (mlog r ≫= λ _, mret b).
Proof. intros. split; [reflexivity | assumption]. Qed.

Lemma fold_left_ext_in {A B} (f g : A → B → A) l a :
  (∀ a x, f a x = g a x) → fold_left f l a = fold_left g l a.
Proof.
  intros E. revert a. induction l as [|x l IH]; intros a; [reflexivity|].
  simpl. rewrite E. apply IH.
Qed.

Section ClosedSteps.
Context {shapely : Shapely} {env : PyEnv}.

Lemma third_pass_step_closed page st orphans c :
  third_pass_step page (st, orphans) c =
  match _find_best_parent (tree st) (ri_points (heap st !!! c))
          (potential_parents st) T_region with
  | Some p => (attach_region p c st, orphans)
  | None => (attach_region page c st, orphans ++ [ri_id (heap st !!! c)])
  end.
Proof.
  destruct (_find_best_parent _ _ _ _) as [p|] eqn:F.
  - apply third_pass_step_Some, F.
  - apply third_pass_step_None, F.
Qed.

Lemma fourth_pass_step_closed page st c li :
  fourth_pass_step page (st, c) li =
  match find_best_region (li_points li) (candidates st) with
  | Some r => (with_tree (with_line_in r (tree st) li) st, c)
  | None => (with_tree (with_orphan_region page (tree st) c li) st, S c)
  end.
Proof.
  destruct (find_best_region _ _) as [r|] eqn:F.
  - apply fourth_pass_step_Some, F.
  - apply fourth_pass_step_None, F.
Qed.

Lemma with_lines_eta st : with_lines (text_lines st) st = st.
Proof. destruct st; reflexivity. Qed.

Lemma second_pass_fold_with_lines page ls l st :
  fold_left (second_pass_step page) l (with_lines ls st) =
  with_lines ls (fold_left (second_pass_step page) l st).
Proof.
  revert st. induction l as [|r l IH]; intros st; [reflexivity|].
  simpl. rewrite <- IH. f_equal; rewrite ?second_pass_step_attach; reflexivity.
Qed.

Lemma third_pass_fold_with_lines page ls l st orphans :
  fold_left (third_pass_step page) l (with_lines ls st, orphans) =
  (with_lines ls (fold_left (third_pass_step page) l (st, orphans)).1,
   (fold_left (third_pass_step page) l (st, orphans)).2).
Proof.
  revert st orphans. induction l as [|c l IH]; intros st orphans; [reflexivity|].
  simpl. rewrite !third_pass_step_closed.
  change (tree (with_lines ls st)) with (tree st).
  change (heap (with_lines ls st)) with (heap st).
  change (potential_parents (with_lines ls st)) with (potential_parents st).
  destruct (_find_best_parent _ _ _ _) as [p|].
  - apply (IH (attach_region p c st)).
  - apply (IH (attach_region page c st)).
Qed.

Lemma same_leaf_with_line_in r t a b :
  same_leaf a b → with_line_in r t a = with_line_in r t b.
Proof. intros (P & I & _). unfold with_line_in. rewrite P, I. reflexivity. Qed.

Lemma same_leaf_with_orphan_region page t c a b :
  same_leaf a b → with_orphan_region page t c a = with_orphan_region page t c b.
Proof.
  intros (P & I & C). unfold with_orphan_region. rewrite P, I, C. reflexivity.
Qed.

Lemma fourth_pass_fold_same_leaves page ls l l' st c :
  Forall2 same_leaf l l' →
  fold_left (fourth_pass_step page) l' (with_lines ls st, c) =
  (with_lines ls (fold_left (fourth_pass_step page) l (st, c)).1,
   (fold_left (fourth_pass_step page) l (st, c)).2).
Proof.
  intros Hl. revert st c. induction Hl as [|a b l l' Hab Hl IH]; intros st c;
    [reflexivity|].
  simpl. rewrite !fourth_pass_step_closed.
  change (tree (with_lines ls st)) with (tree st).
  change (candidates (with_lines ls st)) with (candidates st).
  destruct Hab as (P & I & C). rewrite <- P.
  destruct (find_best_region _ _) as [r|].
  - rewrite (same_leaf_with_line_in r (tree st) a b) by done.
    apply (IH (with_tree (with_line_in r (tree st) b) st)).
  - rewrite (same_leaf_with_orphan_region page (tree st) c a b) by done.
    apply (IH (with_tree (with_orphan_region page (tree st) c b) st)).
Qed.

Lemma fold_with_lines_same_leaves (P : pass_state → pass_state) s s' :
  (∀ ls st, P (with_lines ls st) = with_lines ls (P st)) →
  same_leaves s s' → same_leaves (P s) (P s').
Proof.
  intros HP [E F]. rewrite E, HP. split; [reflexivity|].
  simpl. rewrite <- (with_lines_eta s), HP. exact F.
Qed.

Lemma second_pass_same_leaves page s s' :
  same_leaves s s' →
  M_rel same_leaves (second_pass page s) (second_pass page s').
Proof.
  intros Hs. unfold second_pass.
  assert (parent_text_regions s' = parent_text_regions s) as ->
    by (destruct Hs as [-> _]; reflexivity).
  apply M_rel_mlog.
  apply (fold_with_lines_same_leaves
           (λ st, fold_left (second_pass_step page) (parent_text_regions s) st));
    [|exact Hs].
  intros. apply second_pass_fold_with_lines.
Qed.

Lemma third_pass_same_leaves page s s' :
  same_leaves s s' →
  M_rel same_leaves (third_pass page s) (third_pass page s').
Proof.
  intros Hs. unfold third_pass.
  assert (child_text_regions s' = child_text_regions s) as ->
    by (destruct Hs as [-> _]; reflexivity).
  assert (Hr : same_leaves
            (fold_left (third_pass_step page) (child_text_regions s) (s, [])).1
            (fold_left (third_pass_step page) (child_text_regions s) (s', [])).1
          ∧ (fold_left (third_pass_step page) (child_text_regions s) (s, [])).2 =
            (fold_left (third_pass_step page) (child_text_regions s) (s', [])).2).
  { destruct Hs as [E F]. rewrite E, third_pass_fold_with_lines. simpl.
    split; [|reflexivity]. split; [reflexivity|]. simpl.
    pose proof (third_pass_fold_with_lines page (text_lines s)
                  (child_text_regions s) s []) as T.
    rewrite with_lines_eta in T. rewrite T at 1. exact F. }
  destruct (fold_left (third_pass_step page) (child_text_regions s) (s, []))
    as [r o], (fold_left (third_pass_step page) (child_text_regions s) (s', []))
    as [r' o'].
  simpl in Hr. destruct Hr as [Hr <-].
  destruct o; [apply (M_rel_mlog same_leaves _ r r' Hr)|].
  split; [reflexivity|]. exact Hr.
Qed.

Lemma fourth_pass_fold_text_lines page l acc :
  text_lines (fold_left (fourth_pass_step page) l acc).1 = text_lines acc.1.
Proof.
  revert acc. induction l as [|li l IH]; intros [st c]; [reflexivity|].
  simpl. rewrite IH, fourth_pass_step_closed.
  destruct (find_best_region _ _); reflexivity.
Qed.

Lemma fourth_pass_same_leaves page s s' :
  same_leaves s s' →
  M_rel (λ a b, tree a = tree b) (fourth_pass page s) (fourth_pass page s').
Proof.
  intros [E F]. unfold fourth_pass.
  pose proof (fourth_pass_fold_same_leaves page (text_lines s') _ _ s 0 F) as T.
  rewrite <- E in T. rewrite T.
  pose proof (fourth_pass_fold_text_lines page (text_lines s) (s, 0)) as Hr.
  destruct (fold_left (fourth_pass_step page) (text_lines s) (s, 0)) as [r c].
  simpl in Hr |- *. rewrite Hr.
  rewrite <- (Forall2_length _ _ _ F).
  destruct F as [|a b l l' Hab F]; split; reflexivity.
Qed.

End ClosedSteps.

(** ** A configuration without the `element` key *)

Section MissingElement.
Context {builtins : PyBuiltins} {shapely : Shapely} {env : PyEnv}.
Variable mapping : gmap string (gmap string string).
Variable k : string.
Variable c : gmap string string.

Hypothesis entry : mapping !! k = Some c.
Hypothesis entry_nonempty : c ≠ ∅.
Hypothesis entry_no_element : c !! "element"%string = None.

(** The same mapping with the element type of the entry written out. *)
Let explicit : gmap string (gmap string string) :=
  <[k := <["element"%string := "TextLine"%string]> c]> mapping.

Lemma store_record_same_leaves page s s' idx class_id abs_points :
  same_leaves s s' →
  M_rel same_leaves (store_record mapping page s idx class_id abs_points)
    (store_record explicit page s' idx class_id abs_points).
Proof.
  intros Hs. unfold store_record, explicit.
  destruct (decide (str_of_class_id class_id = k)) as [->|Hneq].
  - rewrite entry, lookup_insert_eq. simpl default.
    rewrite decide_False by exact entry_nonempty.
    rewrite decide_False by apply insert_non_empty.
    rewrite entry_no_element, lookup_insert_eq. simpl.
    apply M_rel_ret. destruct Hs as [E F]. split.
    + rewrite E. reflexivity.
    + simpl. apply Forall2_app; [exact F|].
      constructor; [|constructor].
      split; [reflexivity|]. split; [reflexivity|].
      simpl. rewrite lookup_insert_ne by done. reflexivity.
  - rewrite lookup_insert_ne by congruence.
    assert (Hsame : ∀ f : pass_state → pass_state,
              (∀ ls st, f (with_lines ls st) = with_lines ls (f st)) →
              M_rel same_leaves (mret (f s)) (mret (f s'))).
    { intros f Hf. apply M_rel_ret, fold_with_lines_same_leaves; assumption. }
    set (cfg := default ∅ (mapping !! str_of_class_id class_id)).
    destruct (decide (cfg = ∅)); [split; [reflexivity | exact Hs]|].
    destruct (String.eqb (default "TextLine"%string (cfg !! "element")) "TextLine").
    { apply M_rel_ret. destruct Hs as [E F]. split.
      - rewrite E. reflexivity.
      - simpl. apply Forall2_app; [exact F|].
        constructor; [|constructor]. done. }
    destruct (String.eqb (default "TextLine"%string (cfg !! "element")) "TextRegion").
    { destruct (String.eqb (default EmptyString (cfg !! "parent")) "TextRegion").
      - apply (Hsame (λ st, mkState (tree st) (heap st ++ [_])
                  (parent_text_regions st) (child_text_regions st ++ [length (heap st)])
                  (text_lines st) (all_text_regions st))).
        reflexivity.
      - apply (Hsame (λ st, mkState (tree st) (heap st ++ [_])
                  (parent_text_regions st ++ [length (heap st)]) (child_text_regions st)
                  (text_lines st) (all_text_regions st))).
        reflexivity. }
    destruct (bool_decide _).
    + apply (Hsame (λ st, with_tree
                (alter (add_child (length (tree st))) page (tree st) ++ [_; _]) st)).
      reflexivity.
    + apply M_rel_ret, Hs.
Qed.

Lemma first_pass_step_same_leaves page w h s s' x :
  same_leaves s s' →
  M_rel same_leaves (first_pass_step mapping page w h s x)
    (first_pass_step explicit page w h s' x).
Proof.
  intros Hs. destruct x as [idx line]. rewrite !first_pass_step_cases.
  destruct (strip line); [apply M_rel_ret, Hs|].
  destruct (_parse_yolo_label line) as [[class_id points]|e]; [|done].
  destruct points as [|pt points]; [apply M_rel_ret, Hs|].
  destruct (_denormalize_points (pt :: points) w h) as [abs_points|e]; [|done].
  apply store_record_same_leaves, Hs.
Qed.

(** C10. A record whose class id maps to a non-empty configuration without
    the `element` key is stored as a TextLine leaf (it is neither dropped nor
    made a region), and the whole conversion is the one obtained with
    "element": "TextLine" written in that configuration. *)
Theorem missing_element_defaults_to_text_line :
  (∀ page st idx class_id abs_points,
     str_of_class_id class_id = k →
     store_record mapping page st idx class_id abs_points =
     mret (with_lines
             (text_lines st ++ [mkLineInfo abs_points ("l" +:+ fmt_04d idx) c])
             st)) ∧
  (∀ page w h st idx line class_id pt points abs_points,
     _parse_yolo_label line = Ok (class_id, pt :: points) →
     _denormalize_points (pt :: points) w h = Ok abs_points →
     str_of_class_id class_id = k →
     first_pass_step mapping page w h st (idx, line) =
     mret (with_lines
             (text_lines st ++ [mkLineInfo abs_points ("l" +:+ fmt_04d idx) c])
             st)) ∧
  (∀ label_file image_file,
     convert_page mapping label_file image_file =
     convert_page explicit label_file image_file).
Proof.
  assert (St : ∀ page st idx class_id abs_points,
     str_of_class_id class_id = k →
     store_record mapping page st idx class_id abs_points =
     mret (with_lines
             (text_lines st ++ [mkLineInfo abs_points ("l" +:+ fmt_04d idx) c])
             st)).
  { intros page st idx class_id abs_points K. unfold store_record.
    rewrite K, entry. simpl default.
    rewrite decide_False by exact entry_nonempty.
    rewrite entry_no_element. reflexivity. }
  split; [exact St|]. split.
  - intros page w h st idx line class_id pt points abs_points P D K.
    rewrite first_pass_step_cases.
    destruct (strip line) eqn:E.
    { unfold _parse_yolo_label in P. rewrite E in P. discriminate. }
    rewrite P, D. apply St, K.
  - intros [lines|] [[[img_name w] h]|]; try reflexivity.
    rewrite !convert_page_unfold. cbv zeta.
    apply M_rel_eq.
    eapply M_rel_bind with (R := same_leaves).
    { apply M_rel_for_each.
      - intros. apply first_pass_step_same_leaves. assumption.
      - split; [reflexivity | constructor]. }
    intros a b Hab. eapply M_rel_bind; [apply second_pass_same_leaves, Hab|].
    clear a b Hab. intros a b Hab.
    eapply M_rel_bind; [apply third_pass_same_leaves, Hab|].
    clear a b Hab. intros a b Hab.
    eapply M_rel_bind; [apply fourth_pass_same_leaves, Hab|].
    clear a b Hab. intros a b Hab. apply M_rel_ret, Hab.
Qed.

End MissingElement.

(** ** Runs that differ in the clock and in the uuid source *)

Lemma M_map_bind {A B A' B'} (h : A → A') (h' : B → B') (m : M A)
    (f : A → M B) (g : A' → M B') :
  (∀ a, M_map h' (f a) = g (h a)) →
  M_map h' (m ≫= f) = M_map h m ≫= g.
Proof.
  intros E. unfold M_map. rewrite !M_bind_unfold. simpl.
  destruct (m_res m) as [a|e]; simpl; [|reflexivity].
  rewrite <- E. reflexivity.
Qed.

Lemma M_map_ret {A B} (h : A → B) a : M_map h (mret a) = mret (h a).
Proof. reflexivity. Qed.

Lemma M_map_for_each {S S' A} (h : S → S') (f : S → A → M S)
    (g : S' → A → M S') l s :
  (∀ s x, M_map h (f s x) = g (h s) x) →
  M_map h (for_each_M f l s) = for_each_M g l (h s).
Proof.
  intros E. revert s. induction l as [|x l IH]; intros s; [reflexivity|].
  rewrite !for_each_M_cons. rewrite (M_map_bind h h _ _ (for_each_M g l)).
  - rewrite E. reflexivity.
  - exact IH.
Qed.

Lemma erase_timestamp_no_text e : text e = None → erase_timestamp e = e.
Proof.
  intros T. unfold erase_timestamp. destruct e as [tg a tx ch]. simpl in *.
  subst. destruct (_ || _); reflexivity.
Qed.

Lemma erase_timestamp_add_child n e :
  erase_timestamp (add_child n e) = add_child n (erase_timestamp e).
Proof.
  unfold erase_timestamp, add_child. simpl. destruct (_ || _); reflexivity.
Qed.

Lemma erase_timestamp_children e : children (erase_timestamp e) = children e.
Proof. unfold erase_timestamp. destruct (_ || _); reflexivity. Qed.

Lemma erase_grow n p (t es : etree) :
  Forall (λ e, text e = None) es →
  erase_timestamp <$> (alter (add_child n) p t ++ es) =
  alter (add_child n) p (erase_timestamp <$> t) ++ es.
Proof.
  intros Hes. rewrite fmap_app. f_equal.
  - apply list_fmap_alter. apply Forall_forall. intros e _.
    apply erase_timestamp_add_child.
  - induction Hes as [|e es He Hes IH]; [reflexivity|].
    simpl. rewrite erase_timestamp_no_text by exact He. f_equal. exact IH.
Qed.

Lemma erase_truthy t o :
  opt_element_truthy (erase_timestamp <$> t) o = opt_element_truthy t o.
Proof.
  destruct o as [e|]; [|reflexivity]. unfold opt_element_truthy, element_truthy.
  destruct (decide (e < length t)) as [L|L].
  - rewrite (list_lookup_total_fmap erase_timestamp t e L).
    rewrite erase_timestamp_children. reflexivity.
  - rewrite !list_lookup_total_alt.
    rewrite list_lookup_fmap.
    rewrite (lookup_ge_None_2 t e) by lia. reflexivity.
Qed.

Section Rerun.
Context {builtins : PyBuiltins} {shapely : Shapely}.

Lemma without_timestamps_attach p c st :
  without_timestamps (attach_region p c st) =
  attach_region p c (without_timestamps st).
Proof.
  unfold without_timestamps, attach_region, with_tree. simpl.
  rewrite erase_grow by (repeat constructor). rewrite length_fmap. reflexivity.
Qed.

Lemma without_timestamps_line r st li :
  without_timestamps (with_tree (with_line_in r (tree st) li) st) =
  with_tree (with_line_in r (tree (without_timestamps st)) li)
    (without_timestamps st).
Proof.
  unfold without_timestamps, with_line_in, with_tree. simpl.
  rewrite erase_grow by (repeat constructor). rewrite length_fmap. reflexivity.
Qed.

Lemma without_timestamps_orphan page c st li :
  without_timestamps (with_tree (with_orphan_region page (tree st) c li) st) =
  with_tree (with_orphan_region page (tree (without_timestamps st)) c li)
    (without_timestamps st).
Proof.
  unfold without_timestamps, with_orphan_region, with_tree. simpl.
  rewrite erase_grow by (repeat constructor). rewrite length_fmap. reflexivity.
Qed.

Lemma find_best_parent_erase t child_points parents threshold :
  _find_best_parent (erase_timestamp <$> t) child_points parents threshold =
  _find_best_parent t child_points parents threshold.
Proof.
  unfold _find_best_parent. destruct (best_parent_loop _ _ _) as [bp bs].
  rewrite erase_truthy. reflexivity.
Qed.

Lemma store_record_erase mapping page st idx class_id abs_points :
  M_map without_timestamps (store_record mapping page st idx class_id abs_points) =
  store_record mapping page (without_timestamps st) idx class_id abs_points.
Proof.
  unfold store_record.
  destruct (decide (default ∅ (mapping !! str_of_class_id class_id) = ∅));
    [reflexivity|].
  repeat (match goal with |- context [if ?b then _ else _] => destruct b end;
          try reflexivity).
  rewrite M_map_ret. f_equal.
  unfold without_timestamps, with_tree. simpl.
  rewrite erase_grow by (repeat constructor). rewrite length_fmap. reflexivity.
Qed.

Lemma first_pass_step_erase (env1 env2 : PyEnv) mapping page w h st x :
  M_map without_timestamps (first_pass_step (env := env1) mapping page w h st x) =
  first_pass_step (env := env2) mapping page w h (without_timestamps st) x.
Proof.
  destruct x as [idx line]. rewrite !first_pass_step_cases.
  destruct (strip line); [reflexivity|].
  destruct (_parse_yolo_label line) as [[class_id points]|e]; [|reflexivity].
  destruct points as [|pt points]; [reflexivity|].
  destruct (_denormalize_points (pt :: points) w h) as [abs_points|e];
    [|reflexivity].
  apply store_record_erase.
Qed.

Lemma second_pass_fold_erase (env1 env2 : PyEnv) page l st :
  without_timestamps (fold_left (second_pass_step (env := env1) page) l st) =
  fold_left (second_pass_step (env := env2) page) l (without_timestamps st).
Proof.
  revert st. induction l as [|r l IH]; intros st; [reflexivity|].
  simpl. rewrite IH. f_equal. rewrite !second_pass_step_attach.
  apply without_timestamps_attach.
Qed.

Lemma second_pass_erase (env1 env2 : PyEnv) page st :
  M_map without_timestamps (second_pass (env := env1) page st) =
  second_pass (env := env2) page (without_timestamps st).
Proof.
  unfold second_pass, M_map. simpl.
  rewrite (second_pass_fold_erase env1 env2). reflexivity.
Qed.

Lemma third_pass_fold_erase (env1 env2 : PyEnv) page l st orphans :
  fold_left (third_pass_step (env := env2) page) l (without_timestamps st, orphans) =
  (without_timestamps (fold_left (third_pass_step (env := env1) page) l (st, orphans)).1,
   (fold_left (third_pass_step (env := env1) page) l (st, orphans)).2).
Proof.
  revert st orphans. induction l as [|c l IH]; intros st orphans; [reflexivity|].
  simpl. rewrite !third_pass_step_closed.
  change (heap (without_timestamps st)) with (heap st).
  change (potential_parents (without_timestamps st)) with (potential_parents st).
  change (tree (without_timestamps st)) with (erase_timestamp <$> tree st).
  rewrite find_best_parent_erase.
  destruct (_find_best_parent _ _ _ _) as [p|];
    rewrite <- without_timestamps_attach; apply IH.
Qed.

Lemma third_pass_erase (env1 env2 : PyEnv) page st :
  M_map without_timestamps (third_pass (env := env1) page st) =
  third_pass (env := env2) page (without_timestamps st).
Proof.
  unfold third_pass.
  change (child_text_regions (without_timestamps st)) with (child_text_regions st).
  rewrite (third_pass_fold_erase env1 env2).
  destruct (fold_left (third_pass_step page) (child_text_regions st) (st, []))
    as [r o].
  destruct o; reflexivity.
Qed.

Lemma fourth_pass_fold_erase (env1 env2 : PyEnv) page l st c :
  fold_left (fourth_pass_step (env := env2) page) l (without_timestamps st, c) =
  (without_timestamps (fold_left (fourth_pass_step (env := env1) page) l (st, c)).1,
   (fold_left (fourth_pass_step (env := env1) page) l (st, c)).2).
Proof.
  revert st c. induction l as [|li l IH]; intros st c; [reflexivity|].
  simpl. rewrite !fourth_pass_step_closed.
  change (candidates (without_timestamps st)) with (candidates st).
  destruct (find_best_region _ _) as [r|].
  - rewrite <- without_timestamps_line. apply IH.
  - rewrite <- without_timestamps_orphan. apply IH.
Qed.

Lemma fourth_pass_erase (env1 env2 : PyEnv) page st :
  M_map without_timestamps (fourth_pass (env := env1) page st) =
  fourth_pass (env := env2) page (without_timestamps st).
Proof.
  unfold fourth_pass.
  change (text_lines (without_timestamps st)) with (text_lines st).
  rewrite (fourth_pass_fold_erase env1 env2).
  pose proof (fourth_pass_fold_text_lines (env := env1) page (text_lines st) (st, 0)) as Hr.
  destruct (fold_left (fourth_pass_step page) (text_lines st) (st, 0)) as [r c].
  simpl in Hr |- *.
  change (text_lines (without_timestamps r)) with (text_lines r).
  destruct (text_lines r); reflexivity.
Qed.

Lemma later_passes_erase (env1 env2 : PyEnv) page st :
  M_map erase_timestamps (later_passes (env := env1) page st) =
  later_passes (env := env2) page (without_timestamps st).
Proof.
  unfold later_passes.
  rewrite <- (second_pass_erase env1 env2). apply M_map_bind. clear st. intros st.
  rewrite <- (third_pass_erase env1 env2). apply M_map_bind. clear st. intros st.
  rewrite <- (fourth_pass_erase env1 env2). apply M_map_bind. clear st. intros st.
  reflexivity.
Qed.

Lemma convert_page_passes (env0 : PyEnv) mapping lines img_name w h :
  convert_page (env := env0) mapping (Some lines) (Some (img_name, w, h)) =
  for_each_M
    (first_pass_step (env := env0) mapping
       (_create_page_element (env := env0) img_name w h).2 w h)
    (enumerate_from 0 lines)
    (mkState (_create_page_element (env := env0) img_name w h).1.1 [] [] [] [] [])
  ≫= later_passes (env := env0) (_create_page_element (env := env0) img_name w h).2.
Proof. apply convert_page_unfold. Qed.

Lemma convert_page_erase (env1 env2 : PyEnv) mapping lines img_name w h :
  M_map erase_timestamps
    (convert_page (env := env1) mapping (Some lines) (Some (img_name, w, h))) =
  for_each_M
    (first_pass_step (env := env2) mapping
       (_create_page_element (env := env1) img_name w h).2 w h)
    (enumerate_from 0 lines)
    (mkState
       (erase_timestamps (_create_page_element (env := env1) img_name w h).1.1)
       [] [] [] [] [])
  ≫= later_passes (env := env2) (_create_page_element (env := env1) img_name w h).2.
Proof.
  rewrite convert_page_passes.
  set (tp := _create_page_element img_name w h).
  change (mkState (erase_timestamps tp.1.1) [] [] [] [] [])
    with (without_timestamps (mkState tp.1.1 [] [] [] [] [])).
  rewrite <- (M_map_for_each without_timestamps
                (first_pass_step (env := env1) mapping tp.2 w h)).
  - apply M_map_bind. intros st. apply later_passes_erase.
  - intros st x. apply first_pass_step_erase.
Qed.

(** C9. Two runs of [convert_page] on the same label lines, image name and
    dimensions and mapping, under any two clocks and uuid sources, write the
    same log and end alike: with the same exception, or with documents that
    are equal element by element (tags, attributes with the ids, coordinates,
    children and their order) once the text of Created and LastChange is
    forgotten. *)
Theorem rerun_same_document (env1 env2 : PyEnv) mapping label_file image_file :
  M_map erase_timestamps
    (convert_page (env := env1) mapping label_file image_file) =
  M_map erase_timestamps
    (convert_page (env := env2) mapping label_file image_file).
Proof.
  destruct label_file as [lines|], image_file as [[[img_name w] h]|];
    try reflexivity.
  rewrite (convert_page_erase env1 env2), (convert_page_erase env2 env2).
  assert (E1 : erase_timestamps (_create_page_element (env := env1) img_name w h).1.1 =
               erase_timestamps (_create_page_element (env := env2) img_name w h).1.1)
    by reflexivity.
  assert (E2 : (_create_page_element (env := env1) img_name w h).2 =
               (_create_page_element (env := env2) img_name w h).2)
    by reflexivity.
  rewrite E1, E2. reflexivity.
Qed.

End Rerun.

(** ** The document is a tree that holds every stored record *)

Lemma all_children_app t1 t2 :
  all_children (t1 ++ t2) = all_children t1 ++ all_children t2.
Proof. unfold all_children. apply bind_app. Qed.

Lemma all_children_alter n p (t : etree) :
  p < length t →
  all_children (alter (add_child n) p t) ≡ₚ n :: all_children t.
Proof.
  unfold all_children. revert p. induction t as [|e t IH]; intros p L.
  - simpl in L. lia.
  - destruct p as [|p].
    + change (alter (add_child n) 0 (e :: t)) with (add_child n e :: t).
      rewrite !bind_cons. simpl children.
      rewrite <- app_assoc. simpl. symmetry. apply Permutation_middle.
    + change (alter (add_child n) (S p) (e :: t))
        with (e :: alter (add_child n) p t).
      rewrite !bind_cons. rewrite IH by (simpl in L; lia).
      symmetry. apply Permutation_middle.
Qed.

Lemma length_append_pair p mk points t :
  length (append_pair p mk points t) = S (S (length t)).
Proof. unfold append_pair. rewrite length_app, length_alter. simpl. lia. Qed.

Lemma is_tree_append_pair p mk points t :
  is_tree t → p < length t → (∀ n, children (mk n) = [S n]) →
  is_tree (append_pair p mk points t).
Proof.
  intros (L & P & O) Hp Hmk. split; [|split].
  - rewrite length_append_pair. lia.
  - rewrite length_append_pair. unfold append_pair.
    rewrite all_children_app, all_children_alter by exact Hp.
    unfold all_children at 2. simpl. rewrite Hmk, P, app_nil_r. simpl.
    destruct (length t) as [|k]; [lia|]. simpl. rewrite Nat.sub_0_r.
    change (1 :: 2 :: seq 3 k) with (seq 1 (S (S k))). rewrite !seq_S. simpl.
    rewrite app_comm_cons. apply Permutation_app_tail, Permutation_cons_append.
  - intros q e c Hq Hc. unfold append_pair in Hq.
    destruct (decide (q < length t)) as [Lq|Lq].
    + rewrite lookup_app_l in Hq by (rewrite length_alter; exact Lq).
      rewrite list_lookup_alter in Hq.
      destruct (decide (p = q)) as [->|Hpq].
      * destruct (t !! q) as [e0|] eqn:E0; simpl in Hq; [|discriminate].
        injection Hq as <-. simpl in Hc.
        apply elem_of_app in Hc as [Hc|Hc]; [eapply O; eassumption|].
        apply list_elem_of_singleton in Hc. lia.
      * eapply O; eassumption.
    + rewrite lookup_app_r in Hq by (rewrite length_alter; lia).
      rewrite length_alter in Hq.
      destruct (q - length t) as [|[|k]] eqn:K; simpl in Hq; try discriminate.
      * injection Hq as <-. rewrite Hmk in Hc.
        apply list_elem_of_singleton in Hc. lia.
      * injection Hq as <-. simpl in Hc. inversion Hc.
Qed.

Lemma record_node_add_child n e : record_node (add_child n e) = record_node e.
Proof. reflexivity. Qed.

Lemma filter_alter_length {A} (P : A → bool) (f : A → A) i (l : list A) :
  (∀ x, P (f x) = P x) →
  length (List.filter P (alter f i l)) = length (List.filter P l).
Proof.
  intros HP. revert i. induction l as [|x l IH]; intros i; [reflexivity|].
  destruct i as [|i]; simpl.
  - rewrite HP. destruct (P x); reflexivity.
  - destruct (P x); simpl; [f_equal|]; apply IH.
Qed.

Lemma count_append_pair p mk points t :
  count_record_nodes (append_pair p mk points t) =
  count_record_nodes t + (if record_node (mk (length t)) then 1 else 0).
Proof.
  unfold count_record_nodes, append_pair.
  rewrite List.filter_app, length_app.
  rewrite filter_alter_length by apply record_node_add_child.
  simpl. destruct (record_node (mk (length t))); reflexivity.
Qed.

Lemma str_of_nat_head n : String.prefix "_orphan" (str_of_nat n) = false.
Proof.
  unfold str_of_nat. destruct (Nat.to_uint n); reflexivity.
Qed.

Lemma fmt_04d_head n : String.prefix "_orphan" (fmt_04d n) = false.
Proof.
  unfold fmt_04d. destruct (4 - String.length (str_of_nat n)); simpl.
  - apply str_of_nat_head.
  - reflexivity.
Qed.

Lemma record_id_not_orphan c n : is_orphan_id (String c (fmt_04d n)) = false.
Proof.
  unfold is_orphan_id.
  change (String.prefix "r_orphan" (String c (fmt_04d n)))
    with (if ascii_dec "r" c then String.prefix "_orphan" (fmt_04d n) else false).
  destruct (ascii_dec "r" c); [apply fmt_04d_head | reflexivity].
Qed.

Lemma orphan_id_is_orphan n : is_orphan_id ("r_orphan" +:+ fmt_04d n) = true.
Proof.
  unfold is_orphan_id.
  change ("r_orphan" +:+ fmt_04d n)
    with (String "r" (String "_" (String "o" (String "r" (String "p"
            (String "h" (String "a" (String "n" (fmt_04d n))))))))).
  destruct (fmt_04d n); reflexivity.
Qed.

Lemma record_node_region element_type region_id region_type n :
  record_node (region_element element_type region_id region_type n) =
  String.eqb element_type "TextLine"
  || bool_decide (element_type ∈ opaque_region_types)
  || (String.eqb element_type "TextRegion" && negb (is_orphan_id region_id)).
Proof.
  unfold record_node, region_element. simpl.
  rewrite region_attrib_id. reflexivity.
Qed.

Lemma record_node_line line_id n : record_node (line_element line_id n) = true.
Proof. reflexivity. Qed.

Lemma heap_ok_total st r :
  heap_ok st →
  is_orphan_id (ri_id (heap st !!! r)) = false ∧
  ∀ e, ri_element (heap st !!! r) = Some e → e < length (tree st).
Proof.
  intros Hh. rewrite list_lookup_total_alt.
  destruct (heap st !! r) as [info|] eqn:E; simpl.
  - eapply Hh, E.
  - split; [reflexivity | discriminate].
Qed.

Lemma heap_ok_handles_below st refs :
  heap_ok st → handles_below (length (tree st)) ((heap st !!!.) <$> refs).
Proof.
  intros Hh ri e Hri He.
  apply list_elem_of_fmap in Hri as (r & -> & _).
  eapply heap_ok_total; eassumption.
Qed.

Lemma attach_region_tree p c st :
  tree (attach_region p c st) =
  append_pair p
    (region_element "TextRegion" (ri_id (heap st !!! c)) (ri_type (heap st !!! c)))
    (ri_points (heap st !!! c)) (tree st).
Proof. reflexivity. Qed.

Lemma wf_attach_region page p c st :
  wf_state page st → p < length (tree st) → wf_state page (attach_region p c st).
Proof.
  intros (T & P & Hh) Hp. split; [|split].
  - rewrite attach_region_tree. apply is_tree_append_pair; done.
  - rewrite attach_region_tree, length_append_pair. lia.
  - intros r info Hr. rewrite attach_region_tree, length_append_pair.
    simpl in Hr. rewrite list_lookup_alter in Hr.
    destruct (decide (c = r)) as [->|Hne].
    + destruct (heap st !! r) as [info0|] eqn:E; simpl in Hr; [|discriminate].
      injection Hr as <-. simpl. destruct (Hh r info0 E) as [Hid _].
      split; [exact Hid|]. intros e [= <-]. lia.
    + destruct (Hh r info Hr) as [Hid Hel]. split; [exact Hid|].
      intros e He. specialize (Hel e He). lia.
Qed.

Lemma count_attach_region p c st :
  heap_ok st →
  count_record_nodes (tree (attach_region p c st)) =
  S (count_record_nodes (tree st)).
Proof.
  intros Hh. rewrite attach_region_tree, count_append_pair.
  rewrite record_node_region.
  destruct (heap_ok_total st c Hh) as [-> _]. simpl. lia.
Qed.

Lemma first_best_val_in {A V K} (better : K → K → bool) (key : A → K)
    (val : A → V) l b k :
  (first_best better key val l (b, k)).1 = b ∨
  ∃ x, x ∈ l ∧ (first_best better key val l (b, k)).1 = val x.
Proof.
  revert b k. induction l as [|x l IH]; intros b k; [left; reflexivity|].
  unfold first_best in *. simpl fold_left.
  destruct (better (key x) k).
  - right. destruct (IH (val x) (key x)) as [E | (y & Hy & E)].
    + exists x. split; [apply list_elem_of_here | exact E].
    + exists y. split; [apply list_elem_of_further, Hy | exact E].
  - destruct (IH b k) as [E | (y & Hy & E)]; [left; exact E|].
    right. exists y. split; [apply list_elem_of_further, Hy | exact E].
Qed.

Lemma wf_state_same page st st' :
  tree st' = tree st → heap st' = heap st → wf_state page st → wf_state page st'.
Proof.
  intros Et Eh (T & P & Hh). unfold wf_state, heap_ok. rewrite Et, Eh. done.
Qed.

Lemma wf_state_append page p mk points st st' :
  tree st' = append_pair p mk points (tree st) → heap st' = heap st →
  p < length (tree st) → (∀ n, children (mk n) = [S n]) →
  wf_state page st → wf_state page st'.
Proof.
  intros Et Eh Hp Hmk (T & P & Hh). unfold wf_state, heap_ok. rewrite Et, Eh.
  rewrite length_append_pair. split; [|split].
  - apply is_tree_append_pair; assumption.
  - lia.
  - intros r info Hr. destruct (Hh r info Hr) as [Hid Hel]. split; [exact Hid|].
    intros e He. specialize (Hel e He). lia.
Qed.

Section NoDataLoss.
Context {builtins : PyBuiltins} {shapely : Shapely} {env : PyEnv}.
Variable mapping : gmap string (gmap string string).

Lemma find_best_parent_elem t child_points parents threshold p :
  _find_best_parent t child_points parents threshold = Some p →
  ∃ ri, ri ∈ parents ∧ ri_element ri = Some p.
Proof.
  unfold _find_best_parent. rewrite best_parent_loop_first_best.
  pose proof (first_best_val_in (λ s k, Qltb k s)
                (λ ri, _calculate_containment_score child_points (ri_points ri))
                ri_element parents None threshold) as Hv.
  destruct (first_best _ _ _ _ _) as [bp bs]. simpl in Hv.
  destruct (opt_element_truthy t bp && Qltb threshold bs); [|discriminate].
  intros ->. destruct Hv as [Hv | (x & Hx & Hv)]; [discriminate|]. eauto.
Qed.

Lemma store_record_stored page st idx class_id abs_points st' :
  wf_state page st →
  m_res (store_record mapping page st idx class_id abs_points) = Ok st' →
  wf_state page st' ∧
  stored st' = stored st +
    (let cfg := default ∅ (mapping !! str_of_class_id class_id) in
     if bool_decide (cfg ≠ ∅) && recognised cfg then 1 else 0).
Proof.
  intros Hwf. unfold store_record, recognised. cbv zeta.
  set (cfg := default ∅ (mapping !! str_of_class_id class_id)).
  destruct (decide (cfg = ∅)) as [E|E].
  { simpl. intros [= <-]. rewrite (bool_decide_false (cfg ≠ ∅)) by (intros N; done).
    split; [exact Hwf | simpl; lia]. }
  rewrite (bool_decide_true (cfg ≠ ∅)) by exact E.
  destruct (String.eqb (default "TextLine"%string (cfg !! "element")) "TextLine").
  { simpl. intros [= <-]. split; [eapply wf_state_same; [..|exact Hwf]; reflexivity|].
    unfold stored. simpl. rewrite length_app. simpl. lia. }
  destruct (String.eqb (default "TextLine"%string (cfg !! "element")) "TextRegion").
  { assert (Hheap : ∀ info', is_orphan_id (ri_id info') = false →
              ri_element info' = None → ∀ st1,
              tree st1 = tree st → heap st1 = heap st ++ [info'] →
              wf_state page st1).
    { intros info' Hid Hel st1 Et Eh. destruct Hwf as (T & P & Hh).
      unfold wf_state, heap_ok. rewrite Et, Eh. split; [exact T|].
      split; [exact P|]. intros r info Hr.
      apply lookup_app_Some in Hr as [Hr | [_ Hr]]; [apply (Hh r info Hr)|].
      apply list_lookup_singleton_Some in Hr as [_ <-].
      split; [exact Hid|]. rewrite Hel. discriminate. }
    destruct (String.eqb (default EmptyString (cfg !! "parent")) "TextRegion");
      simpl; intros [= <-].
    - split.
      + apply (Hheap (mkRegionInfo abs_points ("r" +:+ fmt_04d idx)
                        (cfg !! "type") cfg None));
          [apply (record_id_not_orphan "r" idx) | reflexivity..].
      + unfold stored. simpl. rewrite length_app. simpl. lia.
    - split.
      + apply (Hheap (mkRegionInfo abs_points ("r" +:+ fmt_04d idx)
                        (cfg !! "type") cfg None));
          [apply (record_id_not_orphan "r" idx) | reflexivity..].
      + unfold stored. simpl. rewrite length_app. simpl. lia. }
  destruct (bool_decide (default "TextLine"%string (cfg !! "element")
                         ∈ opaque_region_types)) eqn:O.
  - simpl. intros [= <-]. split.
    + eapply wf_state_append; [reflexivity | reflexivity | apply Hwf | | exact Hwf].
      reflexivity.
    + unfold stored. simpl.
      change (alter _ page (tree st) ++ _)
        with (append_pair page
                (region_element (default "TextLine"%string (cfg !! "element"))
                   ("r" +:+ fmt_04d idx) None) abs_points (tree st)).
      rewrite count_append_pair, record_node_region, O.
      rewrite orb_true_r. simpl. lia.
  - simpl. intros [= <-]. split; [exact Hwf | lia].
Qed.

Lemma first_pass_step_stored page w h st idx line st' :
  wf_state page st →
  m_res (first_pass_step mapping page w h st (idx, line)) = Ok st' →
  wf_state page st' ∧
  stored st' = stored st + (if classified mapping w h line then 1 else 0).
Proof.
  intros Hwf. rewrite first_pass_step_cases. unfold classified, line_config.
  destruct (strip line).
  { simpl. intros [= <-]. split; [exact Hwf | lia]. }
  destruct (_parse_yolo_label line) as [[class_id points]|e]; [|discriminate].
  destruct points as [|pt points].
  { simpl. intros [= <-]. split; [exact Hwf | lia]. }
  destruct (_denormalize_points (pt :: points) w h) as [abs_points|e];
    [|discriminate].
  apply store_record_stored, Hwf.
Qed.

Lemma m_res_bind_Ok_split {A B} (m : M A) (f : A → M B) b :
  m_res (m ≫= f) = Ok b → ∃ a, m_res m = Ok a ∧ m_res (f a) = Ok b.
Proof. rewrite m_res_bind. destruct (m_res m); [eauto | discriminate]. Qed.

Lemma first_pass_stored page w h lines i st st' :
  wf_state page st →
  m_res (for_each_M (first_pass_step mapping page w h)
           (enumerate_from i lines) st) = Ok st' →
  wf_state page st' ∧
  stored st' = stored st + length (List.filter (classified mapping w h) lines).
Proof.
  revert i st. induction lines as [|line lines IH]; intros i st Hwf.
  - simpl. intros [= <-]. split; [exact Hwf | lia].
  - rewrite enumerate_from_cons, for_each_M_cons.
    intros (s1 & H1 & H2)%m_res_bind_Ok_split.
    apply first_pass_step_stored in H1 as [Hwf1 E1]; [|exact Hwf].
    apply IH in H2 as [Hwf2 E2]; [|exact Hwf1].
    split; [exact Hwf2|]. rewrite E2, E1. simpl.
    destruct (classified mapping w h line); simpl; lia.
Qed.

Lemma second_pass_fold_stored page refs st :
  wf_state page st →
  wf_state page (fold_left (second_pass_step page) refs st) ∧
  count_record_nodes (tree (fold_left (second_pass_step page) refs st)) =
    count_record_nodes (tree st) + length refs ∧
  child_text_regions (fold_left (second_pass_step page) refs st) =
    child_text_regions st ∧
  text_lines (fold_left (second_pass_step page) refs st) = text_lines st.
Proof.
  revert st. induction refs as [|r refs IH]; intros st Hwf.
  - simpl. split; [exact Hwf|]. split; [lia|]. split; reflexivity.
  - simpl fold_left. rewrite second_pass_step_attach.
    destruct (IH (attach_region page r st)) as (W & C & Ch & Tl).
    { apply wf_attach_region; [exact Hwf | apply Hwf]. }
    split; [exact W|]. rewrite C, Ch, Tl.
    rewrite count_attach_region by apply Hwf. simpl.
    split; [lia|]. split; reflexivity.
Qed.

Lemma third_pass_fold_stored page refs st orphans :
  wf_state page st →
  wf_state page (fold_left (third_pass_step page) refs (st, orphans)).1 ∧
  count_record_nodes
    (tree (fold_left (third_pass_step page) refs (st, orphans)).1) =
    count_record_nodes (tree st) + length refs ∧
  text_lines (fold_left (third_pass_step page) refs (st, orphans)).1 =
    text_lines st.
Proof.
  revert st orphans. induction refs as [|c refs IH]; intros st orphans Hwf.
  - simpl. split; [exact Hwf|]. split; [lia | reflexivity].
  - simpl fold_left. rewrite third_pass_step_closed.
    destruct (_find_best_parent _ _ _ _) as [p|] eqn:F.
    + destruct (IH (attach_region p c st) orphans) as (W & C & Tl).
      { apply wf_attach_region; [exact Hwf|].
        apply find_best_parent_elem in F as (ri & Hri & He).
        eapply heap_ok_handles_below; [apply Hwf | exact Hri | exact He]. }
      split; [exact W|]. rewrite C, Tl.
      rewrite count_attach_region by apply Hwf. simpl. split; [lia | reflexivity].
    + destruct (IH (attach_region page c st) (orphans ++ [ri_id (heap st !!! c)]))
        as (W & C & Tl).
      { apply wf_attach_region; [exact Hwf | apply Hwf]. }
      split; [exact W|]. rewrite C, Tl.
      rewrite count_attach_region by apply Hwf. simpl. split; [lia | reflexivity].
Qed.

Lemma with_line_in_pair r t li :
  with_line_in r t li = append_pair r (line_element (li_id li)) (li_points li) t.
Proof. reflexivity. Qed.

Lemma with_orphan_region_pair page t c li :
  with_orphan_region page t c li =
  append_pair (length t) (line_element (li_id li)) (li_points li)
    (append_pair page
       (region_element "TextRegion" ("r_orphan" +:+ fmt_04d c)
          (Some (default "paragraph"%string (li_config li !! "parent_type"))))
       (li_points li) t).
Proof.
  unfold append_pair at 1. rewrite length_append_pair. unfold append_pair.
  match goal with
  | |- context [alter ?f (length t) (?l ++ [?x; ?y])] =>
      pose proof (alter_before_end f l x y) as E;
      rewrite length_alter in E; rewrite E
  end.
  rewrite <- app_assoc. reflexivity.
Qed.

Lemma fourth_pass_step_stored page st c li :
  wf_state page st →
  wf_state page (fourth_pass_step page (st, c) li).1 ∧
  count_record_nodes (tree (fourth_pass_step page (st, c) li).1) =
    S (count_record_nodes (tree st)).
Proof.
  intros Hwf. rewrite fourth_pass_step_closed.
  destruct (find_best_region _ _) as [r|] eqn:F; simpl.
  - rewrite with_line_in_pair. split.
    + eapply wf_state_append; [reflexivity | reflexivity | | | exact Hwf];
        [|reflexivity].
      apply find_best_region_elem in F as (ri & Hri & He).
      eapply heap_ok_handles_below; [apply Hwf | exact Hri | exact He].
    + rewrite count_append_pair, record_node_line. lia.
  - rewrite with_orphan_region_pair. split.
    + set (st1 := with_tree
                    (append_pair page
                       (region_element "TextRegion" ("r_orphan" +:+ fmt_04d c)
                          (Some (default "paragraph"%string
                                   (li_config li !! "parent_type"))))
                       (li_points li) (tree st)) st).
      assert (W1 : wf_state page st1).
      { eapply wf_state_append; [reflexivity | reflexivity | apply Hwf | | exact Hwf].
        reflexivity. }
      eapply (wf_state_append page (length (tree st)) _ _ st1);
        [reflexivity | reflexivity | | reflexivity | exact W1].
      simpl. rewrite length_append_pair. lia.
    + rewrite !count_append_pair, record_node_line, record_node_region.
      rewrite orphan_id_is_orphan. simpl. lia.
Qed.

Lemma fourth_pass_fold_stored page lines st c :
  wf_state page st →
  wf_state page (fold_left (fourth_pass_step page) lines (st, c)).1 ∧
  count_record_nodes (tree (fold_left (fourth_pass_step page) lines (st, c)).1) =
    count_record_nodes (tree st) + length lines.
Proof.
  revert st c. induction lines as [|li lines IH]; intros st c Hwf.
  - simpl. split; [exact Hwf | lia].
  - simpl fold_left.
    destruct (fourth_pass_step_stored page st c li Hwf) as [W1 C1].
    destruct (fourth_pass_step page (st, c) li) as [st1 c1]. simpl in W1, C1.
    destruct (IH st1 c1 W1) as [W C]. split; [exact W|].
    rewrite C, C1. simpl. lia.
Qed.

Lemma second_pass_res page st :
  m_res (second_pass page st) =
  Ok (fold_left (second_pass_step page) (parent_text_regions st) st).
Proof. reflexivity. Qed.

Lemma third_pass_res page st :
  m_res (third_pass page st) =
  Ok (fold_left (third_pass_step page) (child_text_regions st) (st, [])).1.
Proof.
  unfold third_pass. rewrite m_res_bind. simpl.
  destruct (fold_left _ _ _) as [r o]. destruct o; reflexivity.
Qed.

Lemma fourth_pass_res page st :
  m_res (fourth_pass page st) =
  Ok (fold_left (fourth_pass_step page) (text_lines st) (st, 0)).1.
Proof.
  unfold fourth_pass. rewrite m_res_bind. simpl.
  destruct (fold_left _ _ _) as [r c]. destruct (text_lines r); reflexivity.
Qed.

Lemma later_passes_stored page st t :
  wf_state page st →
  m_res (later_passes page st) = Ok t →
  is_tree t ∧ count_record_nodes t = stored st.
Proof.
  intros Hwf. unfold later_passes.
  rewrite m_res_bind, second_pass_res, result_Ok_bind.
  destruct (second_pass_fold_stored page (parent_text_regions st) st Hwf)
    as (W2 & C2 & Ch2 & Tl2).
  set (s2 := fold_left (second_pass_step page) (parent_text_regions st) st) in *.
  rewrite m_res_bind, third_pass_res, result_Ok_bind.
  destruct (third_pass_fold_stored page (child_text_regions s2) s2 [] W2)
    as (W3 & C3 & Tl3).
  set (s3 := (fold_left (third_pass_step page) (child_text_regions s2) (s2, [])).1)
    in *.
  rewrite m_res_bind, fourth_pass_res, result_Ok_bind.
  destruct (fourth_pass_fold_stored page (text_lines s3) s3 0 W3) as (W4 & C4).
  intros [= <-]. split; [apply W4|].
  rewrite C4, C3, C2, Tl3, Tl2, Ch2. unfold stored. lia.
Qed.

Lemma initial_state_wf img_name w h :
  wf_state (_create_page_element img_name w h).2
    (mkState (_create_page_element img_name w h).1.1 [] [] [] [] []) ∧
  stored (mkState (_create_page_element img_name w h).1.1 [] [] [] [] []) = 0.
Proof.
  split; [|reflexivity]. split; [|split].
  - split; [simpl; lia|]. split.
    + change ([1; 5; 2; 3; 4] ≡ₚ [1; 2; 3; 4; 5]).
      apply perm_skip. apply (Permutation_cons_append [2; 3; 4] 5).
    + intros p e c Hp Hc.
      destruct p as [|[|[|[|[|[|p]]]]]]; simpl in Hp; try discriminate;
        injection Hp as <-; simpl in Hc;
        repeat match type of Hc with
               | _ ∈ _ :: _ => apply elem_of_cons in Hc as [->|Hc]; [lia|]
               end;
        inversion Hc.
  - simpl. lia.
  - intros r info Hr. inversion Hr.
Qed.

(** C3 (amended). When the conversion succeeds, the document holds exactly
    one element for every line of the label file that the first pass stored,
    that is every record whose configuration is not empty and names one of
    the seven recognised element types (TextLine by default); the document is
    a tree, so each of these elements has exactly one parent. *)
Theorem stored_records_all_emitted lines img_name w h t :
  m_res (convert_page mapping (Some lines) (Some (img_name, w, h))) = Ok t →
  count_record_nodes t = length (List.filter (classified mapping w h) lines) ∧
  is_tree t.
Proof.
  rewrite convert_page_passes.
  intros (s1 & H1 & H2)%m_res_bind_Ok_split.
  destruct (initial_state_wf img_name w h) as [W0 S0].
  apply first_pass_stored in H1 as [W1 S1]; [|exact W0].
  apply later_passes_stored in H2 as [T C]; [|exact W1].
  split; [|exact T]. rewrite C, S1, S0. reflexivity.
Qed.

End NoDataLoss.

(** ** The top-level regions are materialised when the third pass runs *)

Lemma element_truthy_append_pair p mk points t e :
  e < length t → element_truthy t e = true →
  element_truthy (append_pair p mk points t) e = true.
Proof.
  unfold element_truthy, append_pair. intros L T.
  rewrite lookup_total_app_l by (rewrite length_alter; exact L).
  rewrite list_lookup_total_alter. destruct (decide _) as [[-> _]|_]; [|exact T].
  simpl. destruct (children (t !!! e)); reflexivity.
Qed.

Lemma element_truthy_new p mk points t :
  (∀ n, children (mk n) = [S n]) →
  element_truthy (append_pair p mk points t) (length t) = true.
Proof.
  intros Hmk. unfold element_truthy, append_pair.
  rewrite lookup_total_app_r by (rewrite length_alter; lia).
  rewrite length_alter, Nat.sub_diag. simpl. rewrite Hmk. reflexivity.
Qed.

Lemma region_ready_attach p c st r :
  region_ready st r → region_ready (attach_region p c st) r.
Proof.
  intros (e & He & Le & Te). unfold region_ready.
  rewrite attach_region_tree, length_append_pair.
  change (heap (attach_region p c st))
    with (alter (set_ri_element (length (tree st))) c (heap st)).
  rewrite list_lookup_total_alter. destruct (decide _) as [[-> Lr]|_].
  - exists (length (tree st)). split; [reflexivity|]. split; [lia|].
    apply element_truthy_new. reflexivity.
  - exists e. split; [exact He|]. split; [lia|].
    apply element_truthy_append_pair; assumption.
Qed.

Lemma region_ready_attach_self p c st :
  c < length (heap st) → region_ready (attach_region p c st) c.
Proof.
  intros Lc. unfold region_ready.
  rewrite attach_region_tree, length_append_pair.
  change (heap (attach_region p c st))
    with (alter (set_ri_element (length (tree st))) c (heap st)).
  rewrite list_lookup_total_alter, decide_True by done.
  exists (length (tree st)). split; [reflexivity|]. split; [lia|].
  apply element_truthy_new. reflexivity.
Qed.

Lemma region_ready_materialised st :
  (∀ r, r ∈ parent_text_regions st → region_ready st r) →
  materialised (tree st) (potential_parents st).
Proof.
  intros Hr ri Hri. apply list_elem_of_fmap in Hri as (r & -> & Hin).
  destruct (Hr r Hin) as (e & He & _ & Te). eauto.
Qed.

Section ParentsReady.
Context {builtins : PyBuiltins} {shapely : Shapely} {env : PyEnv}.
Variable mapping : gmap string (gmap string string).

Lemma second_pass_fold_ready page refs done st :
  (∀ r, r ∈ refs → r < length (heap st)) →
  (∀ r, r ∈ done → region_ready st r) →
  ∀ r, r ∈ done ++ refs →
       region_ready (fold_left (second_pass_step page) refs st) r.
Proof.
  revert done st. induction refs as [|c refs IH]; intros done st Hv Hd r Hr.
  - rewrite app_nil_r in Hr. apply Hd, Hr.
  - simpl fold_left. rewrite second_pass_step_attach.
    apply (IH (done ++ [c])).
    + intros r' Hr'. simpl. rewrite length_alter. apply Hv.
      apply list_elem_of_further, Hr'.
    + intros r' Hr'. apply elem_of_app in Hr' as [Hr'|Hr'].
      * apply region_ready_attach, Hd, Hr'.
      * apply list_elem_of_singleton in Hr' as ->.
        apply region_ready_attach_self, Hv, list_elem_of_here.
    + rewrite <- app_assoc. exact Hr.
Qed.

Lemma second_pass_fold_parents page refs st :
  parent_text_regions (fold_left (second_pass_step page) refs st) =
  parent_text_regions st.
Proof.
  revert st. induction refs as [|c refs IH]; intros st; [reflexivity|].
  simpl fold_left. rewrite IH, second_pass_step_attach. reflexivity.
Qed.

Lemma third_pass_fold_ready page refs st orphans :
  (∀ r, r ∈ parent_text_regions st → region_ready st r) →
  parent_text_regions (fold_left (third_pass_step page) refs (st, orphans)).1 =
    parent_text_regions st ∧
  ∀ r, r ∈ parent_text_regions st →
       region_ready (fold_left (third_pass_step page) refs (st, orphans)).1 r.
Proof.
  revert st orphans. induction refs as [|c refs IH]; intros st orphans Hr.
  - split; [reflexivity | exact Hr].
  - simpl fold_left. rewrite third_pass_step_closed.
    destruct (_find_best_parent _ _ _ _) as [p|].
    + apply (IH (attach_region p c st)).
      intros r Hin. apply region_ready_attach, Hr, Hin.
    + apply (IH (attach_region page c st)).
      intros r Hin. apply region_ready_attach, Hr, Hin.
Qed.

Lemma store_record_refs_valid page st idx class_id abs_points st' :
  parent_refs_valid st →
  m_res (store_record mapping page st idx class_id abs_points) = Ok st' →
  parent_refs_valid st'.
Proof.
  intros Hv. unfold store_record.
  destruct (decide _); [intros [= <-]; exact Hv|].
  destruct (String.eqb _ "TextLine"); [intros [= <-]; exact Hv|].
  destruct (String.eqb _ "TextRegion").
  - destruct (String.eqb _ "TextRegion"); intros [= <-]; intros r Hr; simpl in *;
      rewrite length_app; simpl.
    + specialize (Hv r Hr). lia.
    + apply elem_of_app in Hr as [Hr|Hr]; [specialize (Hv r Hr); lia|].
      apply list_elem_of_singleton in Hr as ->. lia.
  - destruct (bool_decide _); intros [= <-]; exact Hv.
Qed.

Lemma first_pass_refs_valid page w h lines i st st' :
  parent_refs_valid st →
  m_res (for_each_M (first_pass_step mapping page w h)
           (enumerate_from i lines) st) = Ok st' →
  parent_refs_valid st'.
Proof.
  revert i st. induction lines as [|line lines IH]; intros i st Hv.
  - simpl. intros [= <-]. exact Hv.
  - rewrite enumerate_from_cons, for_each_M_cons.
    intros (s1 & H1 & H2)%m_res_bind_Ok_split.
    eapply IH; [|exact H2]. clear H2.
    rewrite first_pass_step_cases in H1.
    destruct (strip line); [injection H1 as <-; exact Hv|].
    destruct (_parse_yolo_label line) as [[class_id points]|e]; [|discriminate].
    destruct points as [|pt points]; [injection H1 as <-; exact Hv|].
    destruct (_denormalize_points (pt :: points) w h) as [abs_points|e];
      [|discriminate].
    eapply store_record_refs_valid; eassumption.
Qed.

(** In every run of [convert_page], at every step of the third pass, the
    potential parents all have an element with children: the condition under
    which the best-parent search was analysed. *)
Lemma third_pass_parents_materialised lines img_name w h s1 done :
  m_res (for_each_M
           (first_pass_step mapping (_create_page_element img_name w h).2 w h)
           (enumerate_from 0 lines)
           (mkState (_create_page_element img_name w h).1.1 [] [] [] [] []))
    = Ok s1 →
  let page := (_create_page_element img_name w h).2 in
  let s2 := fold_left (second_pass_step page) (parent_text_regions s1) s1 in
  let st := (fold_left (third_pass_step page) done (s2, [])).1 in
  materialised (tree st) (potential_parents st).
Proof.
  intros H1 page s2 st.
  apply first_pass_refs_valid in H1; [|intros r Hr; inversion Hr].
  assert (R2 : ∀ r, r ∈ parent_text_regions s2 → region_ready s2 r).
  { intros r Hr. unfold s2 in Hr. rewrite second_pass_fold_parents in Hr.
    apply (second_pass_fold_ready page (parent_text_regions s1) [] s1);
      [exact H1 | intros r' Hr'; inversion Hr' | exact Hr]. }
  destruct (third_pass_fold_ready page done s2 [] R2) as [Ep R3].
  apply region_ready_materialised. fold st in Ep, R3. rewrite Ep. exact R3.
Qed.

End ParentsReady.

(** ** Concrete runs *)

Lemma rect_area_nonneg (g : Reference.rgeom) : (0 <= Reference.rect_area g)%Q.
Proof.
  destruct g as [a b c d| |]; simpl; try apply Qle_refl.
  change 0%Q with (inject_Z 0). rewrite <- Zle_Qle. nia.
Qed.

Lemma rect_intersection_area_le (a b i : Reference.rgeom) :
  Reference.rect_intersection a b = Ok i →
  (Reference.rect_area i <= Reference.rect_area a)%Q.
Proof.
  destruct a as [x0 y0 x1 y1| |], b as [x0' y0' x1' y1'| |]; simpl;
    try discriminate;
    try (intros [= <-]; simpl;
         first [apply Qle_refl
               | apply (rect_area_nonneg (Reference.Rect x0 y0 x1 y1))]).
  destruct ((Z.max x0 x0' <? Z.min x1 x1') && (Z.max y0 y0' <? Z.min y1 y1'))%Z
    eqn:C; intros [= <-];
    [|apply (rect_area_nonneg (Reference.Rect x0 y0 x1 y1))].
  apply andb_true_iff in C as [C1 C2].
  apply Z.ltb_lt in C1, C2. simpl. rewrite <- Zle_Qle. nia.
Qed.

Lemma scores_total_and_bounded_witness :
  (0 <= _calculate_containment_score (shapely := Reference.rectangles)
          (Samples.square 0 0 100 50) (Samples.square 0 0 50 50) <= 1)%Q.
Proof.
  apply (scores_total_and_bounded (shapely := Reference.rectangles)
           rect_area_nonneg rect_intersection_area_le
           (Samples.square 0 0 100 50) (Samples.square 0 0 50 50)).
Defined.

Section ConcreteRuns.
Import Samples.
Local Existing Instance Reference.builtins.
Local Existing Instance Reference.rectangles.
Local Existing Instance Reference.env.

Lemma most_specific_container_witness :
  valid_polygon inner_leaf = true ∧ (0 < polygon_area inner_leaf)%Q ∧
  find_best_region inner_leaf [outer_region; inner_region] = Some 8 ∧
  find_best_region inner_leaf [inner_region; outer_region] = Some 8.
Proof.
  assert (V : valid_polygon inner_leaf = true) by reflexivity.
  assert (P : (0 < polygon_area inner_leaf)%Q) by reflexivity.
  split; [exact V|]. split; [exact P|].
  destruct (most_specific_container inner_leaf V P) as (_ & _ & N).
  destruct (N outer_region inner_region 6 8 eq_refl eq_refl
              ltac:(vm_compute; reflexivity) ltac:(vm_compute; reflexivity)
              ltac:(vm_compute; reflexivity)) as (E1 & E2 & _).
  split; assumption.
Defined.

Lemma nestable_region_parent_witness :
  materialised (tree half_inside_state) (potential_parents half_inside_state) ∧
  third_pass_step 0 (half_inside_state, []) 1 =
  (attach_region 0 1 half_inside_state, ["r0001"%string]).
Proof.
  assert (Hm : materialised (tree half_inside_state)
                 (potential_parents half_inside_state)).
  { intros ri Hri. apply list_elem_of_singleton in Hri as ->.
    exists 1. split; reflexivity. }
  split; [exact Hm|].
  destruct (nestable_region_parent 0 half_inside_state [] 1 Hm)
    as [[_ E] | (i & ri & p & Hi & _ & Hlt & _)]; [exact E|].
  exfalso. destruct i as [|i]; [|discriminate].
  injection Hi as <-. vm_compute in Hlt. discriminate.
Defined.

Lemma degenerate_leaf_is_orphan_witness :
  valid_polygon (li_points crossed_leaf) = false ∧
  fourth_pass_step 0 (one_region_state, 0) crossed_leaf =
  (with_tree (with_orphan_region 0 (tree one_region_state) 0 crossed_leaf)
     one_region_state, 1).
Proof.
  assert (D : valid_polygon (li_points crossed_leaf) = false) by reflexivity.
  split; [exact D|].
  apply (degenerate_leaf_is_orphan 0 one_region_state 0 crossed_leaf
           (or_introl D)).
Defined.

Lemma far_leaf_unqualified ri :
  ri ∈ candidates one_region_state → qualifies (li_points far_leaf) ri = false.
Proof. intros Hri. apply list_elem_of_singleton in Hri as ->. reflexivity. Qed.

Lemma one_region_handles :
  handles_below (length (tree one_region_state)) (candidates one_region_state).
Proof.
  intros ri e Hri He. apply list_elem_of_singleton in Hri as ->.
  injection He as <-. simpl. lia.
Qed.

Lemma orphan_leaf_gets_own_region_witness :
  (∀ ri, ri ∈ candidates one_region_state →
         qualifies (li_points far_leaf) ri = false) ∧
  handles_below (length (tree one_region_state)) (candidates one_region_state) ∧
  fourth_pass_step 0 (one_region_state, 0) far_leaf =
  (with_tree (with_orphan_region 0 (tree one_region_state) 0 far_leaf)
     one_region_state, 1).
Proof.
  split; [exact far_leaf_unqualified|]. split; [exact one_region_handles|].
  apply (orphan_leaf_gets_own_region 0 one_region_state 0 far_leaf
           far_leaf_unqualified one_region_handles).
Defined.

(** C4, as written in the specification, fails: with [parent_type]
    configured as the empty string the manufactured region has no [type]
    attribute. *)
Lemma orphan_region_typed_by_parent_type_fails :
  ¬ orphan_region_typed_by_parent_type.
Proof.
  intros C.
  destruct (C 0 one_region_state 0 untyped_leaf) as (e & He & _ & Ht).
  { intros ri Hri. apply list_elem_of_singleton in Hri as ->. reflexivity. }
  vm_compute in He. injection He as <-. vm_compute in Ht. discriminate.
Qed.

Lemma short_lines_skipped_bad_tokens_raise_witness :
  length (split (strip short_line)) < 7 ∧
  convert_page sample_mapping (Some [region_line; short_line; leaf_line])
    sample_image =
  convert_page sample_mapping (Some [region_line; EmptyString; leaf_line])
    sample_image ∧
  7 ≤ length (split (strip bad_class_line)) ∧
  m_res (convert_page sample_mapping (Some [region_line; bad_class_line; leaf_line])
           sample_image) = Raise ValueError.
Proof.
  assert (L : length (split (strip short_line)) < 7) by (vm_compute; lia).
  assert (L' : 7 ≤ length (split (strip bad_class_line))) by (vm_compute; lia).
  split; [exact L|]. split; [|split; [exact L'|]].
  - destruct (short_lines_skipped_bad_tokens_raise sample_mapping short_line)
      as [S _].
    destruct (S L) as (_ & _ & R).
    exact (R [region_line] [leaf_line] sample_image).
  - destruct (short_lines_skipped_bad_tokens_raise sample_mapping bad_class_line)
      as (_ & B & R).
    eapply (R ValueError (B ValueError L' (or_introl eq_refl))
              [region_line] [leaf_line]).
    vm_compute. reflexivity.
Defined.

(** C5, as written in the specification, fails: a line of seven tokens
    whose class token is not a number makes [int] raise ValueError, and the
    exception leaves [convert_page]. *)
Lemma no_line_aborts_conversion_fails : ¬ no_line_aborts_conversion.
Proof.
  intros C.
  destruct (C sample_mapping [bad_class_line] "page.png"%string 100%Z 100%Z)
    as [t Ht].
  vm_compute in Ht. discriminate.
Qed.

Lemma unmapped_record_dropped_witness :
  sample_mapping !! "9"%string = None ∧
  Warn_no_mapping (Some 9%Z) ∈
    m_log (convert_page sample_mapping
             (Some [region_line; unmapped_line; leaf_line]) sample_image) ∧
  m_res (convert_page sample_mapping
           (Some [region_line; unmapped_line; leaf_line]) sample_image) =
  m_res (convert_page sample_mapping
           (Some [region_line; EmptyString; leaf_line]) sample_image).
Proof.
  split; [reflexivity|].
  edestruct (unmapped_record_dropped sample_mapping unmapped_line)
    as (_ & R & W);
    [vm_compute; reflexivity | discriminate | vm_compute; reflexivity
    | reflexivity |].
  split.
  - eapply (W [region_line] [leaf_line]). vm_compute. reflexivity.
  - exact (R [region_line] [leaf_line]).
Defined.

Lemma missing_element_defaults_to_text_line_witness :
  sample_mapping !! "5"%string = Some {[ "parent_type"%string := "heading"%string ]} ∧
  convert_page sample_mapping (Some [region_line; default_line]) sample_image =
  convert_page
    (<["5"%string := <["element"%string := "TextLine"%string]>
                       {[ "parent_type"%string := "heading"%string ]}]>
       sample_mapping)
    (Some [region_line; default_line]) sample_image.
Proof.
  assert (E : sample_mapping !! "5"%string =
              Some {[ "parent_type"%string := "heading"%string ]}) by reflexivity.
  split; [exact E|].
  destruct (missing_element_defaults_to_text_line sample_mapping "5"%string
              {[ "parent_type"%string := "heading"%string ]} E
              ltac:(apply insert_non_empty) eq_refl) as (_ & _ & R).
  exact (R (Some [region_line; default_line]) sample_image).
Defined.

(** The document of a run with one record of each stored kind. *)
Lemma stored_records_all_emitted_witness :
  ∃ t, m_res (convert_page sample_mapping
                (Some [region_line; leaf_line; unmapped_line; maths_line;
                       default_line; short_line])
                sample_image) = Ok t ∧
       count_record_nodes t = 3 ∧ is_tree t.
Proof.
  eexists. split; [vm_compute; reflexivity|].
  match goal with
  | |- count_record_nodes ?t = _ ∧ _ =>
      destruct (stored_records_all_emitted sample_mapping
                  [region_line; leaf_line; unmapped_line; maths_line;
                   default_line; short_line] "page.png"%string 100%Z 100%Z t)
        as [C T]; [vm_compute; reflexivity|]
  end.
  split; [|exact T]. rewrite C. vm_compute. reflexivity.
Defined.

(** C3, as written in the specification, fails: a record whose class id is
    mapped to an element type outside the seven the first pass knows leaves
    no element in the document. *)
Lemma every_mapped_record_emitted_fails : ¬ every_mapped_record_emitted.
Proof.
  intros C.
  assert (∃ t, m_res (convert_page sample_mapping (Some [maths_line])
                        sample_image) = Ok t ∧ count_record_nodes t = 0)
    as (t & Ht & Hc) by (eexists; split; vm_compute; reflexivity).
  apply C in Ht. rewrite Hc in Ht. vm_compute in Ht. discriminate.
Qed.

End ConcreteRuns.

(** ** The shape of parsed and denormalised points *)

Ltac div_lia := Zify.zify; Z.div_mod_to_equations; lia.

Lemma for_each_app {S A} (f : S → A → result S) l1 l2 s :
  for_each f (l1 ++ l2) s = for_each f l1 s ≫= for_each f l2.
Proof.
  revert s. induction l1 as [|x l1 IH]; intros s; [reflexivity|].
  simpl. destruct (f s x) as [s'|e]; [apply IH | reflexivity].
Qed.

Section Parse.

Context {builtins : PyBuiltins}.

Lemma read_pairs_loop parts k count acc :
  2 * (k + count) + 1 ≤ length parts →
  for_each (λ points i,
       if i + 1 <? length parts then
         x ← py_float (parts !!! i);
         y ← py_float (parts !!! (i + 1));
         mret (points ++ [(x, y)])
       else mret points)
    ((λ j, 1 + j * 2) <$> seq k count) acc =
  rest ← read_pairs parts k count; mret (acc ++ rest).
Proof.
  revert k acc. induction count as [|count IH]; intros k acc L.
  - simpl. rewrite app_nil_r. reflexivity.
  - simpl seq. rewrite fmap_cons, for_each_cons.
    assert (C : (1 + k * 2 + 1 <? length parts) = true) by (apply Nat.ltb_lt; lia).
    rewrite C. simpl read_pairs.
    replace (1 + k * 2) with (2 * k + 1) by lia.
    replace (2 * k + 1 + 1) with (2 * k + 2) by lia.
    replace (k + (k + 0) + 1) with (2 * k + 1) by lia.
    replace (k + (k + 0) + 2) with (2 * k + 2) by lia.
    destruct (py_float (parts !!! (2 * k + 1))) as [x|e]; [|reflexivity].
    destruct (py_float (parts !!! (2 * k + 2))) as [y|e]; [|reflexivity].
    simpl. rewrite IH by lia.
    destruct (read_pairs parts (S k) count) as [rest|e]; [|reflexivity].
    simpl. rewrite <- app_assoc. reflexivity.
Qed.

Lemma range_pairs n :
  range 1 n 2 =
  ((λ j, 1 + j * 2) <$> seq 0 ((n - 1) / 2)) ++
  (if Nat.even n && (0 <? n) then [n - 1] else []).
Proof.
  unfold range. change (2 - 1) with 1.
  destruct n as [|n]; [reflexivity|].
  destruct (Nat.even (S n)) eqn:E; simpl andb.
  - apply Nat.even_spec in E as [m Hm].
    replace ((S n - 1 + 1) / 2) with (S ((S n - 1) / 2)) by div_lia.
    change (0 <? S n) with true. cbv iota.
    rewrite seq_S, fmap_app. f_equal.
    change (?f <$> [?x]) with [f x]. cbv beta. f_equal. div_lia.
  - rewrite app_nil_r. f_equal. f_equal.
    assert (O : Nat.odd (S n) = true) by (rewrite <- Nat.negb_even, E; reflexivity).
    apply Nat.odd_spec in O as [m Hm]. div_lia.
Qed.

Lemma parse_closed line :
  _parse_yolo_label line =
  let parts := split (strip line) in
  if length parts <? 7 then Ok (None, [])
  else
    class_id ← py_int (parts !!! 0);
    points ← read_pairs parts 0 ((length parts - 1) / 2);
    mret (Some class_id, points).
Proof.
  unfold _parse_yolo_label. cbv zeta.
  set (parts := split (strip line)).
  destruct (length parts <? 7) eqn:L; [reflexivity|].
  apply Nat.ltb_ge in L.
  destruct (py_int (parts !!! 0)) as [z|e]; [|reflexivity].
  rewrite !result_Ok_bind. f_equal.
  rewrite range_pairs, for_each_app.
  assert (D : 2 * ((length parts - 1) / 2) ≤ length parts - 1).
  { div_lia. }
  rewrite read_pairs_loop by lia.
  destruct (read_pairs parts 0 ((length parts - 1) / 2)) as [pts|e]; [|reflexivity].
  simpl app.
  destruct (Nat.even (length parts) && (0 <? length parts)); [|reflexivity].
  rewrite !result_Ok_bind. change (mret pts ≫= ?f) with (f pts).
  rewrite for_each_cons.
  assert (C : (length parts - 1 + 1 <? length parts) = false)
    by (apply Nat.ltb_ge; lia).
  rewrite C. reflexivity.
Qed.

Lemma read_pairs_spec parts k count pts :
  read_pairs parts k count = Ok pts →
  length pts = count ∧
  ∀ i x y, pts !! i = Some (x, y) →
    py_float (parts !!! (2 * (k + i) + 1)) = Ok x ∧
    py_float (parts !!! (2 * (k + i) + 2)) = Ok y.
Proof.
  revert k pts. induction count as [|count IH]; intros k pts.
  - simpl. intros [= <-]. split; [reflexivity|]. intros i x y Hi. inversion Hi.
  - simpl read_pairs.
    replace (k + (k + 0) + 1) with (2 * k + 1) by lia.
    replace (k + (k + 0) + 2) with (2 * k + 2) by lia.
    destruct (py_float (parts !!! (2 * k + 1))) as [x0|e] eqn:X; [|discriminate].
    destruct (py_float (parts !!! (2 * k + 2))) as [y0|e] eqn:Y; [|discriminate].
    simpl.
    destruct (read_pairs parts (S k) count) as [rest|e] eqn:R; [|discriminate].
    simpl. intros [= <-]. destruct (IH _ _ R) as [Len P].
    split; [simpl; lia|]. intros [|i] x y Hi.
    + injection Hi as <- <-. rewrite Nat.add_0_r. split; assumption.
    + destruct (P i x y Hi) as [Px Py].
      replace (k + S i) with (S k + i) by lia. split; assumption.
Qed.

(** X1. When [_parse_yolo_label] returns points, the line has at least 7
    tokens, the class id is [int] of the first token, and the points are the
    consecutive token pairs after it, in order: point [i] is [float] of the
    tokens [2i+1] and [2i+2]. There are [(n - 1) / 2] of them for [n]
    tokens, so at least 3. *)
Theorem parse_points_are_token_pairs line class_id points :
  _parse_yolo_label line = Ok (class_id, points) →
  points ≠ [] →
  let parts := split (strip line) in
  7 ≤ length parts ∧
  (∃ z, class_id = Some z ∧ py_int (parts !!! 0) = Ok z) ∧
  length points = (length parts - 1) / 2 ∧
  3 ≤ length points ∧
  ∀ i x y, points !! i = Some (x, y) →
    py_float (parts !!! (2 * i + 1)) = Ok x ∧
    py_float (parts !!! (2 * i + 2)) = Ok y.
Proof.
  rewrite parse_closed. cbv zeta.
  set (parts := split (strip line)).
  destruct (length parts <? 7) eqn:L.
  { intros [= <- <-] N. done. }
  apply Nat.ltb_ge in L.
  destruct (py_int (parts !!! 0)) as [z|e]; [|discriminate].
  rewrite result_Ok_bind.
  destruct (read_pairs parts 0 ((length parts - 1) / 2)) as [pts|e] eqn:R;
    [|discriminate].
  simpl. intros [= <- <-] _.
  destruct (read_pairs_spec _ _ _ _ R) as [Len P].
  split; [exact L|]. split; [eauto|]. split; [exact Len|]. split.
  - rewrite Len. div_lia.
  - intros i x y Hi. apply (P i x y Hi).
Qed.

Lemma read_pairs_ext parts parts' k count :
  (∀ j, j < 2 * (k + count) + 1 → parts !!! j = parts' !!! j) →
  read_pairs parts k count = read_pairs parts' k count.
Proof.
  revert k. induction count as [|count IH]; intros k E; [reflexivity|].
  simpl. rewrite !E by lia. rewrite IH; [reflexivity|].
  intros j Hj. apply E. lia.
Qed.

(** X2. A last token without a partner is never read: a line with an
    even number of tokens parses exactly as the line without its last token
    (the same class id and points, or the same exception), whatever that
    token is. *)
Theorem unpaired_last_token_ignored line line' tok :
  split (strip line) = split (strip line') ++ [tok] →
  Nat.Even (length (split (strip line))) →
  _parse_yolo_label line = _parse_yolo_label line'.
Proof.
  intros E Ev. rewrite !parse_closed. cbv zeta. rewrite E in Ev |- *.
  set (parts := split (strip line')) in *.
  rewrite length_app in Ev |- *. simpl length in *.
  destruct Ev as [m Hm].
  destruct (length parts + 1 <? 7) eqn:L.
  { apply Nat.ltb_lt in L.
    assert (L' : (length parts <? 7) = true) by (apply Nat.ltb_lt; lia).
    rewrite L'. reflexivity. }
  apply Nat.ltb_ge in L.
  assert (L' : (length parts <? 7) = false) by (apply Nat.ltb_ge; lia).
  rewrite L'.
  rewrite lookup_total_app_l by lia.
  replace ((length parts + 1 - 1) / 2) with ((length parts - 1) / 2) by div_lia.
  rewrite (read_pairs_ext (parts ++ [tok]) parts); [reflexivity|].
  intros j Hj. apply lookup_total_app_l.
  assert (2 * ((length parts - 1) / 2) + 1 ≤ length parts) by div_lia. lia.
Qed.

Lemma scale_point_pair w h x y :
  scale_point w h (x, y) =
  abs_x ← int_of_float (float_mul_int x w);
  abs_y ← int_of_float (float_mul_int y h);
  mret (abs_x, abs_y).
Proof. reflexivity. Qed.

Lemma denormalize_loop pts w h acc :
  for_each (λ denormalized '(x, y),
      abs_x ← int_of_float (float_mul_int x w);
      abs_y ← int_of_float (float_mul_int y h);
      mret (denormalized ++ [(abs_x, abs_y)]))
    pts acc =
  rest ← mapM (scale_point w h) pts; mret (acc ++ rest).
Proof.
  revert acc. induction pts as [|[x y] pts IH]; intros acc.
  - simpl. rewrite app_nil_r. reflexivity.
  - rewrite for_each_cons. simpl mapM. rewrite scale_point_pair.
    destruct (int_of_float (float_mul_int x w)) as [ax|e]; [|reflexivity].
    destruct (int_of_float (float_mul_int y h)) as [ay|e]; [|reflexivity].
    rewrite !result_Ok_bind. rewrite IH.
    destruct (mapM (scale_point w h) pts) as [rest|e]; [|reflexivity].
    simpl. rewrite <- app_assoc. reflexivity.
Qed.

Lemma denormalize_closed pts w h :
  _denormalize_points pts w h = mapM (scale_point w h) pts.
Proof.
  unfold _denormalize_points. rewrite denormalize_loop.
  destruct (mapM (scale_point w h) pts); reflexivity.
Qed.

(** X3. [_denormalize_points] keeps the number and the order of the points
    and scales point by point, x by the image width and y by the image
    height, each through [int]; when it raises, the exception is that of
    [int] on a coordinate of one of the points. *)
Theorem denormalize_points_pointwise pts w h :
  (∀ abs_points, _denormalize_points pts w h = Ok abs_points →
     Forall2 (λ p a, int_of_float (float_mul_int p.1 w) = Ok a.1 ∧
                     int_of_float (float_mul_int p.2 h) = Ok a.2)
       pts abs_points) ∧
  (∀ e, _denormalize_points pts w h = Raise e →
     ∃ i x y, pts !! i = Some (x, y) ∧
       (int_of_float (float_mul_int x w) = Raise e ∨
        (∃ abs_x, int_of_float (float_mul_int x w) = Ok abs_x) ∧
        int_of_float (float_mul_int y h) = Raise e)).
Proof.
  rewrite denormalize_closed. induction pts as [|[x y] pts [IHok IHerr]].
  - split; [intros abs_points [= <-]; constructor | discriminate].
  - simpl mapM. rewrite scale_point_pair.
    destruct (int_of_float (float_mul_int x w)) as [ax|e0] eqn:X.
    2:{ split; [discriminate|]. intros e [= <-]. exists 0, x, y. auto. }
    destruct (int_of_float (float_mul_int y h)) as [ay|e0] eqn:Y.
    2:{ split; [discriminate|]. intros e [= <-]. exists 0, x, y. eauto. }
    rewrite !result_Ok_bind.
    destruct (mapM (scale_point w h) pts) as [rest|e0].
    + split; [|discriminate]. intros abs_points [= <-].
      constructor; [split; assumption | apply IHok; reflexivity].
    + split; [discriminate|]. intros e [= <-].
      destruct (IHerr e0 eq_refl) as (i & x' & y' & Hi & Hr).
      exists (S i), x', y'. split; [exact Hi | exact Hr].
Qed.

End Parse.

(** ** Which lines abort a conversion *)

Section Failures.

Context {builtins : PyBuiltins} {shapely : Shapely} {env : PyEnv}.

Variable mapping : gmap string (gmap string string).










End Failures.

(** ** Scores, empty pages and the statistics of the fourth pass *)

Section Ratio.

Context {shapely : Shapely}.

(** X5. For a valid child polygon of positive area the containment score
    is the overlap area of [_calculate_polygon_overlap] divided by the area
    of the child. *)
Theorem containment_is_overlap_ratio child parent :
  valid_polygon child = true → (0 < polygon_area child)%Q →
  _calculate_containment_score child parent ==
  (_calculate_polygon_overlap child parent / polygon_area child)%Q.
Proof.
  unfold valid_polygon, polygon_area, _calculate_containment_score,
    _calculate_polygon_overlap, valid_intersection.
  destruct (Polygon child) as [c|e]; simpl; [|discriminate].
  intros V P. rewrite V. simpl.
  destruct (Polygon parent) as [p|e]; simpl.
  2:{ unfold Qdiv. rewrite Qmult_0_l. reflexivity. }
  destruct (is_valid p); simpl.
  2:{ unfold Qdiv. rewrite Qmult_0_l. reflexivity. }
  destruct (intersection c p) as [i|e]; simpl.
  2:{ unfold Qdiv. rewrite Qmult_0_l. reflexivity. }
  apply Qltb_lt in P. rewrite P. reflexivity.
Qed.

End Ratio.

Section Pipeline.

Context {builtins : PyBuiltins} {shapely : Shapely} {env : PyEnv}.

Variable mapping : gmap string (gmap string string).

Lemma store_record_unclassified page st idx class_id abs_points :
  (let cfg := default ∅ (mapping !! str_of_class_id class_id) in
   bool_decide (cfg ≠ ∅) && recognised cfg) = false →
  m_res (store_record mapping page st idx class_id abs_points) = Ok st.
Proof.
  cbv zeta. unfold store_record, recognised.
  set (cfg := default ∅ (mapping !! str_of_class_id class_id)).
  destruct (decide (cfg = ∅)) as [E|E]; [reflexivity|].
  rewrite (bool_decide_true (cfg ≠ ∅)) by exact E. simpl.
  destruct (String.eqb _ "TextLine"); [discriminate|].
  destruct (String.eqb _ "TextRegion"); [discriminate|].
  simpl. intros ->. reflexivity.
Qed.

Lemma first_pass_step_unclassified page w h st idx line st' :
  classified mapping w h line = false →
  m_res (first_pass_step mapping page w h st (idx, line)) = Ok st' →
  st' = st.
Proof.
  rewrite first_pass_step_cases. unfold classified, line_config.
  destruct (strip line); [intros _ [= <-]; reflexivity|].
  destruct (_parse_yolo_label line) as [[class_id points]|e]; [|discriminate].
  destruct points as [|pt points]; [intros _ [= <-]; reflexivity|].
  destruct (_denormalize_points (pt :: points) w h) as [abs_points|e];
    [|discriminate].
  intros C. rewrite store_record_unclassified by exact C.
  intros [= <-]. reflexivity.
Qed.

Lemma first_pass_unclassified page w h lines i st st' :
  Forall (λ l, classified mapping w h l = false) lines →
  m_res (for_each_M (first_pass_step mapping page w h)
           (enumerate_from i lines) st) = Ok st' →
  st' = st.
Proof.
  intros F. revert i st. induction F as [|line lines C F IH]; intros i st.
  - simpl. intros [= <-]. reflexivity.
  - rewrite enumerate_from_cons, for_each_M_cons.
    intros (s1 & H1 & H2)%m_res_bind_Ok_split.
    apply first_pass_step_unclassified in H1 as ->; [|exact C].
    eapply IH, H2.
Qed.

(** X7. When no line of the label file is a stored record (an empty file,
    blank or short lines, classes without entry or of an unknown element
    type), a successful conversion returns the document of
    [_create_page_element] unchanged: a Page without children. *)
Theorem no_stored_record_bare_page lines img_name w h t :
  Forall (λ l, classified mapping w h l = false) lines →
  m_res (convert_page mapping (Some lines) (Some (img_name, w, h))) = Ok t →
  t = (_create_page_element img_name w h).1.1 ∧
  children (t !!! (_create_page_element img_name w h).2) = [].
Proof.
  intros F. rewrite convert_page_passes.
  intros (s1 & H1 & H2)%m_res_bind_Ok_split.
  apply first_pass_unclassified in H1 as ->; [|exact F].
  injection H2 as <-. split; reflexivity.
Qed.

Lemma fourth_pass_fold_count page lines st c :
  let r := fold_left (fourth_pass_step page) lines (st, c) in
  r.2 = c + length (List.filter (unplaced st) lines) ∧
  length (tree r.1) =
    length (tree st) + 2 * length lines
    + 2 * length (List.filter (unplaced st) lines).
Proof.
  revert st c. induction lines as [|li lines IH]; intros st c.
  - simpl. lia.
  - cbv zeta. simpl fold_left. rewrite fourth_pass_step_closed.
    simpl List.filter.
    assert (U : unplaced st li =
                match find_best_region (li_points li) (candidates st) with
                | None => true
                | Some _ => false
                end) by reflexivity.
    rewrite U. clear U.
    destruct (find_best_region (li_points li) (candidates st)) as [r|].
    + specialize (IH (with_tree (with_line_in r (tree st) li) st) c).
      cbv zeta in IH. destruct IH as [IH1 IH2].
      rewrite IH1, IH2.
      rewrite (filter_ext (unplaced (with_tree (with_line_in r (tree st) li) st))
                 (unplaced st)) by reflexivity.
      simpl tree. rewrite with_line_in_pair, length_append_pair. simpl. lia.
    + specialize (IH (with_tree (with_orphan_region page (tree st) c li) st) (S c)).
      cbv zeta in IH. destruct IH as [IH1 IH2].
      rewrite IH1, IH2.
      rewrite (filter_ext
                 (unplaced (with_tree (with_orphan_region page (tree st) c li) st))
                 (unplaced st)) by reflexivity.
      simpl tree. rewrite with_orphan_region_pair, !length_append_pair.
      simpl. lia.
Qed.

(** X13. The fourth pass decides every leaf against the candidates it
    starts with. Its log is the number of leaves and, when there is one, the
    numbers of leaves placed in existing regions and in new regions, which
    add up to the number of leaves; the document grows by two elements per
    placed leaf and by four per leaf in a new region. *)
Theorem text_line_statistics page st :
  let n := length (text_lines st) in
  let orphans := length (List.filter (unplaced st) (text_lines st)) in
  let placed := length (List.filter (λ li, negb (unplaced st li)) (text_lines st)) in
  placed + orphans = n ∧
  m_log (fourth_pass page st) =
    Info_text_lines n ::
    (if decide (n = 0) then [] else [Info_assignment placed orphans]) ∧
  ∃ st', m_res (fourth_pass page st) = Ok st' ∧
    length (tree st') = length (tree st) + 2 * placed + 4 * orphans.
Proof.
  cbv zeta.
  pose proof (List.filter_length (unplaced st) (text_lines st)) as FL.
  split; [lia|].
  unfold fourth_pass.
  destruct (fourth_pass_fold_count page (text_lines st) st 0) as [C L].
  pose proof (fourth_pass_fold_text_lines page (text_lines st) (st, 0)) as T.
  destruct (fold_left (fourth_pass_step page) (text_lines st) (st, 0)) as [st' c].
  simpl in C, L, T. rewrite T. subst c.
  remember (length (List.filter (unplaced st) (text_lines st))) as o.
  remember (length (List.filter (λ li, negb (unplaced st li)) (text_lines st)))
    as p.
  destruct (text_lines st) as [|li ls].
  - simpl in FL. rewrite decide_True by reflexivity.
    split; [reflexivity|]. exists st'. split; [reflexivity|]. simpl in L. lia.
  - rewrite decide_False by (simpl; lia). split.
    + change (m_log _) with [Info_text_lines (length (li :: ls));
                             Info_assignment (length (li :: ls) - o) o].
      do 3 f_equal. lia.
    + exists st'. split; [reflexivity|]. lia.
Qed.

End Pipeline.

(** ** The candidates of the fourth pass *)

Section Candidates.

Context {builtins : PyBuiltins} {shapely : Shapely} {env : PyEnv}.

Variable mapping : gmap string (gmap string string).

Lemma store_record_lists page st idx class_id abs_points st' :
  child_refs_valid st →
  m_res (store_record mapping page st idx class_id abs_points) = Ok st' →
  child_refs_valid st' ∧ all_text_regions st' = all_text_regions st.
Proof.
  intros Hv. unfold store_record.
  destruct (decide _); [intros [= <-]; done|].
  destruct (String.eqb _ "TextLine"); [intros [= <-]; done|].
  destruct (String.eqb _ "TextRegion").
  - destruct (String.eqb _ "TextRegion"); intros [= <-];
      (split; [|reflexivity]); intros r Hr; simpl in *;
      rewrite length_app; simpl.
    + apply elem_of_app in Hr as [Hr|Hr]; [specialize (Hv r Hr); lia|].
      apply list_elem_of_singleton in Hr as ->. lia.
    + specialize (Hv r Hr). lia.
  - destruct (bool_decide _); intros [= <-]; done.
Qed.

Lemma first_pass_lists page w h lines i st st' :
  child_refs_valid st →
  m_res (for_each_M (first_pass_step mapping page w h)
           (enumerate_from i lines) st) = Ok st' →
  child_refs_valid st' ∧ all_text_regions st' = all_text_regions st.
Proof.
  revert i st. induction lines as [|line lines IH]; intros i st Hv.
  - simpl. intros [= <-]. done.
  - rewrite enumerate_from_cons, for_each_M_cons.
    intros (s1 & H1 & H2)%m_res_bind_Ok_split.
    assert (S1 : child_refs_valid s1 ∧ all_text_regions s1 = all_text_regions st).
    { rewrite first_pass_step_cases in H1.
      destruct (strip line); [injection H1 as <-; done|].
      destruct (_parse_yolo_label line) as [[class_id points]|e]; [|discriminate].
      destruct points as [|pt points]; [injection H1 as <-; done|].
      destruct (_denormalize_points (pt :: points) w h) as [abs_points|e];
        [|discriminate].
      eapply store_record_lists; eassumption. }
    destruct S1 as [V1 A1]. apply IH in H2 as [V2 A2]; [|exact V1].
    split; [exact V2|]. congruence.
Qed.

Lemma second_pass_fold_lists page refs st :
  let st' := fold_left (second_pass_step page) refs st in
  all_text_regions st' = all_text_regions st ++ refs ∧
  child_text_regions st' = child_text_regions st ∧
  length (heap st') = length (heap st).
Proof.
  revert st. induction refs as [|r refs IH]; intros st.
  - simpl. rewrite app_nil_r. done.
  - cbv zeta. simpl fold_left. rewrite second_pass_step_attach.
    destruct (IH (attach_region page r st)) as (A & C & L).
    rewrite A, C, L. simpl. rewrite length_alter, <- app_assoc. done.
Qed.




Lemma store_record_no_region page st idx class_id abs_points st' :
  no_text_region_class mapping →
  m_res (store_record mapping page st idx class_id abs_points) = Ok st' →
  parent_text_regions st' = parent_text_regions st ∧
  child_text_regions st' = child_text_regions st ∧
  all_text_regions st' = all_text_regions st.
Proof.
  intros Hn. unfold store_record.
  destruct (mapping !! str_of_class_id class_id) as [cfg|] eqn:E; simpl.
  2:{ rewrite decide_True by reflexivity. intros [= <-]. done. }
  specialize (Hn _ _ E).
  destruct (decide _); [intros [= <-]; done|].
  destruct (String.eqb _ "TextLine"); [intros [= <-]; done|].
  destruct (String.eqb _ "TextRegion") eqn:R.
  - apply String.eqb_eq in R. exfalso. apply Hn.
    destruct (cfg !! "element"%string) as [s|]; simpl in R; [|discriminate].
    rewrite R. reflexivity.
  - destruct (bool_decide _); intros [= <-]; done.
Qed.

Lemma first_pass_no_region page w h lines i st st' :
  no_text_region_class mapping →
  m_res (for_each_M (first_pass_step mapping page w h)
           (enumerate_from i lines) st) = Ok st' →
  parent_text_regions st' = parent_text_regions st ∧
  child_text_regions st' = child_text_regions st ∧
  all_text_regions st' = all_text_regions st.
Proof.
  intros Hn. revert i st. induction lines as [|line lines IH]; intros i st.
  - simpl. intros [= <-]. done.
  - rewrite enumerate_from_cons, for_each_M_cons.
    intros (s1 & H1 & H2)%m_res_bind_Ok_split.
    assert (S1 : parent_text_regions s1 = parent_text_regions st ∧
                 child_text_regions s1 = child_text_regions st ∧
                 all_text_regions s1 = all_text_regions st).
    { rewrite first_pass_step_cases in H1.
      destruct (strip line); [injection H1 as <-; done|].
      destruct (_parse_yolo_label line) as [[class_id points]|e]; [|discriminate].
      destruct points as [|pt points]; [injection H1 as <-; done|].
      destruct (_denormalize_points (pt :: points) w h) as [abs_points|e];
        [|discriminate].
      eapply store_record_no_region; eassumption. }
    destruct S1 as (P1 & C1 & A1). apply IH in H2 as (P2 & C2 & A2).
    rewrite P2, C2, A2. done.
Qed.

Lemma fourth_pass_fold_no_candidates page lines st c :
  all_text_regions st = [] →
  fold_left (fourth_pass_step page) lines (st, c) =
  (with_tree
     (fold_left (λ t kl, with_orphan_region page t kl.1 kl.2)
        (enumerate_from c lines) (tree st)) st,
   c + length lines).
Proof.
  revert st c. induction lines as [|li lines IH]; intros st c A.
  - simpl. rewrite Nat.add_0_r. destruct st; reflexivity.
  - simpl fold_left. rewrite fourth_pass_step_closed.
    unfold candidates at 1. rewrite A. simpl fmap.
    change (find_best_region (li_points li) []) with (@None nat).
    cbv iota. rewrite IH by exact A. simpl. f_equal. lia.
Qed.

(** X14. Under a mapping without TextRegion class, as the default
    mapping is, every leaf ends in a region of its own: the document is the
    one left by the first pass followed, for the [k]-th leaf, by the region
    [r_orphan{k}] under Page with the TextLine of the leaf in it. *)
Theorem no_region_class_every_leaf_own_region lines img_name w h s1 :
  no_text_region_class mapping →
  let page := (_create_page_element img_name w h).2 in
  m_res (for_each_M (first_pass_step mapping page w h) (enumerate_from 0 lines)
           (mkState (_create_page_element img_name w h).1.1 [] [] [] [] []))
    = Ok s1 →
  m_res (convert_page mapping (Some lines) (Some (img_name, w, h))) =
  Ok (fold_left (λ t kl, with_orphan_region page t kl.1 kl.2)
        (enumerate_from 0 (text_lines s1)) (tree s1)).
Proof.
  intros Hn page H1.
  rewrite convert_page_passes, m_res_bind. fold page. rewrite H1, result_Ok_bind.
  apply first_pass_no_region in H1 as (P & C & A); [|exact Hn].
  simpl in P, C, A.
  unfold later_passes.
  rewrite m_res_bind, second_pass_res, result_Ok_bind, P. simpl fold_left.
  rewrite m_res_bind, third_pass_res, result_Ok_bind, C. simpl fold_left.
  simpl fst.
  rewrite m_res_bind, fourth_pass_res, result_Ok_bind.
  rewrite fourth_pass_fold_no_candidates by exact A. reflexivity.
Qed.

End Candidates.

(** ** The ids of the document are unique *)

Lemma to_uint_not_nil n : Nat.to_uint n ≠ Decimal.Nil.
Proof.
  intros E. pose proof (Unsigned.of_to n) as H. rewrite E in H.
  destruct n; [|discriminate].
  vm_compute in E. discriminate.
Qed.

Lemma str_of_nat_decode n :
  NilEmpty.uint_of_string (str_of_nat n) = Some (Nat.to_uint n).
Proof.
  unfold str_of_nat, NilZero.string_of_uint.
  pose proof (to_uint_not_nil n) as N.
  destruct (Nat.to_uint n) eqn:E; try done; rewrite <- E; apply NilEmpty.usu.
Qed.

Lemma zeros_decode k s d :
  NilEmpty.uint_of_string s = Some d →
  ∃ d', NilEmpty.uint_of_string
          (string_of_list_ascii (replicate k "0"%char) +:+ s) = Some d' ∧
        Nat.of_uint d' = Nat.of_uint d.
Proof.
  intros E. induction k as [|k (d' & E' & V)]; [exists d; done|].
  exists (Decimal.D0 d'). split.
  - simpl. rewrite E'. reflexivity.
  - rewrite <- V.
    transitivity (Nat.of_uint (Decimal.unorm (Decimal.D0 d'))).
    + symmetry. apply Unsigned.of_uint_norm.
    + exact (Unsigned.of_uint_norm d').
Qed.

Lemma fmt_04d_decode n : decode_nat (fmt_04d n) = Some n.
Proof.
  unfold decode_nat, fmt_04d. cbv zeta.
  destruct (zeros_decode (4 - String.length (str_of_nat n)) _ _
              (str_of_nat_decode n)) as (d' & -> & V).
  simpl. rewrite V, Unsigned.of_to. reflexivity.
Qed.

Lemma fmt_04d_inj n m : fmt_04d n = fmt_04d m → n = m.
Proof.
  intros E. pose proof (fmt_04d_decode n) as H. rewrite E, fmt_04d_decode in H.
  congruence.
Qed.

Lemma element_ids_app t1 t2 :
  element_ids (t1 ++ t2) = element_ids t1 ++ element_ids t2.
Proof. apply omap_app. Qed.

Lemma element_ids_alter n p (t : etree) :
  element_ids (alter (add_child n) p t) = element_ids t.
Proof.
  unfold element_ids. revert p. induction t as [|e t IH]; intros p; [reflexivity|].
  destruct p as [|p]; simpl; [reflexivity|].
  destruct (attrib e !! "id"%string); [f_equal|]; apply IH.
Qed.

Lemma element_ids_append_pair p mk points t :
  element_ids (append_pair p mk points t) =
  element_ids t ++ option_list (attrib (mk (length t)) !! "id"%string).
Proof.
  unfold append_pair. rewrite element_ids_app, element_ids_alter.
  f_equal.
Qed.

Lemma element_ids_region p element_type region_id region_type points t :
  element_ids (append_pair p (region_element element_type region_id region_type)
                 points t) =
  element_ids t ++ [region_id].
Proof.
  rewrite element_ids_append_pair. simpl. rewrite region_attrib_id. reflexivity.
Qed.

Lemma element_ids_line p line_id points t :
  element_ids (append_pair p (line_element line_id) points t) =
  element_ids t ++ [line_id].
Proof.
  rewrite element_ids_append_pair. simpl. rewrite lookup_singleton_eq. reflexivity.
Qed.

Lemma record_id_fresh n c l :
  Forall (record_id_below n) l → String c (fmt_04d n) ∉ l.
Proof.
  intros F Hin. rewrite Forall_forall in F.
  destruct (F _ Hin) as (c' & i & Li & E).
  injection E as _ E. apply fmt_04d_inj in E. lia.
Qed.

Lemma record_id_below_mono n m s :
  n ≤ m → record_id_below n s → record_id_below m s.
Proof. intros L (c & i & Li & E). exists c, i. split; [lia | exact E]. Qed.

Section Ids.

Context {builtins : PyBuiltins} {shapely : Shapely} {env : PyEnv}.

Variable mapping : gmap string (gmap string string).

Lemma region_ids_grow hp info refs :
  (∀ r, r ∈ refs → r < length hp) →
  region_ids (hp ++ [info]) refs = region_ids hp refs.
Proof.
  intros Hv. unfold region_ids. apply list_fmap_ext.
  intros i r Hr. rewrite lookup_total_app_l; [reflexivity|].
  apply Hv. eapply list_elem_of_lookup_2, Hr.
Qed.

Lemma region_ids_snoc hp info refs :
  (∀ r, r ∈ refs → r < length hp) →
  region_ids (hp ++ [info]) (refs ++ [length hp]) =
  region_ids hp refs ++ [ri_id info].
Proof.
  intros Hv. unfold region_ids at 1. rewrite fmap_app.
  fold (region_ids (hp ++ [info]) refs). rewrite region_ids_grow by exact Hv.
  simpl. rewrite lookup_total_app_r, Nat.sub_diag by lia. reflexivity.
Qed.

Lemma store_record_ids page st idx class_id abs_points st' :
  parent_refs_valid st → child_refs_valid st →
  m_res (store_record mapping page st idx class_id abs_points) = Ok st' →
  state_ids st' = state_ids st ∨
  ∃ c, state_ids st' ≡ₚ String c (fmt_04d idx) :: state_ids st.
Proof.
  intros Vp Vc. unfold store_record.
  destruct (decide _); [intros [= <-]; left; reflexivity|].
  destruct (String.eqb _ "TextLine").
  { intros [= <-]. right. exists "l"%char. unfold state_ids. simpl.
    rewrite fmap_app. simpl. solve_Permutation. }
  destruct (String.eqb _ "TextRegion").
  { set (info := mkRegionInfo _ _ _ _ _).
    destruct (String.eqb _ "TextRegion"); intros [= <-]; right;
      exists "r"%char; unfold state_ids; simpl.
    - rewrite region_ids_snoc, region_ids_grow by assumption.
      simpl. solve_Permutation.
    - rewrite region_ids_snoc, region_ids_grow by assumption.
      simpl. solve_Permutation. }
  destruct (bool_decide _); [|intros [= <-]; left; reflexivity].
  intros [= <-]. right. exists "r"%char. unfold state_ids. simpl.
  change (alter _ page (tree st) ++ _)
    with (append_pair page
            (region_element
               (default "TextLine"%string
                  (default ∅ (mapping !! str_of_class_id class_id) !! "element"))
               ("r" +:+ fmt_04d idx) None) abs_points (tree st)).
  rewrite element_ids_region. solve_Permutation.
Qed.

Lemma first_pass_step_ids page w h st idx line st' :
  parent_refs_valid st → child_refs_valid st →
  NoDup (state_ids st) → Forall (record_id_below idx) (state_ids st) →
  m_res (first_pass_step mapping page w h st (idx, line)) = Ok st' →
  parent_refs_valid st' ∧ child_refs_valid st' ∧
  NoDup (state_ids st') ∧ Forall (record_id_below (S idx)) (state_ids st').
Proof.
  intros Vp Vc N F H1.
  assert (F' : Forall (record_id_below (S idx)) (state_ids st)).
  { eapply Forall_impl; [exact F|]. intros s. apply record_id_below_mono. lia. }
  rewrite first_pass_step_cases in H1.
  destruct (strip line); [injection H1 as <-; done|].
  destruct (_parse_yolo_label line) as [[class_id points]|e]; [|discriminate].
  destruct points as [|pt points]; [injection H1 as <-; done|].
  destruct (_denormalize_points (pt :: points) w h) as [abs_points|e];
    [|discriminate].
  split; [eapply (store_record_refs_valid mapping); eassumption|].
  split; [eapply store_record_lists; eassumption|].
  destruct (store_record_ids _ _ _ _ _ _ Vp Vc H1) as [-> | [c P]]; [done|].
  rewrite P. split.
  - apply NoDup_cons. split; [apply record_id_fresh, F | exact N].
  - constructor; [exists c, idx; split; [lia | reflexivity] | exact F'].
Qed.

Lemma first_pass_ids page w h lines i st st' :
  parent_refs_valid st → child_refs_valid st →
  NoDup (state_ids st) → Forall (record_id_below i) (state_ids st) →
  m_res (for_each_M (first_pass_step mapping page w h)
           (enumerate_from i lines) st) = Ok st' →
  NoDup (state_ids st') ∧ ∃ n, Forall (record_id_below n) (state_ids st').
Proof.
  revert i st. induction lines as [|line lines IH]; intros i st Vp Vc N F.
  - simpl. intros [= <-]. eauto.
  - rewrite enumerate_from_cons, for_each_M_cons.
    intros (s1 & H1 & H2)%m_res_bind_Ok_split.
    apply first_pass_step_ids in H1 as (Vp1 & Vc1 & N1 & F1); try assumption.
    eapply IH; eassumption.
Qed.

Lemma region_ids_alter n c hp refs :
  region_ids (alter (set_ri_element n) c hp) refs = region_ids hp refs.
Proof.
  unfold region_ids. apply list_fmap_ext. intros i r _.
  rewrite list_lookup_total_alter.
  destruct (decide _) as [[-> _]|_]; reflexivity.
Qed.

Lemma attach_region_ids p c st :
  element_ids (tree (attach_region p c st)) =
  element_ids (tree st) ++ [ri_id (heap st !!! c)].
Proof. rewrite attach_region_tree. apply element_ids_region. Qed.

Lemma second_pass_fold_ids page refs st :
  let st' := fold_left (second_pass_step page) refs st in
  element_ids (tree st') = element_ids (tree st) ++ region_ids (heap st) refs ∧
  (∀ rs, region_ids (heap st') rs = region_ids (heap st) rs) ∧
  text_lines st' = text_lines st.
Proof.
  revert st. induction refs as [|r refs IH]; intros st.
  - simpl. rewrite app_nil_r. done.
  - cbv zeta. simpl fold_left. rewrite second_pass_step_attach.
    destruct (IH (attach_region page r st)) as (E & H & T).
    rewrite E, T, attach_region_ids. simpl heap.
    rewrite region_ids_alter, <- app_assoc. split; [reflexivity|].
    split; [|reflexivity]. intros rs. rewrite H. apply region_ids_alter.
Qed.

Lemma third_pass_fold_ids page refs st orphans :
  let st' := (fold_left (third_pass_step page) refs (st, orphans)).1 in
  element_ids (tree st') = element_ids (tree st) ++ region_ids (heap st) refs ∧
  text_lines st' = text_lines st.
Proof.
  revert st orphans. induction refs as [|c refs IH]; intros st orphans.
  - simpl. rewrite app_nil_r. done.
  - cbv zeta. simpl fold_left. rewrite third_pass_step_closed.
    destruct (_find_best_parent _ _ _ _) as [p|].
    + destruct (IH (attach_region p c st) orphans) as (E & T).
      rewrite E, T, attach_region_ids. simpl heap.
      rewrite region_ids_alter, <- app_assoc. done.
    + destruct (IH (attach_region page c st) (orphans ++ [ri_id (heap st !!! c)]))
        as (E & T).
      rewrite E, T, attach_region_ids. simpl heap.
      rewrite region_ids_alter, <- app_assoc. done.
Qed.

Lemma orphan_id_inj k k' : orphan_id k = orphan_id k' → k = k'.
Proof. intros E. injection E as E. apply fmt_04d_inj, E. Qed.

Lemma fourth_pass_fold_ids page lines st c :
  NoDup (element_ids (tree st) ++ (li_id <$> lines)) →
  (∀ s, s ∈ element_ids (tree st) ++ (li_id <$> lines) →
        is_orphan_id s = true → ∃ k, k < c ∧ s = orphan_id k) →
  NoDup (element_ids (tree (fold_left (fourth_pass_step page) lines (st, c)).1)).
Proof.
  revert st c. induction lines as [|li lines IH]; intros st c N O.
  - simpl in *. rewrite app_nil_r in N. exact N.
  - simpl fold_left. rewrite fourth_pass_step_closed.
    destruct (find_best_region _ _) as [r|].
    + apply IH; simpl tree; rewrite with_line_in_pair, element_ids_line,
        <- app_assoc; assumption.
    + assert (P : element_ids (with_orphan_region page (tree st) c li)
                  ++ (li_id <$> lines) ≡ₚ
                  orphan_id c :: element_ids (tree st) ++ (li_id <$> li :: lines)).
      { rewrite with_orphan_region_pair, element_ids_line, element_ids_region.
        rewrite fmap_cons. fold (orphan_id c). solve_Permutation. }
      apply IH; simpl tree.
      * rewrite P. apply NoDup_cons. split; [|exact N].
        intros Hin. destruct (O _ Hin (orphan_id_is_orphan c)) as (k & Lk & E).
        apply orphan_id_inj in E. lia.
      * intros s Hs Ho. rewrite P in Hs.
        apply elem_of_cons in Hs as [->|Hs]; [exists c; split; [lia | reflexivity]|].
        destruct (O s Hs Ho) as (k & Lk & E). exists k. split; [lia | exact E].
Qed.

(** X9. In the document of a successful conversion no two elements have
    the same [id]. *)
Theorem element_ids_unique lines img_name w h t :
  m_res (convert_page mapping (Some lines) (Some (img_name, w, h))) = Ok t →
  NoDup (element_ids t).
Proof.
  rewrite convert_page_passes.
  intros (s1 & H1 & H2)%m_res_bind_Ok_split.
  apply first_pass_ids in H1 as [N [n F]];
    [|intros r Hr; inversion Hr | intros r Hr; inversion Hr
     |apply NoDup_nil_2 | apply Forall_nil_2].
  unfold later_passes in H2.
  rewrite m_res_bind, second_pass_res, result_Ok_bind in H2.
  destruct (second_pass_fold_ids (_create_page_element img_name w h).2
              (parent_text_regions s1) s1) as (E2 & R2 & T2).
  pose proof (second_pass_fold_lists (_create_page_element img_name w h).2
                (parent_text_regions s1) s1) as (_ & C2 & _).
  set (s2 := fold_left _ (parent_text_regions s1) s1) in *.
  rewrite m_res_bind, third_pass_res, result_Ok_bind in H2.
  destruct (third_pass_fold_ids (_create_page_element img_name w h).2
              (child_text_regions s2) s2 []) as (E3 & T3).
  set (s3 := (fold_left _ (child_text_regions s2) (s2, [])).1) in *.
  rewrite m_res_bind, fourth_pass_res, result_Ok_bind in H2.
  injection H2 as <-.
  assert (E : element_ids (tree s3) ++ (li_id <$> text_lines s3) = state_ids s1).
  { rewrite E3, E2, R2, C2, T3, T2. unfold state_ids.
    rewrite <- !app_assoc. reflexivity. }
  apply (fourth_pass_fold_ids _ _ _ 0); rewrite E; [exact N|].
  intros s Hs Ho. rewrite Forall_forall in F.
  destruct (F s Hs) as (c & i & _ & ->).
  rewrite record_id_not_orphan in Ho. discriminate.
Qed.

End Ids.

(** ** The batch loop of [convert_folder] *)

Section Folder.

Context {builtins : PyBuiltins} {shapely : Shapely} {env : PyEnv}.

Variable mapping : gmap string (gmap string string).

Lemma convert_folder_step_spec images b f :
  let b' := convert_folder_step mapping images b f in
  converted b' + failed b' = S (converted b + failed b) ∧
  written b' = written b ++ option_list (page_output mapping images f) ∧
  converted b' = converted b + length (option_list (page_output mapping images f)).
Proof.
  destruct f as [stem lines]. unfold convert_folder_step, page_output.
  cbn [fst snd].
  destruct (find_image images stem image_extensions) as [img|];
    cbn [mbind option_bind].
  - destruct (m_res (convert_page _ _ _)) as [t|e];
      cbn [converted failed written option_list];
      rewrite ?app_nil_r; simpl length; repeat split; lia.
  - cbn [converted failed written option_list]. rewrite app_nil_r.
    simpl length. repeat split; lia.
Qed.

Lemma convert_folder_fold_spec images txt_files b :
  let b' := fold_left (convert_folder_step mapping images) txt_files b in
  converted b' + failed b' = converted b + failed b + length txt_files ∧
  written b' = written b ++ omap (page_output mapping images) txt_files ∧
  converted b' = converted b + length (omap (page_output mapping images) txt_files).
Proof.
  revert b. induction txt_files as [|f fs IH]; intros b.
  - simpl. rewrite app_nil_r. repeat split; lia.
  - cbv zeta. simpl fold_left.
    destruct (IH (convert_folder_step mapping images b f)) as (C & W & N).
    destruct (convert_folder_step_spec images b f) as (C' & W' & N').
    split; [rewrite C, C'; simpl; lia|]. rewrite W, N, W', N'.
    set (rest := omap (page_output mapping images) fs).
    assert (E : omap (page_output mapping images) (f :: fs) =
                option_list (page_output mapping images f) ++ rest)
      by (simpl; destruct (page_output mapping images f); reflexivity).
    rewrite E, length_app, app_assoc. split; [reflexivity | lia].
Qed.

(** X16. When both folders exist, [convert_folder] counts every label
    file once, as converted or as failed, and writes one file per converted
    one: the files written are, in the order of the label files, the
    documents [convert_page] produces for the label files that have an image
    and convert, so a label file without image or one that raises changes
    nothing for the others. *)
Theorem batch_accounts_for_every_label_file txt_files images b :
  convert_folder mapping (Some txt_files) (Some images) = Ok b →
  converted b + failed b = length txt_files ∧
  length (written b) = converted b ∧
  written b = omap (page_output mapping images) txt_files.
Proof.
  unfold convert_folder. destruct txt_files as [|f fs] eqn:E.
  { intros [= <-]. done. }
  rewrite <- E. intros [= <-]. simpl.
  destruct (convert_folder_fold_spec images txt_files
              (mkBatch 0 0 [] [Info_found (length txt_files)]))
    as (C & W & N).
  simpl in *. split; [lia|]. rewrite W, N. done.
Qed.

End Folder.

(** ** The hierarchy of the document *)

Lemma tagged_lt (t : etree) h s : tag (t !!! h) = s → s ≠ EmptyString → h < length t.
Proof.
  intros E N. destruct (decide (h < length t)) as [L|L]; [exact L|].
  rewrite list_lookup_total_alt, lookup_ge_None_2 in E by lia. simpl in E.
  congruence.
Qed.

Lemma append_pair_old p mk points t q :
  q < length t →
  tag (append_pair p mk points t !!! q) = tag (t !!! q) ∧
  ∀ h, child_of t q h → child_of (append_pair p mk points t) q h.
Proof.
  intros L. unfold child_of, append_pair.
  rewrite lookup_total_app_l by (rewrite length_alter; exact L).
  rewrite list_lookup_total_alter. destruct (decide _) as [[-> _]|_].
  - split; [reflexivity|]. intros h Hh. simpl. apply elem_of_app. auto.
  - split; [reflexivity | auto].
Qed.

Lemma append_pair_new p mk points t :
  p < length t →
  child_of (append_pair p mk points t) p (length t).
Proof.
  intros L. unfold child_of, append_pair.
  rewrite lookup_total_app_l by (rewrite length_alter; exact L).
  rewrite list_lookup_total_alter, decide_True by done.
  simpl. apply elem_of_app. right. apply list_elem_of_here.
Qed.

Lemma append_pair_tag_cases p mk points t h :
  (h < length t ∧ tag (append_pair p mk points t !!! h) = tag (t !!! h)) ∨
  (h = length t ∧ tag (append_pair p mk points t !!! h) = tag (mk (length t))) ∨
  tag (append_pair p mk points t !!! h) = "Coords"%string ∨
  tag (append_pair p mk points t !!! h) = EmptyString.
Proof.
  destruct (decide (h < length t)) as [L|L].
  { left. split; [exact L|]. apply append_pair_old, L. }
  right. unfold append_pair.
  rewrite lookup_total_app_r by (rewrite length_alter; lia).
  rewrite length_alter.
  destruct (h - length t) as [|[|k]] eqn:K; simpl.
  - left. split; [lia | reflexivity].
  - right. left. reflexivity.
  - right. right. reflexivity.
Qed.

Lemma child_of_lt (t : etree) p h : child_of t p h → p < length t.
Proof.
  unfold child_of. intros Hh.
  destruct (decide (p < length t)) as [L|L]; [exact L|].
  rewrite list_lookup_total_alt, lookup_ge_None_2 in Hh by lia.
  simpl in Hh. inversion Hh.
Qed.

Lemma child_of_append p mk points t q h :
  child_of t q h → child_of (append_pair p mk points t) q h.
Proof.
  intros Hc. apply append_pair_old; [eapply child_of_lt, Hc | exact Hc].
Qed.

Lemma tag_append p mk points t q s :
  tag (t !!! q) = s → s ≠ EmptyString →
  tag (append_pair p mk points t !!! q) = s.
Proof.
  intros E N. rewrite <- E. apply append_pair_old. eapply tagged_lt; eassumption.
Qed.

Lemma nesting_ok_append page p mk points t :
  page < length t → nesting_ok page t →
  (tag (mk (length t)) = "TextRegion"%string →
   p = page ∨ (child_of t page p ∧ tag (t !!! p) = "TextRegion"%string)) →
  nesting_ok page (append_pair p mk points t).
Proof.
  intros Lp Hn Hnew h Hh.
  destruct (append_pair_tag_cases p mk points t h)
    as [[L E] | [[-> E] | [E | E]]]; rewrite E in Hh; try discriminate.
  - destruct (Hn h Hh) as [Hc | (q & Hq & Tq & Hc)].
    + left. apply child_of_append, Hc.
    + right. exists q. split; [apply child_of_append, Hq|].
      split; [apply tag_append; done | apply child_of_append, Hc].
  - destruct (Hnew Hh) as [-> | [Hc Tp]].
    + left. apply append_pair_new, Lp.
    + right. exists p. split; [apply child_of_append, Hc|].
      split; [apply tag_append; done|].
      apply append_pair_new. eapply tagged_lt; [exact Tp | done].
Qed.

Lemma lines_in_regions_append p mk points t :
  lines_in_regions t →
  (tag (mk (length t)) = "TextLine"%string →
   tag (t !!! p) = "TextRegion"%string) →
  lines_in_regions (append_pair p mk points t).
Proof.
  intros Hl Hnew h Hh.
  destruct (append_pair_tag_cases p mk points t h)
    as [[L E] | [[-> E] | [E | E]]]; rewrite E in Hh; try discriminate.
  - destruct (Hl h Hh) as (q & Hc & Tq). exists q.
    split; [apply child_of_append, Hc | apply tag_append; done].
  - specialize (Hnew Hh). exists p. split; [|apply tag_append; done].
    apply append_pair_new. eapply tagged_lt; [exact Hnew | done].
Qed.

Lemma region_element_tag element_type region_id region_type n :
  tag (region_element element_type region_id region_type n) = element_type.
Proof. reflexivity. Qed.

Lemma append_pair_new_tag p mk points (t : etree) :
  tag (append_pair p mk points t !!! length t) = tag (mk (length t)).
Proof.
  unfold append_pair.
  rewrite lookup_total_app_r by (rewrite length_alter; lia).
  rewrite length_alter, Nat.sub_diag. reflexivity.
Qed.

(** A step that appends a pair to the document and leaves the heap and the
    list of top-level regions alone. *)
Lemma hierarchy_ok_append page p mk points st st' :
  tree st' = append_pair p mk points (tree st) →
  heap st' = heap st → parent_text_regions st' = parent_text_regions st →
  hierarchy_ok page st →
  (tag (mk (length (tree st))) = "TextRegion"%string → p = page) →
  (tag (mk (length (tree st))) = "TextLine"%string →
   tag (tree st !!! p) = "TextRegion"%string) →
  hierarchy_ok page st'.
Proof.
  intros Et Eh Ep (Lp & Hn & Hl & Hr & Ht) Hreg Hline.
  unfold hierarchy_ok, regions_tagged, tops_ok. rewrite Et, Eh, Ep.
  split; [rewrite length_append_pair; lia|].
  split; [apply nesting_ok_append; auto|].
  split; [apply lines_in_regions_append; auto|].
  split.
  - intros r e He. apply tag_append; [eapply Hr, He | done].
  - intros r e Hin He. apply child_of_append. eapply Ht; eassumption.
Qed.

Lemma hierarchy_ok_attach page p c st :
  hierarchy_ok page st →
  p = page ∨
  (child_of (tree st) page p ∧ tag (tree st !!! p) = "TextRegion"%string ∧
   c ∉ parent_text_regions st) →
  hierarchy_ok page (attach_region p c st).
Proof.
  intros (Lp & Hn & Hl & Hr & Ht) Hp.
  unfold hierarchy_ok, regions_tagged, tops_ok.
  rewrite attach_region_tree.
  change (heap (attach_region p c st))
    with (alter (set_ri_element (length (tree st))) c (heap st)).
  change (parent_text_regions (attach_region p c st))
    with (parent_text_regions st).
  split; [rewrite length_append_pair; lia|].
  split; [apply nesting_ok_append; [exact Lp | exact Hn |]; intros _; tauto|].
  split; [apply lines_in_regions_append; [exact Hl | discriminate]|].
  split.
  - intros r e. rewrite list_lookup_total_alter.
    destruct (decide _) as [[-> _]|_].
    + intros [= <-]. rewrite append_pair_new_tag. reflexivity.
    + intros He. apply tag_append; [eapply Hr, He | done].
  - intros r e Hin. rewrite list_lookup_total_alter.
    destruct (decide _) as [[-> _]|_].
    + intros [= <-]. destruct Hp as [-> | (_ & _ & Hc)]; [|done].
      apply append_pair_new, Lp.
    + intros He. apply child_of_append. eapply Ht; eassumption.
Qed.

Section Hierarchy.

Context {builtins : PyBuiltins} {shapely : Shapely} {env : PyEnv}.

Variable mapping : gmap string (gmap string string).

Lemma hierarchy_ok_new_info page st st' info :
  tree st' = tree st → heap st' = heap st ++ [info] →
  ri_element info = None →
  (∀ r, r ∈ parent_text_regions st' →
        r ∈ parent_text_regions st ∨ r = length (heap st)) →
  parent_refs_valid st →
  hierarchy_ok page st → hierarchy_ok page st'.
Proof.
  intros Et Eh Ei Ep Vp (Lp & Hn & Hl & Hr & Ht).
  unfold hierarchy_ok, regions_tagged, tops_ok. rewrite Et, Eh.
  assert (Look : ∀ r e, ri_element ((heap st ++ [info]) !!! r) = Some e →
                        r < length (heap st) ∧
                        ri_element (heap st !!! r) = Some e).
  { intros r e. destruct (decide (r < length (heap st))) as [L|L].
    - rewrite lookup_total_app_l by exact L. auto.
    - rewrite lookup_total_app_r by lia.
      destruct (r - length (heap st)) as [|k]; simpl; [congruence|].
      rewrite list_lookup_total_alt. destruct k; discriminate. }
  repeat split; try assumption.
  - intros r e He. apply Look in He as [_ He]. eapply Hr, He.
  - intros r e Hin He. apply Look in He as [L He].
    destruct (Ep r Hin) as [Hin' | ->]; [|lia]. eapply Ht; eassumption.
Qed.

Lemma store_record_hierarchy page st idx class_id abs_points st' :
  hierarchy_ok page st → parent_refs_valid st → child_refs_valid st →
  refs_disjoint st →
  m_res (store_record mapping page st idx class_id abs_points) = Ok st' →
  hierarchy_ok page st' ∧ refs_disjoint st'.
Proof.
  intros Hh Vp Vc Hd. unfold store_record.
  destruct (decide _); [intros [= <-]; done|].
  destruct (String.eqb _ "TextLine").
  { intros [= <-]. split; [|exact Hd].
    destruct Hh as (Lp & Hn & Hl & Hr & Ht). done. }
  destruct (String.eqb _ "TextRegion") eqn:R.
  { set (info := mkRegionInfo _ _ _ _ _).
    destruct (String.eqb (default EmptyString _) "TextRegion");
      intros [= <-]; split.
    - eapply (hierarchy_ok_new_info page st _ info);
        [reflexivity | reflexivity | reflexivity | auto | exact Vp | exact Hh].
    - intros r Hr Hp. simpl in Hr, Hp.
      apply elem_of_app in Hr as [Hr|Hr]; [exact (Hd r Hr Hp)|].
      apply list_elem_of_singleton in Hr as ->. specialize (Vp _ Hp). lia.
    - eapply (hierarchy_ok_new_info page st _ info);
        [reflexivity | reflexivity | reflexivity | | exact Vp | exact Hh].
      simpl. intros r Hr. apply elem_of_app in Hr as [Hr|Hr]; [auto|].
      apply list_elem_of_singleton in Hr. auto.
    - intros r Hr Hp. simpl in Hr, Hp.
      apply elem_of_app in Hp as [Hp|Hp]; [exact (Hd r Hr Hp)|].
      apply list_elem_of_singleton in Hp as ->. specialize (Vc _ Hr). lia. }
  destruct (bool_decide _) eqn:O; intros [= <-]; [|done].
  split; [|exact Hd].
  eapply (hierarchy_ok_append page page
            (region_element _ ("r" +:+ fmt_04d idx) None) abs_points st);
    [reflexivity | reflexivity | reflexivity | exact Hh | auto |].
  rewrite region_element_tag. intros E. rewrite E in O.
  vm_compute in O. discriminate.
Qed.

Lemma first_pass_hierarchy page w h lines i st st' :
  hierarchy_ok page st → parent_refs_valid st → child_refs_valid st →
  refs_disjoint st →
  m_res (for_each_M (first_pass_step mapping page w h)
           (enumerate_from i lines) st) = Ok st' →
  hierarchy_ok page st' ∧ refs_disjoint st'.
Proof.
  revert i st. induction lines as [|line lines IH]; intros i st Hh Vp Vc Hd.
  - simpl. intros [= <-]. done.
  - rewrite enumerate_from_cons, for_each_M_cons.
    intros (s1 & H1 & H2)%m_res_bind_Ok_split.
    assert (S1 : hierarchy_ok page s1 ∧ refs_disjoint s1 ∧
                 parent_refs_valid s1 ∧ child_refs_valid s1).
    { rewrite first_pass_step_cases in H1.
      destruct (strip line); [injection H1 as <-; done|].
      destruct (_parse_yolo_label line) as [[class_id points]|e]; [|discriminate].
      destruct points as [|pt points]; [injection H1 as <-; done|].
      destruct (_denormalize_points (pt :: points) w h) as [abs_points|e];
        [|discriminate].
      destruct (store_record_hierarchy _ _ _ _ _ _ Hh Vp Vc Hd H1) as [Hh1 Hd1].
      split; [exact Hh1|]. split; [exact Hd1|].
      split; [eapply (store_record_refs_valid mapping); eassumption|].
      eapply store_record_lists; eassumption. }
    destruct S1 as (Hh1 & Hd1 & Vp1 & Vc1). eapply IH; eassumption.
Qed.

Lemma second_pass_fold_hierarchy page refs st :
  hierarchy_ok page st →
  hierarchy_ok page (fold_left (second_pass_step page) refs st).
Proof.
  revert st. induction refs as [|r refs IH]; intros st Hh; [exact Hh|].
  simpl fold_left. rewrite second_pass_step_attach.
  apply IH, hierarchy_ok_attach; auto.
Qed.

Lemma third_pass_fold_hierarchy page refs st orphans :
  hierarchy_ok page st →
  (∀ c, c ∈ refs → c ∉ parent_text_regions st) →
  hierarchy_ok page (fold_left (third_pass_step page) refs (st, orphans)).1.
Proof.
  revert st orphans. induction refs as [|c refs IH]; intros st orphans Hh Hd;
    [exact Hh|].
  simpl fold_left. rewrite third_pass_step_closed.
  destruct (_find_best_parent _ _ _ _) as [p|] eqn:F.
  - apply IH.
    + apply hierarchy_ok_attach; [exact Hh|]. right.
      apply find_best_parent_elem in F as (ri & Hri & He).
      apply list_elem_of_fmap in Hri as (r & -> & Hin).
      destruct Hh as (Lp & Hn & Hl & Hr & Ht).
      split; [eapply Ht; eassumption|].
      split; [eapply Hr; eassumption|]. apply Hd, list_elem_of_here.
    + intros c' Hc'. apply Hd, list_elem_of_further, Hc'.
  - apply IH.
    + apply hierarchy_ok_attach; auto.
    + intros c' Hc'. apply Hd, list_elem_of_further, Hc'.
Qed.

Lemma fourth_pass_fold_hierarchy page lines st c :
  hierarchy_ok page st →
  hierarchy_ok page (fold_left (fourth_pass_step page) lines (st, c)).1.
Proof.
  revert st c. induction lines as [|li lines IH]; intros st c Hh; [exact Hh|].
  simpl fold_left. rewrite fourth_pass_step_closed.
  destruct (find_best_region _ _) as [r|] eqn:F.
  - apply IH.
    eapply (hierarchy_ok_append page r (line_element (li_id li)) (li_points li) st);
      [apply with_line_in_pair | reflexivity | reflexivity | exact Hh
      | discriminate |].
    intros _. apply find_best_region_elem in F as (ri & Hri & He).
    apply list_elem_of_fmap in Hri as (r' & -> & _).
    destruct Hh as (_ & _ & _ & Hr & _). eapply Hr, He.
  - apply IH.
    set (mk := region_element "TextRegion" ("r_orphan" +:+ fmt_04d c)
                 (Some (default "paragraph"%string
                          (li_config li !! "parent_type")))).
    set (st1 := with_tree (append_pair page mk (li_points li) (tree st)) st).
    assert (H1 : hierarchy_ok page st1).
    { eapply (hierarchy_ok_append page page mk (li_points li) st);
        [reflexivity | reflexivity | reflexivity | exact Hh | auto
        | discriminate]. }
    eapply (hierarchy_ok_append page (length (tree st))
              (line_element (li_id li)) (li_points li) st1);
      [apply with_orphan_region_pair | reflexivity | reflexivity | exact H1
      | discriminate |].
    intros _. apply (append_pair_new_tag page mk (li_points li) (tree st)).
Qed.

Lemma convert_page_hierarchy lines img_name w h t :
  m_res (convert_page mapping (Some lines) (Some (img_name, w, h))) = Ok t →
  nesting_ok (_create_page_element img_name w h).2 t ∧ lines_in_regions t.
Proof.
  rewrite convert_page_passes.
  intros (s1 & H1 & H2)%m_res_bind_Ok_split.
  set (page := (_create_page_element img_name w h).2) in *.
  assert (H0 : hierarchy_ok page
                 (mkState (_create_page_element img_name w h).1.1 [] [] [] [] [])).
  { split; [change (5 < 6); lia|].
    assert (T : ∀ h0 s, tag ((_create_page_element img_name w h).1.1 !!! h0) = s →
                s ≠ "TextRegion"%string ∧ s ≠ "TextLine"%string).
    { intros h0 s <-.
      destruct h0 as [|[|[|[|[|[|h0]]]]]]; split; discriminate. }
    split; [intros h0 E; apply T in E as [E _]; done|].
    split; [intros h0 E; apply T in E as [_ E]; done|].
    split; [intros r e He; destruct r; discriminate|].
    intros r e Hr. inversion Hr. }
  pose proof H1 as Vc.
  apply first_pass_lists in Vc as [Vc _]; [|intros r Hr; inversion Hr].
  apply first_pass_hierarchy in H1 as [Hh1 Hd1];
    [|exact H0 | intros r Hr; inversion Hr | intros r Hr; inversion Hr
     |intros r Hr; inversion Hr].
  unfold later_passes in H2.
  rewrite m_res_bind, second_pass_res, result_Ok_bind in H2.
  pose proof (second_pass_fold_hierarchy page (parent_text_regions s1) s1 Hh1)
    as Hh2.
  pose proof (second_pass_fold_lists page (parent_text_regions s1) s1)
    as (_ & C2 & _).
  pose proof (second_pass_fold_parents page (parent_text_regions s1) s1) as P2.
  set (s2 := fold_left (second_pass_step page) (parent_text_regions s1) s1) in *.
  rewrite m_res_bind, third_pass_res, result_Ok_bind in H2.
  assert (Hh3 : hierarchy_ok page
                  (fold_left (third_pass_step page) (child_text_regions s2)
                     (s2, [])).1).
  { apply third_pass_fold_hierarchy; [exact Hh2|].
    intros c Hc. rewrite P2. apply Hd1. rewrite <- C2. exact Hc. }
  set (s3 := (fold_left (third_pass_step page) (child_text_regions s2)
                (s2, [])).1) in *.
  rewrite m_res_bind, fourth_pass_res, result_Ok_bind in H2.
  injection H2 as <-.
  destruct (fourth_pass_fold_hierarchy page (text_lines s3) s3 0 Hh3)
    as (_ & Hn & Hl & _).
  split; assumption.
Qed.

(** X10. In the document of a successful conversion every TextRegion is
    a child of Page or a child of a TextRegion that is a child of Page:
    regions nest one level deep at most. *)
Theorem regions_nest_at_most_once lines img_name w h t :
  m_res (convert_page mapping (Some lines) (Some (img_name, w, h))) = Ok t →
  nesting_ok (_create_page_element img_name w h).2 t.
Proof. intros H. apply convert_page_hierarchy in H as [Hn _]. exact Hn. Qed.

(** X11. In the document of a successful conversion every TextLine is
    a child of a TextRegion, never of Page or of another element. *)
Theorem every_text_line_in_a_text_region lines img_name w h t :
  m_res (convert_page mapping (Some lines) (Some (img_name, w, h))) = Ok t →
  lines_in_regions t.
Proof. intros H. apply convert_page_hierarchy in H as [_ Hl]. exact Hl. Qed.

End Hierarchy.

(** ** The points string *)

Lemma char_free_app c s1 s2 :
  char_free c s1 → char_free c s2 → char_free c (s1 +:+ s2).
Proof. induction s1 as [|a s1 IH]; simpl; [auto | intros [N F] F2; auto]. Qed.

(** A string is cut in one way only at the first occurrence of [c]. *)
Lemma cut_unique c a a' r r' :
  char_free c a → char_free c a' →
  a +:+ String c r = a' +:+ String c r' → a = a' ∧ r = r'.
Proof.
  revert a'. induction a as [|x a IH]; intros [|x' a'] Fa Fa' E; simpl in *.
  - injection E as ->. done.
  - injection E as <- _. destruct Fa' as [N _]. done.
  - injection E as -> _. destruct Fa as [N _]. done.
  - injection E as -> E. destruct Fa as [_ Fa], Fa' as [_ Fa'].
    destruct (IH a' Fa Fa' E) as [-> ->]. done.
Qed.

Lemma cut_none c a a' r :
  char_free c a → a = a' +:+ String c r → False.
Proof.
  revert a'. induction a as [|x a IH]; intros [|x' a'] Fa E; simpl in *;
    try discriminate.
  - injection E as -> _. destruct Fa as [N _]. done.
  - injection E as _ E. destruct Fa as [_ Fa]. eapply IH; eassumption.
Qed.

Lemma uint_digits c d :
  c ≠ "0"%char → c ≠ "1"%char → c ≠ "2"%char → c ≠ "3"%char → c ≠ "4"%char →
  c ≠ "5"%char → c ≠ "6"%char → c ≠ "7"%char → c ≠ "8"%char → c ≠ "9"%char →
  char_free c (NilEmpty.string_of_uint d).
Proof.
  intros. induction d; simpl; auto.
Qed.

Lemma str_of_Z_char_free c z :
  c = ","%char ∨ c = " "%char → char_free c (str_of_Z z).
Proof.
  intros Hc. unfold str_of_Z.
  assert (U : ∀ d, char_free c (NilZero.string_of_uint d)).
  { intros d. unfold NilZero.string_of_uint.
    assert (char_free c (NilEmpty.string_of_uint d))
      by (destruct Hc as [-> | ->]; apply uint_digits; discriminate).
    destruct d; try assumption. simpl. destruct Hc as [-> | ->]; done. }
  destruct (Z.to_int z) as [d|d]; simpl; [apply U|].
  split; [destruct Hc as [-> | ->]; discriminate | apply U].
Qed.

Lemma str_of_Z_inj x y : str_of_Z x = str_of_Z y → x = y.
Proof.
  unfold str_of_Z. intros E. apply to_int_inj.
  assert (I : ∀ z, NilZero.int_of_string (NilZero.string_of_int (Z.to_int z)) =
                   Some (Z.to_int z)).
  { intros z. apply NilZero.isi; intros N.
    - pose proof (of_to z) as H. rewrite N in H. simpl in H. subst z.
      vm_compute in N. discriminate.
    - pose proof (of_to z) as H. rewrite N in H. simpl in H. subst z.
      vm_compute in N. discriminate. }
  pose proof (I x) as Hx. rewrite E, I in Hx. congruence.
Qed.

Lemma points_to_string_items points :
  _points_to_string points = join " " (point_item <$> points).
Proof.
  unfold _points_to_string. f_equal. apply list_fmap_ext.
  intros i [x y] _. reflexivity.
Qed.

Lemma point_item_inj p q : point_item p = point_item q → p = q.
Proof.
  destruct p as [x y], q as [x' y']. unfold point_item. simpl.
  intros E. apply cut_unique in E as [Ex Ey];
    [|apply str_of_Z_char_free; auto..].
  apply str_of_Z_inj in Ex, Ey. congruence.
Qed.

Lemma point_item_no_space p : char_free " " (point_item p).
Proof.
  unfold point_item. apply char_free_app; [apply str_of_Z_char_free; auto|].
  split; [discriminate | apply str_of_Z_char_free; auto].
Qed.

Lemma point_item_nonempty p : point_item p ≠ EmptyString.
Proof.
  unfold point_item. destruct (str_of_Z p.1); discriminate.
Qed.

Lemma join_cons2 sep x y l :
  join sep (x :: y :: l) = x +:+ sep +:+ join sep (y :: l).
Proof. reflexivity. Qed.

(** X4. The points string written to a Coords element determines the
    polygon: two point lists with the same string are equal. *)
Theorem points_string_determines_points (p q : list (Z * Z)) :
  _points_to_string p = _points_to_string q → p = q.
Proof.
  rewrite !points_to_string_items. revert q.
  induction p as [|a p IH]; intros [|b q] E.
  - reflexivity.
  - exfalso. destruct q as [|b2 q]; simpl in E.
    + symmetry in E. apply (point_item_nonempty b E).
    + destruct (point_item b); discriminate.
  - exfalso. destruct p as [|a2 p]; simpl in E.
    + apply (point_item_nonempty a E).
    + destruct (point_item a); discriminate.
  - destruct p as [|a2 p], q as [|b2 q]; rewrite !fmap_cons in E.
    + simpl in E. apply point_item_inj in E as ->. reflexivity.
    + exfalso. rewrite join_cons2 in E.
      eapply (cut_none " "%char); [apply (point_item_no_space a) | exact E].
    + exfalso. rewrite join_cons2 in E.
      eapply (cut_none " "%char); [apply (point_item_no_space b)|].
      symmetry. exact E.
    + rewrite !join_cons2 in E.
      apply cut_unique in E as [Ea Er]; [|apply point_item_no_space..].
      apply point_item_inj in Ea as ->. f_equal. apply IH.
      rewrite !fmap_cons. exact Er.
Qed.

(** ** Every stored record is emitted with its polygon *)

Lemma grown_refl t : grown t t.
Proof.
  split; [lia|]. intros h _. repeat split. exists []. rewrite app_nil_r. done.
Qed.

Lemma grown_trans t1 t2 t3 : grown t1 t2 → grown t2 t3 → grown t1 t3.
Proof.
  intros [L1 K1] [L2 K2]. split; [lia|]. intros h Lh.
  destruct (K1 h Lh) as (T1 & A1 & X1 & m1 & C1).
  destruct (K2 h ltac:(lia)) as (T2 & A2 & X2 & m2 & C2).
  split; [congruence|]. split; [congruence|]. split; [congruence|].
  exists (m1 ++ m2). rewrite C2, C1, app_assoc. reflexivity.
Qed.

Lemma grown_append_pair p mk points t : grown t (append_pair p mk points t).
Proof.
  split; [rewrite length_append_pair; lia|]. intros h Lh.
  unfold kept, append_pair.
  rewrite lookup_total_app_l by (rewrite length_alter; exact Lh).
  rewrite list_lookup_total_alter. destruct (decide _) as [[-> _]|_].
  - repeat split. exists [length t]. reflexivity.
  - repeat split. exists []. rewrite app_nil_r. reflexivity.
Qed.

Lemma emits_grown t t' tg id points :
  grown t t' → emits t tg id points → emits t' tg id points.
Proof.
  intros [L K] (h & Tg & Id & Hd & Tc & Pc).
  assert (Lc : S h < length t) by (eapply tagged_lt; [exact Tc | done]).
  destruct (K h ltac:(lia)) as (T1 & A1 & _ & m1 & C1).
  destruct (K (S h) Lc) as (T2 & A2 & _).
  exists h. rewrite T1, A1, T2, A2, C1. repeat split; try assumption.
  destruct (children (t !!! h)); [discriminate | exact Hd].
Qed.

Lemma emits_new p mk points (t : etree) :
  (∀ n, children (mk n) = [S n]) →
  emits (append_pair p mk points t) (tag (mk (length t)))
    (default EmptyString (attrib (mk (length t)) !! "id"%string)) points
  ∨ attrib (mk (length t)) !! "id"%string = None.
Proof.
  intros Hmk.
  destruct (attrib (mk (length t)) !! "id"%string) as [id|] eqn:Id; [|auto].
  left. exists (length t). unfold append_pair.
  rewrite !lookup_total_app_r by (rewrite length_alter; lia).
  rewrite length_alter, Nat.sub_diag.
  replace (S (length t) - length t) with 1 by lia. simpl.
  rewrite Id, Hmk. repeat split.
Qed.

Lemma emits_region p element_type region_id region_type points (t : etree) :
  emits (append_pair p (region_element element_type region_id region_type)
           points t) element_type region_id points.
Proof.
  destruct (emits_new p (region_element element_type region_id region_type)
              points t ltac:(reflexivity)) as [E|E];
    simpl in E; rewrite region_attrib_id in E; [exact E | discriminate].
Qed.

Lemma emits_line p line_id points (t : etree) :
  emits (append_pair p (line_element line_id) points t)
    "TextLine" line_id points.
Proof.
  destruct (emits_new p (line_element line_id) points t ltac:(reflexivity))
    as [E|E]; simpl in E; rewrite lookup_singleton_eq in E;
    [exact E | discriminate].
Qed.

Lemma set_ri_element_same n c (hp : list region_info) r :
  ri_id (alter (set_ri_element n) c hp !!! r) = ri_id (hp !!! r) ∧
  ri_points (alter (set_ri_element n) c hp !!! r) = ri_points (hp !!! r).
Proof.
  rewrite list_lookup_total_alter.
  destruct (decide _) as [[-> _]|_]; split; reflexivity.
Qed.

Section Emitted.

Context {builtins : PyBuiltins} {shapely : Shapely} {env : PyEnv}.

Variable mapping : gmap string (gmap string string).

Lemma store_record_holds page st idx class_id abs_points st' :
  parent_refs_valid st → child_refs_valid st →
  m_res (store_record mapping page st idx class_id abs_points) = Ok st' →
  (∀ tg id points, holds st tg id points → holds st' tg id points) ∧
  (let cfg := default ∅ (mapping !! str_of_class_id class_id) in
   cfg ≠ ∅ → recognised cfg = true →
   holds st' (default "TextLine"%string (cfg !! "element"))
     (record_id (default "TextLine"%string (cfg !! "element")) idx) abs_points).
Proof.
  intros Vp Vc. unfold store_record, recognised, record_id. cbv zeta.
  set (cfg := default ∅ (mapping !! str_of_class_id class_id)).
  set (et := default "TextLine"%string (cfg !! "element")).
  destruct (decide (cfg = ∅)) as [E|E]; [intros [= <-]; done|].
  destruct (String.eqb et "TextLine") eqn:TL.
  { apply String.eqb_eq in TL. intros [= <-]. split.
    - intros tg id points [He | [Hw | (-> & li & Hli & Hid)]].
      + left. exact He.
      + right. left. exact Hw.
      + right. right. split; [reflexivity|]. exists li. simpl.
        split; [apply elem_of_app; auto | exact Hid].
    - intros _ _. right. right. split; [exact TL|].
      eexists. simpl. split; [apply elem_of_app; right; apply list_elem_of_here|].
      done. }
  destruct (String.eqb et "TextRegion") eqn:TR.
  { apply String.eqb_eq in TR.
    set (info := mkRegionInfo _ _ _ _ _).
    assert (Old : ∀ st1, tree st1 = tree st → heap st1 = heap st ++ [info] →
              text_lines st1 = text_lines st →
              (∀ r, r ∈ parent_text_regions st ++ child_text_regions st →
                    r ∈ parent_text_regions st1 ++ child_text_regions st1) →
              length (heap st) ∈ parent_text_regions st1 ++ child_text_regions st1 →
              (∀ tg id points, holds st tg id points → holds st1 tg id points) ∧
              (cfg ≠ ∅ → true = true → holds st1 et ("r" +:+ fmt_04d idx) abs_points)).
    { intros st1 Et Eh El Hsub Hnew. split.
      - intros tg id points [He | [(-> & r & Hr & Hid) | (-> & li & Hli & Hid)]].
        + left. rewrite Et. exact He.
        + right. left. split; [reflexivity|]. exists r.
          split; [apply Hsub, Hr|]. rewrite Eh, lookup_total_app_l; [exact Hid|].
          apply elem_of_app in Hr as [Hr|Hr]; [apply Vp, Hr | apply Vc, Hr].
        + right. right. split; [reflexivity|]. exists li. rewrite El. done.
      - intros _ _. right. left. split; [exact TR|].
        exists (length (heap st)). split; [exact Hnew|].
        rewrite Eh, lookup_total_app_r, Nat.sub_diag by lia. done. }
    destruct (String.eqb (default EmptyString _) "TextRegion"); intros [= <-];
      apply Old; try reflexivity; simpl; intros;
      repeat (rewrite elem_of_app in *); rewrite ?list_elem_of_singleton; tauto. }
  destruct (bool_decide (et ∈ opaque_region_types)) eqn:O; intros [= <-];
    [|split; [done | discriminate]].
  change (alter _ page (tree st) ++ _)
    with (append_pair page (region_element et ("r" +:+ fmt_04d idx) None)
            abs_points (tree st)).
  split.
  - intros tg id points [He | [Hw | Hw]].
    + left. simpl. eapply emits_grown; [apply grown_append_pair | exact He].
    + right. left. exact Hw.
    + right. right. exact Hw.
  - intros _ _. left. simpl. apply emits_region.
Qed.

Lemma first_pass_step_refs page w h st idx line st' :
  parent_refs_valid st → child_refs_valid st →
  m_res (first_pass_step mapping page w h st (idx, line)) = Ok st' →
  parent_refs_valid st' ∧ child_refs_valid st'.
Proof.
  intros Vp Vc H1. rewrite first_pass_step_cases in H1.
  destruct (strip line); [injection H1 as <-; done|].
  destruct (_parse_yolo_label line) as [[class_id points]|e]; [|discriminate].
  destruct points as [|pt points]; [injection H1 as <-; done|].
  destruct (_denormalize_points (pt :: points) w h) as [abs_points|e];
    [|discriminate].
  split; [eapply (store_record_refs_valid mapping); eassumption|].
  eapply store_record_lists; eassumption.
Qed.

Lemma first_pass_step_holds page w h st idx line st' :
  parent_refs_valid st → child_refs_valid st →
  m_res (first_pass_step mapping page w h st (idx, line)) = Ok st' →
  (∀ tg id points, holds st tg id points → holds st' tg id points) ∧
  (∀ class_id points abs_points,
     _parse_yolo_label line = Ok (class_id, points) → points ≠ [] →
     _denormalize_points points w h = Ok abs_points →
     let cfg := default ∅ (mapping !! str_of_class_id class_id) in
     cfg ≠ ∅ → recognised cfg = true →
     holds st' (default "TextLine"%string (cfg !! "element"))
       (record_id (default "TextLine"%string (cfg !! "element")) idx)
       abs_points).
Proof.
  intros Vp Vc H1. rewrite first_pass_step_cases in H1.
  destruct (strip line) eqn:S.
  { injection H1 as <-. split; [done|].
    intros class_id points abs_points P N. exfalso.
    unfold _parse_yolo_label in P. rewrite S in P. simpl in P.
    injection P as _ <-. done. }
  destruct (_parse_yolo_label line) as [[class_id points]|e]; [|discriminate].
  destruct points as [|pt points].
  { injection H1 as <-. split; [done|].
    intros class_id' points' abs_points [= <- <-] N. done. }
  destruct (_denormalize_points (pt :: points) w h) as [abs_points|e] eqn:D;
    [|discriminate].
  destruct (store_record_holds _ _ _ _ _ _ Vp Vc H1) as [Keep New].
  split; [exact Keep|].
  intros class_id' points' abs_points' [= <- <-] _. rewrite D.
  intros [= <-]. exact New.
Qed.

Lemma first_pass_holds page w h lines i st st' :
  parent_refs_valid st → child_refs_valid st →
  m_res (for_each_M (first_pass_step mapping page w h)
           (enumerate_from i lines) st) = Ok st' →
  (∀ tg id points, holds st tg id points → holds st' tg id points) ∧
  (∀ k line class_id points abs_points,
     lines !! k = Some line →
     _parse_yolo_label line = Ok (class_id, points) → points ≠ [] →
     _denormalize_points points w h = Ok abs_points →
     let cfg := default ∅ (mapping !! str_of_class_id class_id) in
     cfg ≠ ∅ → recognised cfg = true →
     holds st' (default "TextLine"%string (cfg !! "element"))
       (record_id (default "TextLine"%string (cfg !! "element")) (i + k))
       abs_points).
Proof.
  revert i st. induction lines as [|line lines IH]; intros i st Vp Vc.
  - simpl. intros [= <-]. split; [done|]. intros k line c p a Hk. inversion Hk.
  - rewrite enumerate_from_cons, for_each_M_cons.
    intros (s1 & H1 & H2)%m_res_bind_Ok_split.
    destruct (first_pass_step_refs _ _ _ _ _ _ _ Vp Vc H1) as [Vp1 Vc1].
    destruct (first_pass_step_holds _ _ _ _ _ _ _ Vp Vc H1) as [Keep1 New1].
    destruct (IH _ _ Vp1 Vc1 H2) as [Keep2 New2].
    split; [auto|].
    intros [|k] line' class_id points abs_points Hk P N D cfg C R.
    + injection Hk as <-. rewrite Nat.add_0_r. apply Keep2.
      apply (New1 class_id points abs_points P N D C R).
    + replace (i + S k) with (S i + k) by lia.
      apply (New2 k line' class_id points abs_points Hk P N D C R).
Qed.

Lemma attach_region_emits p c st :
  grown (tree st) (tree (attach_region p c st)) ∧
  emits (tree (attach_region p c st)) "TextRegion"
    (ri_id (heap st !!! c)) (ri_points (heap st !!! c)).
Proof.
  rewrite attach_region_tree. split; [apply grown_append_pair|].
  apply emits_region.
Qed.

Lemma second_pass_fold_emits page refs st :
  let st' := fold_left (second_pass_step page) refs st in
  grown (tree st) (tree st') ∧
  (∀ r, ri_id (heap st' !!! r) = ri_id (heap st !!! r) ∧
        ri_points (heap st' !!! r) = ri_points (heap st !!! r)) ∧
  ∀ r, r ∈ refs →
    emits (tree st') "TextRegion" (ri_id (heap st !!! r))
      (ri_points (heap st !!! r)).
Proof.
  revert st. induction refs as [|c refs IH]; intros st.
  - simpl. split; [apply grown_refl|]. split; [done|].
    intros r Hr. inversion Hr.
  - cbv zeta. simpl fold_left. rewrite second_pass_step_attach.
    destruct (IH (attach_region page c st)) as (G & H & E).
    destruct (attach_region_emits page c st) as [G1 E1].
    assert (H1 : ∀ r, ri_id (heap (attach_region page c st) !!! r) =
                      ri_id (heap st !!! r) ∧
                      ri_points (heap (attach_region page c st) !!! r) =
                      ri_points (heap st !!! r))
      by (intros r; apply set_ri_element_same).
    split; [eapply grown_trans; eassumption|]. split.
    + intros r. destruct (H r) as [-> ->]. apply H1.
    + intros r Hr. apply elem_of_cons in Hr as [->|Hr].
      * eapply emits_grown; [exact G | exact E1].
      * destruct (H1 r) as [<- <-]. apply E, Hr.
Qed.

Lemma third_pass_fold_emits page refs st orphans :
  let st' := (fold_left (third_pass_step page) refs (st, orphans)).1 in
  grown (tree st) (tree st') ∧
  ∀ r, r ∈ refs →
    emits (tree st') "TextRegion" (ri_id (heap st !!! r))
      (ri_points (heap st !!! r)).
Proof.
  revert st orphans. induction refs as [|c refs IH]; intros st orphans.
  - simpl. split; [apply grown_refl|]. intros r Hr. inversion Hr.
  - cbv zeta. simpl fold_left. rewrite third_pass_step_closed.
    assert (Step : ∀ p o,
      let st' := (fold_left (third_pass_step page) refs
                    (attach_region p c st, o)).1 in
      grown (tree st) (tree st') ∧
      ∀ r, r ∈ c :: refs →
        emits (tree st') "TextRegion" (ri_id (heap st !!! r))
          (ri_points (heap st !!! r))).
    { intros p o. cbv zeta.
      destruct (IH (attach_region p c st) o) as (G & E).
      destruct (attach_region_emits p c st) as [G1 E1].
      split; [eapply grown_trans; eassumption|].
      intros r Hr. apply elem_of_cons in Hr as [->|Hr].
      - eapply emits_grown; [exact G | exact E1].
      - destruct (set_ri_element_same (length (tree st)) c (heap st) r)
          as [<- <-].
        apply E, Hr. }
    destruct (_find_best_parent _ _ _ _) as [p|]; apply Step.
Qed.

Lemma fourth_pass_fold_emits page lines st c :
  let st' := (fold_left (fourth_pass_step page) lines (st, c)).1 in
  grown (tree st) (tree st') ∧
  ∀ li, li ∈ lines → emits (tree st') "TextLine" (li_id li) (li_points li).
Proof.
  revert st c. induction lines as [|li lines IH]; intros st c.
  - simpl. split; [apply grown_refl|]. intros r Hr. inversion Hr.
  - cbv zeta. simpl fold_left. rewrite fourth_pass_step_closed.
    destruct (find_best_region _ _) as [r|].
    + rewrite with_line_in_pair.
      match goal with
      | |- context [fold_left _ lines (with_tree ?t1 st, c)] =>
          destruct (IH (with_tree t1 st) c) as (G & E)
      end.
      simpl tree in G.
      split; [eapply grown_trans; [apply grown_append_pair | exact G]|].
      intros li' Hli. apply elem_of_cons in Hli as [->|Hli]; [|apply E, Hli].
      eapply emits_grown; [exact G | apply emits_line].
    + rewrite with_orphan_region_pair.
      match goal with
      | |- context [fold_left _ lines (with_tree ?t1 st, S c)] =>
          destruct (IH (with_tree t1 st) (S c)) as (G & E)
      end.
      simpl tree in G.
      split.
      * eapply grown_trans; [apply grown_append_pair|].
        eapply grown_trans; [apply grown_append_pair | exact G].
      * intros li' Hli. apply elem_of_cons in Hli as [->|Hli]; [|apply E, Hli].
        eapply emits_grown; [exact G | apply emits_line].
Qed.

Lemma later_passes_emits page s1 t :
  m_res (later_passes page s1) = Ok t →
  grown (tree s1) t ∧
  ∀ tg id points, holds s1 tg id points → emits t tg id points.
Proof.
  unfold later_passes.
  rewrite m_res_bind, second_pass_res, result_Ok_bind.
  destruct (second_pass_fold_emits page (parent_text_regions s1) s1)
    as (G2 & H2 & E2).
  pose proof (second_pass_fold_lists page (parent_text_regions s1) s1)
    as (_ & C2 & _).
  pose proof (second_pass_fold_ids page (parent_text_regions s1) s1)
    as (_ & _ & T2).
  set (s2 := fold_left (second_pass_step page) (parent_text_regions s1) s1) in *.
  rewrite m_res_bind, third_pass_res, result_Ok_bind.
  destruct (third_pass_fold_emits page (child_text_regions s2) s2 [])
    as (G3 & E3).
  pose proof (third_pass_fold_ids page (child_text_regions s2) s2 [])
    as (_ & T3).
  set (s3 := (fold_left (third_pass_step page) (child_text_regions s2)
                (s2, [])).1) in *.
  rewrite m_res_bind, fourth_pass_res, result_Ok_bind.
  destruct (fourth_pass_fold_emits page (text_lines s3) s3 0) as (G4 & E4).
  intros [= <-].
  assert (G : grown (tree s1)
                (tree (fold_left (fourth_pass_step page) (text_lines s3)
                         (s3, 0)).1)).
  { eapply grown_trans; [exact G2|]. eapply grown_trans; eassumption. }
  split; [exact G|].
  intros tg id points [He | [(-> & r & Hr & <- & <-) | (-> & li & Hli & <- & <-)]].
  - eapply emits_grown; eassumption.
  - apply elem_of_app in Hr as [Hr|Hr].
    + eapply emits_grown; [exact (grown_trans _ _ _ G3 G4)|]. apply E2, Hr.
    + eapply emits_grown; [exact G4|].
      destruct (H2 r) as [<- <-]. apply E3. rewrite C2. exact Hr.
  - apply E4. rewrite T3, T2. exact Hli.
Qed.

(** X8. For every line of the label file that is a stored record, the
    document of a successful conversion has an element of the configured
    element type whose id is [l] (TextLine) or [r] (regions) followed by the
    four-digit index of the line, and whose first child is a Coords element
    with the points string of the denormalised polygon of the line. *)
Theorem stored_record_polygon_emitted lines img_name w h t idx line
    class_id points abs_points :
  m_res (convert_page mapping (Some lines) (Some (img_name, w, h))) = Ok t →
  lines !! idx = Some line →
  _parse_yolo_label line = Ok (class_id, points) → points ≠ [] →
  _denormalize_points points w h = Ok abs_points →
  let cfg := default ∅ (mapping !! str_of_class_id class_id) in
  cfg ≠ ∅ → recognised cfg = true →
  emits t (default "TextLine"%string (cfg !! "element"))
    (record_id (default "TextLine"%string (cfg !! "element")) idx) abs_points.
Proof.
  rewrite convert_page_passes.
  intros (s1 & H1 & H2)%m_res_bind_Ok_split Hk P N D cfg C R.
  apply first_pass_holds in H1 as [_ New];
    [|intros r Hr; inversion Hr | intros r Hr; inversion Hr].
  apply later_passes_emits in H2 as [_ E]. apply E.
  apply (New idx line class_id points abs_points Hk P N D C R).
Qed.

Lemma store_record_grown page st idx class_id abs_points st' :
  m_res (store_record mapping page st idx class_id abs_points) = Ok st' →
  grown (tree st) (tree st').
Proof.
  unfold store_record.
  destruct (decide _); [intros [= <-]; apply grown_refl|].
  destruct (String.eqb _ "TextLine"); [intros [= <-]; apply grown_refl|].
  destruct (String.eqb _ "TextRegion").
  { destruct (String.eqb _ "TextRegion"); intros [= <-]; apply grown_refl. }
  destruct (bool_decide _); intros [= <-]; [|apply grown_refl].
  apply (grown_append_pair page (region_element _ _ None)).
Qed.

Lemma first_pass_grown page w h lines i st st' :
  m_res (for_each_M (first_pass_step mapping page w h)
           (enumerate_from i lines) st) = Ok st' →
  grown (tree st) (tree st').
Proof.
  revert i st. induction lines as [|line lines IH]; intros i st.
  - simpl. intros [= <-]. apply grown_refl.
  - rewrite enumerate_from_cons, for_each_M_cons.
    intros (s1 & H1 & H2)%m_res_bind_Ok_split.
    eapply grown_trans; [|eapply IH, H2]. clear H2.
    rewrite first_pass_step_cases in H1.
    destruct (strip line); [injection H1 as <-; apply grown_refl|].
    destruct (_parse_yolo_label line) as [[class_id points]|e]; [|discriminate].
    destruct points as [|pt points]; [injection H1 as <-; apply grown_refl|].
    destruct (_denormalize_points (pt :: points) w h) as [abs_points|e];
      [|discriminate].
    eapply store_record_grown, H1.
Qed.

(** X15. The passes only append: every element of the document of
    [_create_page_element] is in the final document with its tag, attributes
    and text, and with its children extended at the end. In particular the
    Page element carries the image file name, width and height. *)
Theorem document_header_kept lines img_name w h t :
  m_res (convert_page mapping (Some lines) (Some (img_name, w, h))) = Ok t →
  grown (_create_page_element img_name w h).1.1 t ∧
  tag (t !!! (_create_page_element img_name w h).2) = "Page"%string ∧
  attrib (t !!! (_create_page_element img_name w h).2) =
    {[ "imageFilename"%string := img_name;
       "imageWidth"%string := str_of_Z w;
       "imageHeight"%string := str_of_Z h ]}.
Proof.
  rewrite convert_page_passes.
  intros (s1 & H1 & H2)%m_res_bind_Ok_split.
  apply first_pass_grown in H1. apply later_passes_emits in H2 as [G2 _].
  pose proof (grown_trans _ _ _ H1 G2) as G. simpl tree in G.
  split; [exact G|].
  destruct G as [_ K]. destruct (K 5 ltac:(vm_compute; lia)) as (T & A & _).
  change (_create_page_element img_name w h).2 with 5.
  rewrite T, A. split; [reflexivity|].
  apply map_eq. intros k. vm_compute. reflexivity.
Qed.

End Emitted.

(** ** The default mapping *)

Section DefaultMapping.

Context {builtins : PyBuiltins} {shapely : Shapely} {env : PyEnv}.



End DefaultMapping.

(** ** Concrete runs of the further properties *)

Section MoreRuns.

Import Samples MoreSamples.

Local Existing Instance Reference.builtins.

Local Existing Instance Reference.rectangles.

Local Existing Instance Reference.env.

Lemma parse_points_are_token_pairs_witness :
  ∃ points, _parse_yolo_label leaf_line = Ok (Some 0%Z, points) ∧
            length points = 4.
Proof.
  eexists. split; [vm_compute; reflexivity|].
  match goal with
  | |- length ?pts = _ =>
      destruct (parse_points_are_token_pairs (builtins := Reference.builtins)
                  leaf_line (Some 0%Z) pts)
        as (_ & _ & L & _); [vm_compute; reflexivity | discriminate |]
  end.
  exact L.
Defined.

Lemma unpaired_last_token_ignored_witness :
  split (strip dangling_line) = split (strip paired_line) ++ ["x"%string] ∧
  _parse_yolo_label dangling_line = _parse_yolo_label paired_line.
Proof.
  assert (E : split (strip dangling_line) =
              split (strip paired_line) ++ ["x"%string]) by reflexivity.
  split; [exact E|].
  apply (unpaired_last_token_ignored dangling_line paired_line "x" E).
  exists 4. reflexivity.
Defined.

Lemma denormalize_points_pointwise_witness :
  _denormalize_points [(1 # 2, 1 # 4)] 100 200 = Ok [(50, 50)%Z] ∧
  Forall2 (λ p a, int_of_float (float_mul_int p.1 100%Z) = Ok a.1 ∧
                  int_of_float (float_mul_int p.2 200%Z) = Ok a.2)
    [(1 # 2, 1 # 4)] [(50, 50)%Z].
Proof.
  assert (E : _denormalize_points [(1 # 2, 1 # 4)] 100 200 = Ok [(50, 50)%Z])
    by reflexivity.
  split; [exact E|].
  destruct (denormalize_points_pointwise (builtins := Reference.builtins)
              [(1 # 2, 1 # 4)] 100%Z 200%Z) as [F _].
  exact (F _ E).
Defined.


Lemma idle_page_unclassified :
  Forall (λ l, classified sample_mapping 100 100 l = false) idle_page.
Proof. repeat constructor. Qed.

Lemma no_stored_record_bare_page_witness :
  ∃ t,
    (t = (_create_page_element "page.png" 100 100).1.1 ∧
     children (t !!! (_create_page_element "page.png" 100 100).2) = []) ∧
    length t = 6.
Proof.
  eexists. split.
  - apply (no_stored_record_bare_page sample_mapping idle_page
             "page.png"%string 100%Z 100%Z _ idle_page_unclassified).
    vm_compute. reflexivity.
  - reflexivity.
Defined.

Lemma containment_is_overlap_ratio_witness :
  (_calculate_containment_score (square 0 0 100 50) (square 0 0 50 50) ==
   _calculate_polygon_overlap (square 0 0 100 50) (square 0 0 50 50)
   / polygon_area (square 0 0 100 50))%Q.
Proof.
  apply (containment_is_overlap_ratio (square 0 0 100 50) (square 0 0 50 50));
    reflexivity.
Defined.


Lemma default_mapping_no_region : no_text_region_class create_default_mapping.
Proof.
  intros k cfg H. unfold create_default_mapping in H.
  apply lookup_singleton_Some in H as [_ <-]. discriminate.
Qed.

Lemma no_region_class_every_leaf_own_region_witness :
  ∃ s1,
    m_res (convert_page create_default_mapping
             (Some [leaf_line; region_line; leaf_line])
             (Some ("page.png"%string, 100%Z, 100%Z))) =
    Ok (fold_left
          (λ t kl, with_orphan_region (_create_page_element "page.png" 100 100).2
                     t kl.1 kl.2)
          (enumerate_from 0 (text_lines s1)) (tree s1)) ∧
    length (text_lines s1) = 2 ∧ length (tree s1) = 6.
Proof.
  eexists. split.
  - eapply (no_region_class_every_leaf_own_region create_default_mapping
              [leaf_line; region_line; leaf_line] "page.png"%string 100%Z 100%Z
              _ default_mapping_no_region).
    vm_compute. reflexivity.
  - split; reflexivity.
Defined.

Lemma element_ids_unique_witness :
  ∃ t, NoDup (element_ids t) ∧
       element_ids t = ["r0004"; "r0000"; "r0001"; "l0003"]%string.
Proof.
  eexists. split.
  - apply (element_ids_unique sample_mapping sample_page "page.png"%string
             100%Z 100%Z).
    vm_compute. reflexivity.
  - reflexivity.
Defined.

Lemma batch_accounts_for_every_label_file_witness :
  ∃ b,
    (converted b + failed b = length sample_labels ∧
     length (written b) = converted b ∧
     written b = omap (page_output sample_mapping sample_images) sample_labels) ∧
    converted b = 1 ∧ failed b = 2.
Proof.
  eexists. split.
  - apply (batch_accounts_for_every_label_file sample_mapping sample_labels
             sample_images).
    vm_compute. reflexivity.
  - split; reflexivity.
Defined.

Lemma regions_nest_at_most_once_witness :
  ∃ t, nesting_ok (_create_page_element "page.png" 100 100).2 t ∧
       tag (t !!! 10) = "TextRegion"%string ∧
       children (t !!! 5) = [6; 8] ∧ children (t !!! 8) = [9; 10].
Proof.
  eexists. split.
  - apply (regions_nest_at_most_once sample_mapping sample_page
             "page.png"%string 100%Z 100%Z).
    vm_compute. reflexivity.
  - repeat split; reflexivity.
Defined.

Lemma every_text_line_in_a_text_region_witness :
  ∃ t, lines_in_regions t ∧ tag (t !!! 8) = "TextLine"%string ∧
       tag (t !!! 6) = "TextRegion"%string ∧ children (t !!! 6) = [7; 8].
Proof.
  eexists. split.
  - apply (every_text_line_in_a_text_region create_default_mapping [leaf_line]
             "page.png"%string 100%Z 100%Z).
    vm_compute. reflexivity.
  - repeat split; reflexivity.
Defined.

Lemma points_string_determines_points_witness :
  _points_to_string [(10, 20); (-3, 0)]%Z = "10,20 -3,0"%string ∧
  [(10, 20); (-3, 0)]%Z = [(10, 20); (-3, 0)]%Z.
Proof.
  split; [reflexivity|].
  apply (points_string_determines_points [(10, 20); (-3, 0)]%Z
           [(10, 20); (-3, 0)]%Z eq_refl).
Defined.

Lemma stored_record_polygon_emitted_witness :
  ∃ t, emits t
         (default "TextLine"%string
            (default ∅ (sample_mapping !! str_of_class_id (Some 0%Z))
             !! "element"%string))
         (record_id
            (default "TextLine"%string
               (default ∅ (sample_mapping !! str_of_class_id (Some 0%Z))
                !! "element"%string)) 3)
         [(10, 10); (30, 10); (30, 20); (10, 20)]%Z.
Proof.
  eexists.
  eapply (stored_record_polygon_emitted sample_mapping sample_page
            "page.png"%string 100%Z 100%Z _ 3 leaf_line (Some 0%Z)).
  - vm_compute. reflexivity.
  - reflexivity.
  - vm_compute. reflexivity.
  - discriminate.
  - vm_compute. reflexivity.
  - apply insert_non_empty.
  - reflexivity.
Defined.

Lemma document_header_kept_witness :
  ∃ t,
    grown (_create_page_element "page.png" 100 100).1.1 t ∧
    tag (t !!! (_create_page_element "page.png" 100 100).2) = "Page"%string ∧
    attrib (t !!! (_create_page_element "page.png" 100 100).2) =
      {[ "imageFilename"%string := "page.png"%string;
         "imageWidth"%string := str_of_Z 100;
         "imageHeight"%string := str_of_Z 100 ]}.
Proof.
  eexists.
  apply (document_header_kept sample_mapping sample_page
           "page.png"%string 100%Z 100%Z).
  vm_compute. reflexivity.
Defined.


End MoreRuns.
